(** * Real-time telemetry broadcast of AiCostObserve

    A shallow embedding of the workspace-scoped WebSocket broadcast layer of
    the server's route module ([registerRoutes]): the socket-token codec
    ([generateSocketToken], [validateSocketToken]), the client registry
    [wsClients], the [/ws] connection handlers and the fan-out of
    [POST /api/telemetry/ingest].

    JavaScript values are modelled as far as the handlers inspect them:
    the results of [JSON.parse] are the inductive [json], [undefined] is
    [None], exceptions are explicit ([result]), and the functions of the
    Node.js runtime the code calls (HMAC, base64, JSON text) are the fields
    of the class [Platform]. *)

From Stdlib Require Import Ascii ZArith Lia Decimal DecimalString DecimalZ DecimalPos.
From stdpp Require Import base option list strings.

Local Open Scope string_scope.
Local Open Scope Z_scope.
Local Open Scope list_scope.

(** ** JavaScript values *)

(** What [JSON.parse] returns.  Numbers are integers here: the only numbers
    the code computes with are millisecond time stamps ([Date.now()]). *)
#[local] Unset Elimination Schemes.
Inductive json : Type :=
  | JNull
  | JBool (b : bool)
  | JNum (n : Z)
  | JStr (s : string)
  | JArr (items : list json)
  | JObj (fields : list (string * json)).
#[local] Set Elimination Schemes.

(** A JavaScript value read from parsed JSON: [None] is [undefined]. *)
Definition jsval : Type := option json.

(** A thrown [Error] object; the handlers only ever read [error.message]. *)
Record error : Type := mkError { error_name : string; error_message : string }.

Definition TypeError (m : string) : error := mkError "TypeError" m.
Definition SyntaxError (m : string) : error := mkError "SyntaxError" m.

(** The outcome of evaluating JavaScript code that may throw. *)
Inductive result (A : Type) : Type :=
  | Ok (a : A)
  | Throw (e : error).
Arguments Ok {A} a.
Arguments Throw {A} e.

#[global] Instance result_ret : MRet result := fun _ a => Ok a.
#[global] Instance result_bind : MBind result := fun _ _ f m =>
  match m with
  | Ok a => f a
  | Throw e => Throw e
  end.

(** [try { body } catch (error) { handler }] *)
Definition try_catch {A} (body : result A) (handler : error -> result A) : result A :=
  match body with
  | Ok a => Ok a
  | Throw e => handler e
  end.

(** The value of a key in the field list of an object.  A key that JSON
    text gives twice keeps its last value. *)
Fixpoint assoc (k : string) (fields : list (string * json)) : jsval :=
  match fields with
  | [] => None
  | (k', v) :: rest =>
      match assoc k rest with
      | Some v' => Some v'
      | None => if String.eqb k k' then Some v else None
      end
  end.

(** Property read [v.k] on a parsed value.  Reading a property of [null]
    throws a TypeError; on an object it is the own property or [undefined];
    the property names the code reads (type, token, data, signature, exp,
    workspaceId) are not defined on the prototypes of strings, numbers,
    booleans or arrays, so the read gives [undefined] there. *)
Definition get_prop (v : json) (k : string) : result jsval :=
  match v with
  | JNull => Throw (TypeError "Cannot read properties of null")
  | JObj fields => Ok (assoc k fields)
  | _ => Ok None
  end.

(** ToBoolean, as used by [&&], [||] and [!]. *)
Definition truthy (v : jsval) : bool :=
  match v with
  | None => false
  | Some JNull => false
  | Some (JBool b) => b
  | Some (JNum n) => negb (n =? 0)%Z
  | Some (JStr s) => negb (String.eqb s "")
  | Some (JArr _) => true
  | Some (JObj _) => true
  end.

(** [v === s] for a string [s]: strict equality never converts. *)
Definition strict_eq_string (v : jsval) (s : string) : bool :=
  match v with
  | Some (JStr s') => String.eqb s' s
  | _ => false
  end.

(** ** The runtime functions the code calls *)

Class Platform : Type := {
  (** [process.env.SESSION_SECRET] *)
  SESSION_SECRET : option string;
  (** [createHmac("sha256", key).update(data).digest("hex")] on a string *)
  hmac_sha256_hex : string -> string -> string;
  (** [Buffer.from(s).toString("base64")] *)
  base64_encode : string -> string;
  (** [Buffer.from(token, "base64").toString()], for whatever value the
      message carries as its token (a TypeError for a number, say) *)
  buffer_from_base64 : json -> result string;
  (** [JSON.stringify] *)
  JSON_stringify : json -> string;
  (** [JSON.parse]; [None] is the SyntaxError it throws *)
  JSON_parse : string -> option json;
  (** ToNumber on a string, an array or an object; [None] is NaN *)
  ToNumber_coerced : json -> option Z
}.

(** ToNumber; [None] is NaN. *)
Definition ToNumber `{Platform} (v : jsval) : option Z :=
  match v with
  | None => None
  | Some JNull => Some 0
  | Some (JBool b) => Some (if b then 1 else 0)
  | Some (JNum n) => Some n
  | Some other => ToNumber_coerced other
  end.

(** [v < n] for a number [n]: false as soon as [v] converts to NaN. *)
Definition lt_number `{Platform} (v : jsval) (n : Z) : bool :=
  match ToNumber v with
  | Some m => (m <? n)%Z
  | None => false
  end.

(** [JSON.parse(text)] as a computation that may throw. *)
Definition parse `{Platform} (text : string) : result json :=
  match JSON_parse text with
  | Some v => Ok v
  | None => Throw (SyntaxError "Unexpected token in JSON")
  end.

(** [JSON.parse(data)] on a value read from parsed JSON.  The code reaches
    it only after [update(data)] has accepted [data], that is, for a
    string; the other cases are never evaluated. *)
Definition parse_value `{Platform} (data : jsval) : result json :=
  match data with
  | Some (JStr s) => parse s
  | _ => Throw (SyntaxError "Unexpected token in JSON")
  end.

(** [createHmac("sha256", key).update(data).digest("hex")]: [update] throws
    a TypeError unless its argument is a string (or a buffer, which parsed
    JSON never is). *)
Definition createHmac_digest `{Platform} (key : string) (data : jsval) : result string :=
  match data with
  | Some (JStr s) => Ok (hmac_sha256_hex key s)
  | _ => Throw (TypeError "The data argument must be of type string")
  end.

(** ** Socket tokens *)

Module Token.
Section Token.
Context `{Platform}.

(** [process.env.SESSION_SECRET || "default-socket-secret"] *)
Definition SOCKET_SECRET : string :=
  match SESSION_SECRET with
  | Some s => if String.eqb s "" then "default-socket-secret" else s
  | None => "default-socket-secret"
  end.

(** 24 hours *)
Definition TOKEN_EXPIRY : Z := 24 * 60 * 60 * 1000.

(** [{ workspaceId, exp }] *)
Definition token_payload (workspaceId : string) (exp : Z) : json :=
  JObj [("workspaceId", JStr workspaceId); ("exp", JNum exp)].

(** [{ data, signature }] *)
Definition token_envelope (data signature : string) : json :=
  JObj [("data", JStr data); ("signature", JStr signature)].

(** [generateSocketToken(workspaceId)], called when [Date.now()] is [now]. *)
Definition generateSocketToken (workspaceId : string) (now : Z) : string :=
  let payload := token_payload workspaceId (now + TOKEN_EXPIRY) in
  let data := JSON_stringify payload in
  let signature := hmac_sha256_hex SOCKET_SECRET data in
  base64_encode (JSON_stringify (token_envelope data signature)).

(** The token a holder of the secret builds around a payload of its own
    choice, signed the way [generateSocketToken] signs. *)
Definition signed_token (payload : json) : string :=
  let data := JSON_stringify payload in
  base64_encode
    (JSON_stringify (token_envelope data (hmac_sha256_hex SOCKET_SECRET data))).

(** [{ valid: boolean; workspaceId?: string }] *)
Record validation : Type := mkValidation { valid : bool; workspaceId : jsval }.

Definition invalid : validation := mkValidation false None.

(** The [try] block of [validateSocketToken]. *)
Definition validate_body (token : jsval) (now : Z) : result validation :=
  text ← match token with
         | Some t => buffer_from_base64 t
         | None => Throw (TypeError "The first argument must be of type string")
         end;
  decoded ← parse text;
  data ← get_prop decoded "data";
  signature ← get_prop decoded "signature";
  expectedSignature ← createHmac_digest SOCKET_SECRET data;
  if negb (strict_eq_string signature expectedSignature) then mret invalid
  else
    payload ← parse_value data;
    exp ← get_prop payload "exp";
    if lt_number exp now then mret invalid
    else
      workspaceId ← get_prop payload "workspaceId";
      mret (mkValidation true workspaceId).

(** [validateSocketToken(token)], called when [Date.now()] is [now].  The
    parameter is declared [string]; the caller passes whatever the client's
    message holds. *)
Definition validateSocketToken (token : jsval) (now : Z) : result validation :=
  try_catch (validate_body token now) (fun _ => mret invalid).

End Token.
End Token.

(** ** What an accepted token is *)

Section Accepted.
Context `{Platform}.

(** The tokens [validateSocketToken] accepts at time [now], with the
    workspace it reports: the decoded text is JSON with a string [data] and
    a [signature] that is the HMAC of [data]; [data] is JSON with a
    non-null value whose [exp] is not below [now]. *)
Definition accepted (token : jsval) (now : Z) (workspaceId : jsval) : Prop :=
  exists (t : json) (text : string) (decoded : json) (data : string)
         (payload : json) (exp : jsval),
    token = Some t /\
    buffer_from_base64 t = Ok text /\
    JSON_parse text = Some decoded /\
    get_prop decoded "data" = Ok (Some (JStr data)) /\
    get_prop decoded "signature"
      = Ok (Some (JStr (hmac_sha256_hex Token.SOCKET_SECRET data))) /\
    JSON_parse data = Some payload /\
    get_prop payload "exp" = Ok exp /\
    lt_number exp now = false /\
    get_prop payload "workspaceId" = Ok workspaceId.

(** What is left of validation once the signature has matched. *)
Definition after_signature (payload : json) (now : Z) : result Token.validation :=
  exp ← get_prop payload "exp";
  if lt_number exp now then mret Token.invalid
  else
    workspaceId ← get_prop payload "workspaceId";
    mret (Token.mkValidation true workspaceId).

End Accepted.

(** ** Telemetry records *)

Module TelemetryLog.

(** A row of [telemetry_logs] (shared/schema.ts) as the storage layer
    returns it.  [cost] is a decimal column, read as a string; [timestamp]
    is kept in the ISO form [JSON.stringify] gives a [Date]. *)
Record t : Type := mk {
  id : string;
  workspaceId : string;
  projectId : option string;
  environment : string;
  model : string;
  prompt : string;
  response : string;
  latencyMs : Z;
  promptTokens : Z;
  completionTokens : Z;
  totalTokens : Z;
  cost : string;
  status : string;
  metadata : option json;
  timestamp : string
}.

Definition nullable (v : option json) : json :=
  match v with
  | Some j => j
  | None => JNull
  end.

(** The JSON value of a record, as [JSON.stringify] and [res.json] see it. *)
Definition toJSON (log : t) : json :=
  JObj [("id", JStr (id log));
        ("workspaceId", JStr (workspaceId log));
        ("projectId", nullable (JStr <$> projectId log));
        ("environment", JStr (environment log));
        ("model", JStr (model log));
        ("prompt", JStr (prompt log));
        ("response", JStr (response log));
        ("latencyMs", JNum (latencyMs log));
        ("promptTokens", JNum (promptTokens log));
        ("completionTokens", JNum (completionTokens log));
        ("totalTokens", JNum (totalTokens log));
        ("cost", JStr (cost log));
        ("status", JStr (status log));
        ("metadata", nullable (metadata log));
        ("timestamp", JStr (timestamp log))].

End TelemetryLog.

(** ** The WebSocket transport and the client registry *)

(** A [WebSocket] object of the ws library, by identity. *)
Abbreviation WebSocket := nat (only parsing).

(** [ws.readyState] of a server-side socket (never CONNECTING). *)
Inductive ready_state : Type := OPEN | CLOSING | CLOSED.

#[global] Instance ready_state_eq_dec : EqDecision ready_state.
Proof. solve_decision. Defined.

(** [interface WebSocketClient { socket; workspaceId }].  The registry is a
    [Set] of such objects, which compares by identity: [client_ref] is the
    identity of the object.  [workspaceId] holds whatever truthy value the
    validated payload carried (declared [string]). *)
Record WebSocketClient : Type := mkClient {
  client_ref : nat;
  socket : WebSocket;
  workspaceId : json
}.

(** One accepted connection: the socket's state and the variable [client]
    the three handlers of the connection close over.  [send_fault] is the
    error [ws.send] raises on this socket, if its transport is in such a
    condition. *)
Record connection : Type := mkConnection {
  readyState : ready_state;
  send_fault : option error;
  client : option WebSocketClient
}.

(** The module-level state: the set [wsClients] in insertion order, the
    sockets accepted so far (a socket is its index), and the next fresh
    object identity. *)
Record server : Type := mkServer {
  wsClients : list WebSocketClient;
  connections : list connection;
  next_ref : nat
}.

Definition initial : server := mkServer [] [] 0.

(** What a handler does to the outside world. *)
Inductive output : Type :=
  | Sent (ws : WebSocket) (payload : string)
  | CloseCalled (ws : WebSocket)
  | ConsoleError (e : error)
  | Response (status_code : Z) (body : json).

(** ** Handlers: state, outputs and exceptions

    A handler is run to completion on the server state.  A thrown exception
    does not undo the changes made before it. *)
Definition M (A : Type) : Type := server -> result A * server * list output.

#[global] Instance M_ret : MRet M := fun _ a s => (Ok a, s, []).
#[global] Instance M_bind : MBind M := fun _ _ f m s =>
  match m s with
  | (Ok a, s', o) => let '(r, s'', o') := f a s' in (r, s'', o ++ o')
  | (Throw e, s', o) => (Throw e, s', o)
  end.

Definition try_catch_M {A} (body : M A) (handler : error -> M A) : M A := fun s =>
  match body s with
  | (Ok a, s', o) => (Ok a, s', o)
  | (Throw e, s', o) => let '(r, s'', o') := handler e s' in (r, s'', o ++ o')
  end.

Definition lift {A} (r : result A) : M A := fun s => (r, s, []).
Definition get_server : M server := fun s => (Ok s, s, []).
Definition emit (o : output) : M unit := fun s => (Ok tt, s, [o]).

Definition is_open (s : server) (ws : WebSocket) : bool :=
  match connections s !! ws with
  | Some c => bool_decide (readyState c = OPEN)
  | None => false
  end.

(** [ws.send(payload)]: raises if the transport is faulty; hands the frame
    to an open transport; a socket that is closing or closed drops it. *)
Definition ws_send (ws : WebSocket) (payload : string) : M unit := fun s =>
  match connections s !! ws with
  | Some c =>
      match send_fault c with
      | Some e => (Throw e, s, [])
      | None => if bool_decide (readyState c = OPEN)
                then (Ok tt, s, [Sent ws payload])
                else (Ok tt, s, [])
      end
  | None => (Ok tt, s, [])
  end.

Definition set_readyState (r : ready_state) (c : connection) : connection :=
  mkConnection r (send_fault c) (client c).
Definition set_send_fault (f : option error) (c : connection) : connection :=
  mkConnection (readyState c) f (client c).
Definition set_client (cl : option WebSocketClient) (c : connection) : connection :=
  mkConnection (readyState c) (send_fault c) cl.

Definition update_connection (ws : WebSocket) (f : connection -> connection)
    (s : server) : server :=
  mkServer (wsClients s) (alter f ws (connections s)) (next_ref s).

(** [ws.close()]: starts the closing handshake of an open socket. *)
Definition ws_close (ws : WebSocket) : M unit := fun s =>
  if is_open s ws
  then (Ok tt, update_connection ws (set_readyState CLOSING) s, [CloseCalled ws])
  else (Ok tt, s, []).

(** [wsClients.add(client)] *)
Definition Set_add (c : WebSocketClient) (l : list WebSocketClient) : list WebSocketClient :=
  if existsb (fun c' => Nat.eqb (client_ref c') (client_ref c)) l then l else l ++ [c].

(** [wsClients.delete(client)] *)
Definition Set_delete (c : WebSocketClient) (l : list WebSocketClient) : list WebSocketClient :=
  filter (fun c' => client_ref c' ≠ client_ref c) l.

Definition wsClients_add (c : WebSocketClient) : M unit := fun s =>
  (Ok tt, mkServer (Set_add c (wsClients s)) (connections s) (next_ref s), []).

Definition wsClients_delete (c : WebSocketClient) : M unit := fun s =>
  (Ok tt, mkServer (Set_delete c (wsClients s)) (connections s) (next_ref s), []).

(** The object literal [{ socket: ws, workspaceId }]: a new object. *)
Definition new_client (ws : WebSocket) (workspaceId : json) : M WebSocketClient := fun s =>
  (Ok (mkClient (next_ref s) ws workspaceId),
   mkServer (wsClients s) (connections s) (S (next_ref s)), []).

(** Assignment to, and read of, the variable [client] of connection [ws]. *)
Definition assign_client (ws : WebSocket) (c : WebSocketClient) : M unit := fun s =>
  (Ok tt, update_connection ws (set_client (Some c)) s, []).

Definition read_client (ws : WebSocket) : M (option WebSocketClient) := fun s =>
  (Ok (connections s !! ws ≫= client), s, []).

(** [set.forEach(f)]: in insertion order; an exception leaves the loop. *)
Fixpoint forEach {A} (l : list A) (f : A -> M unit) : M unit :=
  match l with
  | [] => mret tt
  | x :: rest => f x ≫= fun _ => forEach rest f
  end.

(** ** The handlers of the route module *)

Inductive event : Type :=
  (** [wss.on("connection")]: a new socket is accepted *)
  | EConnection
  (** [ws.on("message")], with [data.toString()] and [Date.now()] *)
  | EMessage (ws : WebSocket) (data : string) (now : Z)
  (** [ws.on("close")] *)
  | EClose (ws : WebSocket)
  (** [ws.on("error")] *)
  | EError (ws : WebSocket) (e : error)
  (** the transport of [ws] degrades: from now on [ws.send] raises [e] *)
  | ESendFault (ws : WebSocket) (e : error)
  (** [POST /api/telemetry/ingest] past [validateApiKey], with the outcome
      of [insertTelemetryLogSchema.parse] and [storage.createTelemetryLog] *)
  | EIngest (stored : result TelemetryLog.t).

Section Gateway.
Context `{Platform}.

Definition connected_message : json :=
  JObj [("type", JStr "connected");
        ("message", JStr "WebSocket connected. Send subscribe message with valid token.")].

Definition error_message_json : json :=
  JObj [("type", JStr "error"); ("message", JStr "Invalid or expired token")].

Definition subscribed_message (workspaceId : json) : json :=
  JObj [("type", JStr "subscribed");
        ("workspaceId", workspaceId);
        ("message", JStr "Subscribed to workspace logs")].

Definition new_log_message (log : TelemetryLog.t) : json :=
  JObj [("type", JStr "new_log"); ("data", TelemetryLog.toJSON log)].

(** The body of [wss.on("connection")] after the handlers are installed. *)
Definition on_connection (ws : WebSocket) : M unit :=
  ws_send ws (JSON_stringify connected_message).

(** The body of the [if (message.type === "subscribe" && message.token)]. *)
Definition subscribe (ws : WebSocket) (token : jsval) (now : Z) : M unit :=
  validation ← lift (Token.validateSocketToken token now);
  if negb (Token.valid validation) || negb (truthy (Token.workspaceId validation))
  then
    _ ← ws_send ws (JSON_stringify error_message_json);
    ws_close ws
  else
    match Token.workspaceId validation with
    | Some workspaceId =>
        c ← new_client ws workspaceId;
        _ ← assign_client ws c;
        _ ← wsClients_add c;
        ws_send ws (JSON_stringify (subscribed_message workspaceId))
    | None => mret tt
    end.

(** [ws.on("message", async (data) => { try { ... } catch { ... } })] *)
Definition on_message (ws : WebSocket) (data : string) (now : Z) : M unit :=
  try_catch_M
    (message ← lift (parse data);
     type ← lift (get_prop message "type");
     if strict_eq_string type "subscribe"
     then
       token ← lift (get_prop message "token");
       if truthy token then subscribe ws token now else mret tt
     else mret tt)
    (fun error => emit (ConsoleError error)).

(** [if (client) { wsClients.delete(client); }] *)
Definition delete_client (ws : WebSocket) : M unit :=
  c ← read_client ws;
  match c with
  | Some cl => wsClients_delete cl
  | None => mret tt
  end.

(** [ws.on("close")] *)
Definition on_close (ws : WebSocket) : M unit := delete_client ws.

(** [ws.on("error")] *)
Definition on_error (ws : WebSocket) (e : error) : M unit :=
  _ ← emit (ConsoleError e);
  delete_client ws.

(** The callback of [wsClients.forEach] in the ingestion route. *)
Definition deliver (log : TelemetryLog.t) (message : string) (c : WebSocketClient) : M unit :=
  s ← get_server;
  if strict_eq_string (Some (workspaceId c)) (TelemetryLog.workspaceId log)
     && is_open s (socket c)
  then ws_send (socket c) message
  else mret tt.

(** [app.post("/api/telemetry/ingest", validateApiKey, ...)] *)
Definition on_ingest (stored : result TelemetryLog.t) : M unit :=
  try_catch_M
    (log ← lift stored;
     let message := JSON_stringify (new_log_message log) in
     s ← get_server;
     _ ← forEach (wsClients s) (deliver log message);
     emit (Response 201 (TelemetryLog.toJSON log)))
    (fun error => emit (Response 400 (JObj [("error", JStr (error_message error))]))).

(** ** The event loop *)

(** A socket on which the ws library still emits events. *)
Definition alive (s : server) (ws : WebSocket) : bool :=
  match connections s !! ws with
  | Some c => negb (bool_decide (readyState c = CLOSED))
  | None => false
  end.

(** Accepting a connection creates the socket, open, and its [client]
    variable, [null]. *)
Definition accept (s : server) : WebSocket * server :=
  (length (connections s),
   mkServer (wsClients s) (connections s ++ [mkConnection OPEN None None]) (next_ref s)).

Definition run_handler (h : M unit) (s : server) : server * list output :=
  let '(_, s', o) := h s in (s', o).

(** One event, run to completion.  The ws library moves the socket to
    CLOSED before it emits [close], and to CLOSING before it emits [error]
    on an open socket. *)
Definition step (e : event) (s : server) : server * list output :=
  match e with
  | EConnection =>
      let '(ws, s') := accept s in run_handler (on_connection ws) s'
  | EMessage ws data now =>
      if alive s ws then run_handler (on_message ws data now) s else (s, [])
  | EClose ws =>
      if alive s ws
      then run_handler (on_close ws) (update_connection ws (set_readyState CLOSED) s)
      else (s, [])
  | EError ws e =>
      if alive s ws
      then run_handler (on_error ws e)
             (update_connection ws (set_readyState CLOSING) s)
      else (s, [])
  | ESendFault ws e => (update_connection ws (set_send_fault (Some e)) s, [])
  | EIngest stored => run_handler (on_ingest stored) s
  end.

(** The state after a sequence of events. *)
Fixpoint exec (evs : list event) (s : server) : server :=
  match evs with
  | [] => s
  | e :: rest => exec rest (step e s).1
  end.

(** The events of a run, each with what its handler did. *)
Fixpoint transcript (evs : list event) (s : server) : list (event * list output) :=
  match evs with
  | [] => []
  | e :: rest => (e, (step e s).2) :: transcript rest (step e s).1
  end.

End Gateway.

(** ** What the handlers rely on from the runtime *)

Fixpoint distinct (keys : list string) : bool :=
  match keys with
  | [] => true
  | k :: rest => negb (existsb (String.eqb k) rest) && distinct rest
  end.

(** A value some JavaScript object can have: no key occurs twice in an
    object. *)
Fixpoint well_formed (v : json) : bool :=
  match v with
  | JArr items => forallb well_formed items
  | JObj fields =>
      distinct (map fst fields) && forallb (fun kv => well_formed kv.2) fields
  | _ => true
  end.

(** The round trips of the runtime: base64 text decodes to what was encoded,
    and [JSON.parse] inverts [JSON.stringify]. *)
Class PlatformLaws (P : Platform) : Prop := {
  base64_roundtrip : forall s : string,
    buffer_from_base64 (JStr (base64_encode s)) = Ok s;
  JSON_roundtrip : forall v : json,
    well_formed v = true -> JSON_parse (JSON_stringify v) = Some v
}.

(** ** A reference runtime

    An instance of [Platform] the handlers can be evaluated on: a printer
    and a parser of JSON text for the values of [json] (integers, strings
    with escaped quotes and backslashes, no blanks), base 16 where Node
    encodes in base 64, and a keyed checksum in the place of HMAC-SHA256. *)
Module Reference.

Definition quote : ascii := "034"%char.
Definition backslash : ascii := "092"%char.

(** *** Strings *)

Fixpoint escape (s : string) : string :=
  match s with
  | EmptyString => EmptyString
  | String c rest =>
      if Ascii.eqb c quote || Ascii.eqb c backslash
      then String backslash (String c (escape rest))
      else String c (escape rest)
  end.

(** The body of a string literal, up to its closing quote, and what follows. *)
Fixpoint read_string (s : string) : option (string * string) :=
  match s with
  | EmptyString => None
  | String c rest =>
      if Ascii.eqb c quote then Some (EmptyString, rest)
      else if Ascii.eqb c backslash then
        match rest with
        | EmptyString => None
        | String c' rest' =>
            match read_string rest' with
            | Some (body, after) => Some (String c' body, after)
            | None => None
            end
        end
      else
        match read_string rest with
        | Some (body, after) => Some (String c body, after)
        | None => None
        end
  end.

Definition print_string (s : string) : string :=
  String quote (escape s +:+ String quote EmptyString).

(** *** Numbers *)

Definition digit_of (c : ascii) : option (Decimal.uint -> Decimal.uint) :=
  if Ascii.eqb c "0" then Some Decimal.D0
  else if Ascii.eqb c "1" then Some Decimal.D1
  else if Ascii.eqb c "2" then Some Decimal.D2
  else if Ascii.eqb c "3" then Some Decimal.D3
  else if Ascii.eqb c "4" then Some Decimal.D4
  else if Ascii.eqb c "5" then Some Decimal.D5
  else if Ascii.eqb c "6" then Some Decimal.D6
  else if Ascii.eqb c "7" then Some Decimal.D7
  else if Ascii.eqb c "8" then Some Decimal.D8
  else if Ascii.eqb c "9" then Some Decimal.D9
  else None.

(** The longest prefix of digits, and what follows. *)
Fixpoint read_digits (s : string) : Decimal.uint * string :=
  match s with
  | EmptyString => (Decimal.Nil, EmptyString)
  | String c rest =>
      match digit_of c with
      | Some d => let '(u, after) := read_digits rest in (d u, after)
      | None => (Decimal.Nil, s)
      end
  end.

Definition print_number (n : Z) : string :=
  DecimalString.NilZero.string_of_int (Z.to_int n).

Definition read_number (s : string) : option (Z * string) :=
  match s with
  | EmptyString => None
  | String c rest =>
      if Ascii.eqb c "-" then
        match read_digits rest with
        | (Decimal.Nil, _) => None
        | (u, after) => Some (Z.of_int (Decimal.Neg u), after)
        end
      else
        match read_digits s with
        | (Decimal.Nil, _) => None
        | (u, after) => Some (Z.of_int (Decimal.Pos u), after)
        end
  end.

(** *** Values *)

Fixpoint print (v : json) : string :=
  match v with
  | JNull => "null"
  | JBool true => "true"
  | JBool false => "false"
  | JNum n => print_number n
  | JStr s => print_string s
  | JArr items =>
      String "["
        ((fix print_items (l : list json) : string :=
            match l with
            | [] => "]"
            | x :: rest =>
                print x +:+
                match rest with
                | [] => "]"
                | _ :: _ => String "," (print_items rest)
                end
            end) items)
  | JObj fields =>
      String "{"
        ((fix print_fields (l : list (string * json)) : string :=
            match l with
            | [] => "}"
            | (k, x) :: rest =>
                print_string k +:+ String ":" (print x +:+
                match rest with
                | [] => "}"
                | _ :: _ => String "," (print_fields rest)
                end)
            end) fields)
  end.

(** The two inner loops of [print], by name. *)
Definition print_items : list json -> string :=
  fix print_items (l : list json) : string :=
    match l with
    | [] => "]"
    | x :: rest =>
        print x +:+
        match rest with
        | [] => "]"
        | _ :: _ => String "," (print_items rest)
        end
    end.

Definition print_fields : list (string * json) -> string :=
  fix print_fields (l : list (string * json)) : string :=
    match l with
    | [] => "}"
    | (k, x) :: rest =>
        print_string k +:+ String ":" (print x +:+
        match rest with
        | [] => "}"
        | _ :: _ => String "," (print_fields rest)
        end)
    end.

(** A text that does not continue a number. *)
Definition no_digit (rest : string) : Prop :=
  match rest with
  | EmptyString => True
  | String c _ => digit_of c = None
  end.

(** After a keyword's first letter: the rest of the keyword. *)
Fixpoint keyword (word s : string) (v : json) : option (json * string) :=
  match word with
  | EmptyString => Some (v, s)
  | String c word' =>
      match s with
      | String c' s' => if Ascii.eqb c c' then keyword word' s' v else None
      | EmptyString => None
      end
  end.

Fixpoint read_value (fuel : nat) (s : string) : option (json * string) :=
  match fuel with
  | O => None
  | S fuel' =>
      match s with
      | EmptyString => None
      | String c rest =>
          if Ascii.eqb c "n" then keyword "ull" rest JNull
          else if Ascii.eqb c "t" then keyword "rue" rest (JBool true)
          else if Ascii.eqb c "f" then keyword "alse" rest (JBool false)
          else if Ascii.eqb c quote then
            match read_string rest with
            | Some (body, after) => Some (JStr body, after)
            | None => None
            end
          else if Ascii.eqb c "[" then
            match rest with
            | String c' rest' =>
                if Ascii.eqb c' "]" then Some (JArr [], rest')
                else match read_items fuel' rest with
                     | Some (items, after) => Some (JArr items, after)
                     | None => None
                     end
            | EmptyString => None
            end
          else if Ascii.eqb c "{" then
            match rest with
            | String c' rest' =>
                if Ascii.eqb c' "}" then Some (JObj [], rest')
                else match read_fields fuel' rest with
                     | Some (fields, after) => Some (JObj fields, after)
                     | None => None
                     end
            | EmptyString => None
            end
          else
            match read_number s with
            | Some (n, after) => Some (JNum n, after)
            | None => None
            end
      end
  end
with read_items (fuel : nat) (s : string) : option (list json * string) :=
  match fuel with
  | O => None
  | S fuel' =>
      match read_value fuel' s with
      | Some (x, String c after) =>
          if Ascii.eqb c "," then
            match read_items fuel' after with
            | Some (items, after') => Some (x :: items, after')
            | None => None
            end
          else if Ascii.eqb c "]" then Some ([x], after)
          else None
      | _ => None
      end
  end
with read_fields (fuel : nat) (s : string) : option (list (string * json) * string) :=
  match fuel with
  | O => None
  | S fuel' =>
      match s with
      | String q rest =>
          if Ascii.eqb q quote then
            match read_string rest with
            | Some (k, String colon rest') =>
                if Ascii.eqb colon ":" then
                  match read_value fuel' rest' with
                  | Some (x, String c after) =>
                      if Ascii.eqb c "," then
                        match read_fields fuel' after with
                        | Some (fields, after') => Some ((k, x) :: fields, after')
                        | None => None
                        end
                      else if Ascii.eqb c "}" then Some ([(k, x)], after)
                      else None
                  | _ => None
                  end
                else None
            | _ => None
            end
          else None
      | EmptyString => None
      end
  end.

(** The whole text must be one value. *)
Definition parse_text (s : string) : option json :=
  match read_value (2 * String.length s + 1) s with
  | Some (v, EmptyString) => Some v
  | _ => None
  end.

(** Reading back what [print] wrote, with anything after it that does not
    continue a number, given fuel for twice the length of the text. *)
Definition reads_back (v : json) : Prop :=
  forall (rest : string) (fuel : nat),
    no_digit rest ->
    (2 * String.length (print v +:+ rest) < fuel)%nat ->
    read_value fuel (print v +:+ rest) = Some (v, rest).

(** *** Base 16 *)

Definition hex_of (b0 b1 b2 b3 : bool) : ascii :=
  match b3, b2, b1, b0 with
  | false, false, false, false => "0"
  | false, false, false, true => "1"
  | false, false, true, false => "2"
  | false, false, true, true => "3"
  | false, true, false, false => "4"
  | false, true, false, true => "5"
  | false, true, true, false => "6"
  | false, true, true, true => "7"
  | true, false, false, false => "8"
  | true, false, false, true => "9"
  | true, false, true, false => "a"
  | true, false, true, true => "b"
  | true, true, false, false => "c"
  | true, true, false, true => "d"
  | true, true, true, false => "e"
  | true, true, true, true => "f"
  end%char.

Definition of_hex (c : ascii) : option (bool * bool * bool * bool) :=
  if Ascii.eqb c "0" then Some (false, false, false, false)
  else if Ascii.eqb c "1" then Some (true, false, false, false)
  else if Ascii.eqb c "2" then Some (false, true, false, false)
  else if Ascii.eqb c "3" then Some (true, true, false, false)
  else if Ascii.eqb c "4" then Some (false, false, true, false)
  else if Ascii.eqb c "5" then Some (true, false, true, false)
  else if Ascii.eqb c "6" then Some (false, true, true, false)
  else if Ascii.eqb c "7" then Some (true, true, true, false)
  else if Ascii.eqb c "8" then Some (false, false, false, true)
  else if Ascii.eqb c "9" then Some (true, false, false, true)
  else if Ascii.eqb c "a" then Some (false, true, false, true)
  else if Ascii.eqb c "b" then Some (true, true, false, true)
  else if Ascii.eqb c "c" then Some (false, false, true, true)
  else if Ascii.eqb c "d" then Some (true, false, true, true)
  else if Ascii.eqb c "e" then Some (false, true, true, true)
  else if Ascii.eqb c "f" then Some (true, true, true, true)
  else None.

Fixpoint encode16 (s : string) : string :=
  match s with
  | EmptyString => EmptyString
  | String (Ascii b0 b1 b2 b3 b4 b5 b6 b7) rest =>
      String (hex_of b4 b5 b6 b7) (String (hex_of b0 b1 b2 b3) (encode16 rest))
  end.

(** Decoding stops at the first character that is not a digit, as the
    decoder of [Buffer.from] does; it never fails on a string. *)
Fixpoint decode16 (s : string) : string :=
  match s with
  | String h (String l rest) =>
      match of_hex h, of_hex l with
      | Some (b4, b5, b6, b7), Some (b0, b1, b2, b3) =>
          String (Ascii b0 b1 b2 b3 b4 b5 b6 b7) (decode16 rest)
      | _, _ => EmptyString
      end
  | _ => EmptyString
  end.

(** *** Keyed checksum *)

Fixpoint checksum (s : string) (acc : N) : N :=
  match s with
  | EmptyString => acc
  | String c rest => checksum rest ((acc * 31 + N_of_ascii c) mod 4294967296)%N
  end.

Definition keyed_checksum (key data : string) : string :=
  print_number (Z.of_N (checksum (key +:+ String ":" data) 7)).

#[global] Instance runtime : Platform := {|
  SESSION_SECRET := None;
  hmac_sha256_hex := keyed_checksum;
  base64_encode := encode16;
  buffer_from_base64 := fun token =>
    match token with
    | JStr s => Ok (decode16 s)
    | _ => Throw (TypeError "The first argument must be of type string")
    end;
  JSON_stringify := print;
  JSON_parse := parse_text;
  ToNumber_coerced := fun v =>
    match v with
    | JStr EmptyString => Some 0
    | JStr s => match read_number s with
                | Some (n, EmptyString) => Some n
                | _ => None
                end
    | JArr [] => Some 0
    | _ => None
    end
|}.

End Reference.

(** ** A scenario

    Tenant W1 has two authenticated connections (sockets 0 and 1), tenant W2
    has one (socket 2); records are ingested for W1.  Everything is
    evaluated on the reference runtime. *)
Module Scenario.

(** What a browser sends after it opened the socket. *)
Definition subscribe_text (token : json) : string :=
  Reference.print (JObj [("type", JStr "subscribe"); ("token", token)]).

(** A token issued at time 0. *)
Definition token_for (workspace : string) : json :=
  JStr (Token.generateSocketToken workspace 0).

Definition three_clients : list event :=
  [EConnection; EConnection; EConnection;
   EMessage 0 (subscribe_text (token_for "W1")) 1000;
   EMessage 1 (subscribe_text (token_for "W1")) 1000;
   EMessage 2 (subscribe_text (token_for "W2")) 1000].

Definition record (id workspace : string) : TelemetryLog.t :=
  TelemetryLog.mk id workspace None "production" "gpt-4" "ping" "pong"
    120 3 5 8 "0.000240" "success" None "2025-01-01T00:00:00.000Z".

Definition r1 : TelemetryLog.t := record "r1" "W1".

Definition broken_pipe : error := mkError "Error" "write EPIPE".

End Scenario.

(** ** Vocabulary of the properties *)

Section Vocabulary.
Context {P : Platform}.

(** The condition of the [if] in the fan-out: the client is registered for
    the workspace of the record and its socket is open. *)
Definition recipient (s : server) (log : TelemetryLog.t) (c : WebSocketClient) : bool :=
  strict_eq_string (Some (workspaceId c)) (TelemetryLog.workspaceId log)
  && is_open s (socket c).

(** The registry entries the fan-out of [log] addresses, in order. *)
Definition recipients (s : server) (log : TelemetryLog.t) : list WebSocketClient :=
  filter (fun c => recipient s log c = true) (wsClients s).

(** The error [ws.send] raises on a socket, if any. *)
Definition send_fault_of (s : server) (ws : WebSocket) : option error :=
  connections s !! ws ≫= send_fault.

(** The frame the fan-out hands to the socket of a client. *)
Definition frame (message : string) (c : WebSocketClient) : output :=
  Sent (socket c) message.

(** The entries served before the first one whose send raises. *)
Fixpoint served (s : server) (l : list WebSocketClient) : list WebSocketClient :=
  match l with
  | [] => []
  | c :: rest =>
      match send_fault_of s (socket c) with
      | Some _ => []
      | None => c :: served s rest
      end
  end.

(** The error of the first entry whose send raises. *)
Fixpoint first_fault (s : server) (l : list WebSocketClient) : option error :=
  match l with
  | [] => None
  | c :: rest =>
      match send_fault_of s (socket c) with
      | Some e => Some e
      | None => first_fault s rest
      end
  end.

(** A client message that asks to subscribe: parsed JSON whose [type] is
    the string subscribe. *)
Definition subscribe_request (data : string) (token : jsval) : Prop :=
  exists message : json,
    JSON_parse data = Some message /\
    get_prop message "type" = Ok (Some (JStr "subscribe")) /\
    get_prop message "token" = Ok token.

(** The guard of the handler on the outcome of validation:
    [!validation.valid || !validation.workspaceId]. *)
Definition refused (token : jsval) (now : Z) : Prop :=
  exists r, Token.validateSocketToken token now = Ok r /\
            (Token.valid r = false \/ truthy (Token.workspaceId r) = false).

(** The handshake that justifies a registry entry: a subscribe message on
    the entry's socket whose token validated to the entry's workspace. *)
Definition handshake (evs : list event) (c : WebSocketClient) : Prop :=
  exists (data : string) (now : Z) (token : jsval),
    In (EMessage (socket c) data now) evs /\
    subscribe_request data token /\
    truthy token = true /\
    Token.validateSocketToken token now
      = Ok (Token.mkValidation true (Some (workspaceId c))).

(** The rejection branch of the handler. *)
Definition reject_run (ws : WebSocket) (s : server) : result unit * server * list output :=
  match send_fault_of s ws with
  | Some e => (Throw e, s, [])
  | None =>
      if is_open s ws
      then (Ok tt, update_connection ws (set_readyState CLOSING) s,
            [Sent ws (JSON_stringify error_message_json); CloseCalled ws])
      else (Ok tt, s, [])
  end.

(** The registration branch of the handler. *)
Definition register_run (ws : WebSocket) (w : json) (s : server)
  : result unit * server * list output :=
  let c := mkClient (next_ref s) ws w in
  let s' := mkServer (Set_add c (wsClients s))
                     (alter (set_client (Some c)) ws (connections s))
                     (S (next_ref s)) in
  match send_fault_of s ws with
  | Some e => (Throw e, s', [])
  | None => (Ok tt, s',
             if is_open s ws then [Sent ws (JSON_stringify (subscribed_message w))] else [])
  end.

(** The [catch] of the message handler applied to an outcome. *)
Definition caught (x : result unit * server * list output)
  : result unit * server * list output :=
  match x with
  | (Ok a, s, o) => (Ok a, s, o)
  | (Throw e, s, o) => (Ok tt, s, o ++ [ConsoleError e])
  end.

(** Object identities handed out so far are below [next_ref]. *)
Definition fresh_refs (s : server) : Prop :=
  forall c, In c (wsClients s) -> (client_ref c < next_ref s)%nat.

End Vocabulary.

(** * The routes and the browser agent around the gateway

    The HTTP routes of [registerRoutes] that hand out and consume what the
    gateway works with (API keys, socket tokens, telemetry records), and
    the browser hook [useWebSocketLogs] on the other end of the socket. *)

(** ** More of JavaScript *)

(** [String(n)] for an integer [n] (below 10^21 in absolute value). *)
Definition Number_toString (n : Z) : string :=
  DecimalString.NilZero.string_of_int (Z.to_int n).

(** Property read [v.k] where [v] may be [undefined]. *)
Definition get_prop_of (v : jsval) (k : string) : result jsval :=
  match v with
  | Some j => get_prop j k
  | None => Throw (TypeError "Cannot read properties of undefined")
  end.

(** [a || b]: [b] is evaluated only when [a] is falsy. *)
Definition or_else (a : jsval) (b : result jsval) : result jsval :=
  if truthy a then Ok a else b.

(** The own enumerable properties an object spread [{ ...v }] copies:
    the fields of an object, the indices of an array or of a string,
    nothing for the other values. *)
Definition own_properties (v : json) : list (string * json) :=
  match v with
  | JObj fields => fields
  | JArr items => imap (fun i x => (Number_toString (Z.of_nat i), x)) items
  | JStr s =>
      imap (fun i c => (Number_toString (Z.of_nat i), JStr (String c EmptyString)))
           (String.list_ascii_of_string s)
  | _ => []
  end.

(** [{ ...fields, k: v }]: an existing key keeps its place and takes the
    new value, a new key comes last. *)
Definition set_prop (k : string) (v : json) (fields : list (string * json))
  : list (string * json) :=
  if existsb (fun kv => String.eqb k kv.1) fields
  then map (fun kv => if String.eqb k kv.1 then (kv.1, v) else kv) fields
  else fields ++ [(k, v)].

(** ** The rows of the storage layer (shared/schema.ts) *)

Module ApiKey.
Record t : Type := mk {
  id : string;
  workspaceId : string;
  name : string;
  key : string;
  lastUsedAt : option string;
  createdAt : string
}.
End ApiKey.

Module Workspace.
Record t : Type := mk {
  id : string;
  name : string;
  slug : string;
  ownerId : string;
  stripeCustomerId : option string;
  stripeSubscriptionId : option string;
  subscriptionStatus : option string;
  trialEndsAt : option string;
  createdAt : string
}.
End Workspace.

Module WorkspaceMember.
Record t : Type := mk {
  id : string;
  workspaceId : string;
  userId : string;
  role : string;
  createdAt : string
}.
End WorkspaceMember.

Module Project.
Record t : Type := mk {
  id : string;
  workspaceId : string;
  name : string;
  description : option string;
  createdAt : string
}.
End Project.

(** The [filters] object of the telemetry routes; a date filter is kept as
    the query value [new Date] is applied to. *)
Record filters : Type := mkFilters {
  filter_projectId : option json;
  filter_environment : option json;
  filter_startDate : option json;
  filter_endDate : option json
}.

(** ** The collaborators of the routes

    The calls the routes make on [storage] (the interface [IStorage] of
    server/storage.ts) and on the insert schema of telemetry records, with
    the answers they give during a request; a rejected promise and a
    [ZodError] are a [Throw]. *)
Class Backend : Type := {
  getApiKeyByKey : string -> result (option ApiKey.t);
  updateApiKeyLastUsed : string -> result unit;
  getWorkspace : string -> result (option Workspace.t);
  getWorkspaceMember : json -> string -> result (option WorkspaceMember.t);
  getProject : json -> result (option Project.t);
  getTelemetryLogs : json -> filters -> result (list TelemetryLog.t);
  insertTelemetryLogSchema_parse : json -> result json;
  createTelemetryLog : json -> result TelemetryLog.t
}.

(** ** Replies and middleware *)

(** What a route answers: [res.status(code).json(body)] ([res.json] has
    code 200), or one of the two downloads of the export route. *)
Inductive reply : Type :=
  | Json (status_code : Z) (body : json)
  | CsvFile (filename : string) (text : string)
  | JsonFile (filename : string) (body : json).

(** What a middleware did: it answered the request itself, or it called
    [next()] after attaching values to the request. *)
Inductive middleware (A : Type) : Type :=
  | Replied (status_code : Z) (body : json)
  | Next (attached : A).
Arguments Replied {A} status_code body.
Arguments Next {A} attached.

(** [{ error: message }] *)
Definition error_body (message : string) : json := JObj [("error", JStr message)].

(** [try { body } catch (error) { res.status(...).json(...) }] around a
    route. *)
Definition catch_reply (body : result reply) (handler : error -> reply) : reply :=
  match body with
  | Ok r => r
  | Throw e => handler e
  end.

(** A route behind a middleware.  A [Throw] is an exception that escapes
    the middleware: this code then neither answers nor calls [next]. *)
Definition behind {A} (m : result (middleware A)) (route : A -> reply) : result reply :=
  p ← m;
  match p with
  | Replied code body => Ok (Json code body)
  | Next a => Ok (route a)
  end.

(** [x || undefined] kept only when truthy: the value of a filter. *)
Definition when_truthy (v : jsval) : option json :=
  if truthy v then v else None.

Section Routes.
Context `{Platform} `{Backend}.

(** [validateApiKey]: the header [x-api-key] selects the workspace.  The
    function has no [try]: an exception of the storage layer escapes. *)
Definition validateApiKey (x_api_key : option string) : result (middleware string) :=
  match x_api_key with
  | None => Ok (Replied 401 (error_body "API key required"))
  | Some apiKey =>
      if String.eqb apiKey ""
      then Ok (Replied 401 (error_body "API key required"))
      else
        key ← getApiKeyByKey apiKey;
        match key with
        | None => Ok (Replied 401 (error_body "Invalid API key"))
        | Some key =>
            _ ← updateApiKeyLastUsed (ApiKey.id key);
            Ok (Next (ApiKey.workspaceId key))
        end
  end.

(** The handler of [POST /api/workspaces/:workspaceId/socket-token], with
    the workspace [validateApiKey] attached to the request. *)
Definition socket_token_route (workspaceId authenticatedWorkspaceId : string) (now : Z)
  : reply :=
  catch_reply
    (if negb (String.eqb workspaceId authenticatedWorkspaceId)
     then Ok (Json 403 (error_body "Access denied to this workspace"))
     else
       workspace ← getWorkspace workspaceId;
       match workspace with
       | None => Ok (Json 404 (error_body "Workspace not found"))
       | Some _ =>
           Ok (Json 200 (JObj [("token",
                                JStr (Token.generateSocketToken workspaceId now))]))
       end)
    (fun error => Json 500 (error_body (error_message error))).

(** [app.post("/api/workspaces/:workspaceId/socket-token", validateApiKey, ...)] *)
Definition socket_token_endpoint (x_api_key : option string) (workspaceId : string)
    (now : Z) : result reply :=
  behind (validateApiKey x_api_key)
         (fun authenticated => socket_token_route workspaceId authenticated now).

(** [{ ...req.body, workspaceId }] *)
Definition ingest_input (body : json) (workspaceId : string) : json :=
  JObj (set_prop "workspaceId" (JStr workspaceId) (own_properties body)).

(** What the [try] block of the ingestion route has stored when it reaches
    the fan-out. *)
Definition ingest_stored (body : json) (workspaceId : string) : result TelemetryLog.t :=
  data ← insertTelemetryLogSchema_parse (ingest_input body workspaceId);
  createTelemetryLog data.

(** [app.post("/api/telemetry/ingest", validateApiKey, ...)], the whole of
    it: the middleware, then the route on the request body. *)
Definition ingest_endpoint (x_api_key : option string) (body : json) : M unit :=
  p ← lift (validateApiKey x_api_key);
  match p with
  | Replied code answer => emit (Response code answer)
  | Next workspaceId => on_ingest (ingest_stored body workspaceId)
  end.

(** The request as [requireWorkspaceMembership] reads it: [req.user?.id],
    [req.params.workspaceId], [req.query.workspaceId] and [req.body]. *)
Record membership_request : Type := mkMembershipRequest {
  req_userId : option string;
  req_params_workspaceId : option string;
  req_query_workspaceId : jsval;
  req_body : jsval
}.

(** [req.params.workspaceId || req.query.workspaceId || req.body.workspaceId] *)
Definition requested_workspace (req : membership_request) : result jsval :=
  or_else (JStr <$> req_params_workspaceId req)
    (or_else (req_query_workspaceId req)
       (get_prop_of (req_body req) "workspaceId")).

(** [requireWorkspaceMembership]: attaches [req.workspaceMember] and
    [req.workspaceId]. *)
Definition requireWorkspaceMembership (req : membership_request)
  : middleware (WorkspaceMember.t * json) :=
  match
    match req_userId req with
    | None => Ok (Replied 401 (error_body "Unauthorized"))
    | Some userId =>
        if String.eqb userId ""
        then Ok (Replied 401 (error_body "Unauthorized"))
        else
          workspaceId ← requested_workspace req;
          match when_truthy workspaceId with
          | None => Ok (Replied 400 (error_body "Workspace ID required"))
          | Some workspaceId =>
              member ← getWorkspaceMember workspaceId userId;
              match member with
              | None => Ok (Replied 403 (error_body "Access denied to this workspace"))
              | Some member => Ok (Next (member, workspaceId))
              end
          end
    end
  with
  | Ok p => p
  | Throw error => Replied 500 (error_body (error_message error))
  end.

(** The query of the telemetry routes. *)
Record telemetry_query : Type := mkTelemetryQuery {
  query_format : jsval;
  query_projectId : jsval;
  query_environment : jsval;
  query_startDate : jsval;
  query_endDate : jsval
}.

(** [project.workspaceId !== workspaceId] negated: the project is of the
    verified workspace. *)
Definition project_in_workspace (project : Project.t) (workspaceId : json) : bool :=
  strict_eq_string (Some workspaceId) (Project.workspaceId project).

(** The part the two telemetry routes share: the check of the project
    filter, the filters, the query of the logs. *)
Definition telemetry_logs (workspaceId : json) (q : telemetry_query)
  : result (reply + list TelemetryLog.t) :=
  let forbidden := inl (Json 403 (error_body "Project does not belong to this workspace")) in
  let query :=
    logs ← getTelemetryLogs workspaceId
              (mkFilters (when_truthy (query_projectId q))
                         (when_truthy (query_environment q))
                         (when_truthy (query_startDate q))
                         (when_truthy (query_endDate q)));
    Ok (inr logs) in
  match when_truthy (query_projectId q) with
  | Some projectId =>
      project ← getProject projectId;
      match project with
      | None => Ok forbidden
      | Some project =>
          if project_in_workspace project workspaceId then query else Ok forbidden
      end
  | None => query
  end.

(** [res.json(logs)] *)
Definition logs_json (logs : list TelemetryLog.t) : json :=
  JArr (map TelemetryLog.toJSON logs).

(** The handler of [GET /api/telemetry]. *)
Definition telemetry_route (workspaceId : json) (q : telemetry_query) : reply :=
  catch_reply
    (r ← telemetry_logs workspaceId q;
     match r with
     | inl refusal => Ok refusal
     | inr logs => Ok (Json 200 (logs_json logs))
     end)
    (fun error => Json 500 (error_body (error_message error))).

End Routes.

(** ** The CSV export *)

Module Csv.

Definition CR : ascii := "013"%char.
Definition LF : ascii := "010"%char.
Definition quote : ascii := "034"%char.
Definition comma : ascii := ","%char.

(** [str.replace(/\r\n/g, '\n')] *)
Fixpoint crlf_to_lf (s : string) : string :=
  match s with
  | EmptyString => EmptyString
  | String c rest =>
      match rest with
      | String c' rest' =>
          if Ascii.eqb c CR && Ascii.eqb c' LF
          then String LF (crlf_to_lf rest')
          else String c (crlf_to_lf rest)
      | EmptyString => String c EmptyString
      end
  end.

(** [str.replace(/\r/g, '\n')] *)
Fixpoint cr_to_lf (s : string) : string :=
  match s with
  | EmptyString => EmptyString
  | String c rest => String (if Ascii.eqb c CR then LF else c) (cr_to_lf rest)
  end.

(** [str.replace(/\n/g, '\r\n')] *)
Fixpoint lf_to_crlf (s : string) : string :=
  match s with
  | EmptyString => EmptyString
  | String c rest =>
      if Ascii.eqb c LF
      then String CR (String LF (lf_to_crlf rest))
      else String c (lf_to_crlf rest)
  end.

(** The last replacement: every quote character is doubled. *)
Fixpoint double_quotes (s : string) : string :=
  match s with
  | EmptyString => EmptyString
  | String c rest =>
      if Ascii.eqb c quote
      then String quote (String quote (double_quotes rest))
      else String c (double_quotes rest)
  end.

(** The three replacements of line endings, in the order of the source. *)
Definition normalize (s : string) : string :=
  lf_to_crlf (cr_to_lf (crlf_to_lf s)).

(** The values the export hands to [escapeCSVField]: [null] or
    [undefined], a string, a number, or a [Date] (the [timestamp] column,
    kept as in [TelemetryLog.t]). *)
Inductive field : Type :=
  | Nothing
  | Text (s : string)
  | Number (n : Z)
  | Date (iso : string).

Section CsvText.
(** [String(date)] for the [Date] of an ISO time stamp: the local time in
    the format and the time zone of the host. *)
Variable Date_toString : string -> string.

(** [String(field)] *)
Definition to_String (f : field) : string :=
  match f with
  | Nothing => "null"
  | Text s => s
  | Number n => Number_toString n
  | Date iso => Date_toString iso
  end.

(** [escapeCSVField] *)
Definition escapeCSVField (f : field) : string :=
  match f with
  | Nothing => String quote (String quote EmptyString)
  | _ =>
      String quote
        (double_quotes (normalize (to_String f)) +:+ String quote EmptyString)
  end.

Definition headers : list string :=
  ["ID"; "Timestamp"; "Project ID"; "Environment"; "Model"; "Prompt";
   "Response"; "Tokens"; "Cost"; "Latency"].

(** The array [row] of a log before escaping.  On a string, [x || ...]
    with the empty string is the string itself and [null] becomes the
    empty string; [n || 0] on a number is the number; [log.cost || 0] is 0
    for an empty cost. *)
Definition row (log : TelemetryLog.t) : list field :=
  [Text (TelemetryLog.id log);
   Date (TelemetryLog.timestamp log);
   Text (default EmptyString (TelemetryLog.projectId log));
   Text (TelemetryLog.environment log);
   Text (TelemetryLog.model log);
   Text (TelemetryLog.prompt log);
   Text (TelemetryLog.response log);
   Number (TelemetryLog.totalTokens log);
   (if String.eqb (TelemetryLog.cost log) EmptyString
    then Number 0 else Text (TelemetryLog.cost log));
   Number (TelemetryLog.latencyMs log)].

(** [csvRows] *)
Definition csvRows (logs : list TelemetryLog.t) : list string :=
  String.concat ","
    (map (fun h => String quote (h +:+ String quote EmptyString)) headers)
  :: map (fun log => String.concat "," (map escapeCSVField (row log))) logs.

Definition CRLF : string := String CR (String LF EmptyString).

(** [csvRows.join("\r\n") + "\r\n"] *)
Definition export (logs : list TelemetryLog.t) : string :=
  String.concat CRLF (csvRows logs) +:+ CRLF.

End CsvText.
End Csv.

Section ExportRoute.
Context `{Platform} `{Backend}.
Variable Date_toString : string -> string.

(** The handler of [GET /api/telemetry/export], called when [Date.now()]
    is [now]. *)
Definition export_route (workspaceId : json) (q : telemetry_query) (now : Z) : reply :=
  catch_reply
    (r ← telemetry_logs workspaceId q;
     match r with
     | inl refusal => Ok refusal
     | inr logs =>
         if strict_eq_string (query_format q) "csv"
         then Ok (CsvFile ("telemetry-logs-" +:+ Number_toString now +:+ ".csv")
                          (Csv.export Date_toString logs))
         else Ok (JsonFile ("telemetry-logs-" +:+ Number_toString now +:+ ".json")
                           (logs_json logs))
     end)
    (fun error => Json 500 (error_body (error_message error))).

(** [app.get("/api/telemetry/export", isAuthenticated,
    requireWorkspaceMembership, ...)], past [isAuthenticated]. *)
Definition export_endpoint (req : membership_request) (q : telemetry_query) (now : Z)
  : reply :=
  match requireWorkspaceMembership req with
  | Replied code body => Json code body
  | Next (_, workspaceId) => export_route workspaceId q now
  end.

(** [app.get("/api/telemetry", isAuthenticated, requireWorkspaceMembership,
    ...)], past [isAuthenticated]. *)
Definition telemetry_endpoint (req : membership_request) (q : telemetry_query) : reply :=
  match requireWorkspaceMembership req with
  | Replied code body => Json code body
  | Next (_, workspaceId) => telemetry_route workspaceId q
  end.

End ExportRoute.

(** ** The first workspace of a new user

    The loop of [POST /api/auth/register] that creates the workspace under
    a random slug and tries again when the slug is taken. *)

(** One call of [storage.createWorkspace]: the row, or the error of the
    database driver with its [code]. *)
Inductive insertion : Type :=
  | Inserted (w : Workspace.t)
  | Failed (code : option string) (e : error).

Definition maxAttempts : nat := 5.

(** The error the loop throws in the place of the last failure. *)
Definition unable_to_create : error :=
  mkError "Error"
    "Unable to create workspace. Please try again or contact support if this persists.".

Section Register.
(** The outcome of the calls of [storage.createWorkspace], in the order
    they are made (each under a new random slug). *)
Variable createWorkspace : nat -> insertion.

(** [error.code === '23505'] *)
Definition unique_violation (code : option string) : bool :=
  match code with
  | Some c => String.eqb c "23505"
  | None => false
  end.

(** The [while (attempts < maxAttempts)] loop, from a value of [attempts]:
    what leaves the loop (the value of [workspace], or the exception), and
    the final value of [attempts]; the call made in an iteration is the
    call number [attempts].  [None] when [fuel] iterations were not
    enough. *)
Fixpoint create_workspace_loop (fuel attempts : nat)
  : option (result (option Workspace.t) * nat) :=
  match fuel with
  | O => None
  | S fuel =>
      if (attempts <? maxAttempts)%nat
      then
        match createWorkspace attempts with
        | Inserted w => Some (Ok (Some w), attempts)
        | Failed code e =>
            if unique_violation code && (attempts <? maxAttempts - 1)%nat
            then create_workspace_loop fuel (S attempts)
            else Some (Throw unable_to_create, attempts)
        end
      else Some (Ok None, attempts)
  end.

End Register.

(** ** The browser agent ([useWebSocketLogs]) *)

Module Agent.

(** The state of one run of the effect: the closure variable [mounted],
    the React state [isConnected], and the query data the cache holds
    under the key of the workspace ([None] is [undefined]). *)
Record t : Type := mk {
  mounted : bool;
  isConnected : bool;
  cache : option (list json)
}.

Definition initial : t := mk true false None.

(** What a handler does to the socket and the console. *)
Inductive action : Type :=
  | Send (text : string)
  | Close
  | ConsoleError (e : option error).

Definition setIsConnected (b : bool) (a : t) : t := mk (mounted a) b (cache a).

(** [if (mounted) setIsConnected(b)] *)
Definition setIsConnected_if_mounted (b : bool) (a : t) : t :=
  if mounted a then setIsConnected b a else a.

(** The updater of [queryClient.setQueryData]. *)
Definition updater (newLog : json) (oldLogs : option (list json)) : list json :=
  match oldLogs with
  | None => [newLog]
  | Some old => newLog :: old
  end.

Definition setQueryData (f : option (list json) -> list json) (a : t) : t :=
  mk (mounted a) (isConnected a) (Some (f (cache a))).

(** What the network gives [fetch]: a response with its status and its
    JSON body, or a rejection. *)
Definition response : Type := (Z * json)%type.

(** [response.ok] *)
Definition ok (r : response) : bool := (200 <=? r.1)%Z && (r.1 <=? 299)%Z.

Section Agent.
Context `{Platform}.

(** [fetchSocketToken(workspaceId)]: [apiKey] is the item of
    [localStorage], [fetch] the request sent with this key. *)
Definition fetchSocketToken (apiKey : option string)
    (fetch : string -> result response) : result jsval :=
  match apiKey with
  | None =>
      Throw (mkError "Error"
               "No API key found for workspace. Please create an API key first.")
  | Some apiKey =>
      if String.eqb apiKey EmptyString
      then Throw (mkError "Error"
                    "No API key found for workspace. Please create an API key first.")
      else
        r ← fetch apiKey;
        if negb (ok r)
        then Throw (mkError "Error"
                      "Failed to fetch WebSocket token. Please check your API key.")
        else get_prop r.2 "token"
  end.

(** The text [ws.onopen] sends: [JSON.stringify] leaves out a property
    whose value is [undefined]. *)
Definition subscribe_text (token : jsval) : string :=
  JSON_stringify
    (JObj (("type", JStr "subscribe")
           :: match token with
              | Some t => [("token", t)]
              | None => []
              end)).

Definition onopen (token : jsval) (a : t) : t * list action :=
  (a, [Send (subscribe_text token)]).

(** The [try] block of [ws.onmessage]. *)
Definition onmessage_body (data : string) (a : t) : result (t * list action) :=
  message ← parse data;
  type ← get_prop message "type";
  if strict_eq_string type "subscribed"
  then Ok (setIsConnected_if_mounted true a, [])
  else if strict_eq_string type "error"
  then Ok (a, [ConsoleError None; Close])
  else if strict_eq_string type "new_log"
  then
    newLog ← get_prop message "data";
    match newLog with
    | Some v =>
        if truthy newLog then Ok (setQueryData (updater v) a, []) else Ok (a, [])
    | None => Ok (a, [])
    end
  else Ok (a, []).

(** [ws.onmessage] *)
Definition onmessage (data : string) (a : t) : t * list action :=
  match onmessage_body data a with
  | Ok x => x
  | Throw e => (a, [ConsoleError (Some e)])
  end.

(** [ws.onerror] *)
Definition onerror (a : t) : t * list action :=
  (setIsConnected_if_mounted false a, [ConsoleError None]).

(** [ws.onclose] *)
Definition onclose (a : t) : t * list action :=
  (setIsConnected_if_mounted false a, []).

(** The cleanup of the effect. *)
Definition cleanup (a : t) : t * list action :=
  (mk false false (cache a), [Close]).

(** What happens to an agent whose socket exists. *)
Inductive event : Type :=
  | Opened (token : jsval)
  | Message (data : string)
  | Errored
  | Closed
  | Unmounted.

Definition handle (e : event) (a : t) : t * list action :=
  match e with
  | Opened token => onopen token a
  | Message data => onmessage data a
  | Errored => onerror a
  | Closed => onclose a
  | Unmounted => cleanup a
  end.

(** The state after a sequence of events. *)
Definition run (evs : list event) (a : t) : t :=
  fold_left (fun a e => (handle e a).1) evs a.

End Agent.
End Agent.

(** ** What the ingestion route relies on from its collaborators

    The insert schema returns the [workspaceId] it was given, and the row
    the database returns is of the workspace of the values inserted. *)
Class BackendLaws (B : Backend) : Prop := {
  parse_keeps_workspaceId : forall input data : json,
    insertTelemetryLogSchema_parse input = Ok data ->
    get_prop data "workspaceId" = get_prop input "workspaceId";
  created_in_workspace : forall (data : json) (log : TelemetryLog.t),
    createTelemetryLog data = Ok log ->
    get_prop data "workspaceId" = Ok (Some (JStr (TelemetryLog.workspaceId log)))
}.

(** ** A backend in memory

    Two workspaces, W1 of user u1 and W2 of user u2, each with an API key
    and a project; the routes can be evaluated on it. *)
Module Memory.

Definition day : string := "2025-01-01T00:00:00.000Z".

Definition apiKeys : list ApiKey.t :=
  [ApiKey.mk "k1" "W1" "sdk" "ak_w1" None day;
   ApiKey.mk "k2" "W2" "sdk" "ak_w2" None day].

Definition workspaces : list Workspace.t :=
  [Workspace.mk "W1" "One" "one" "u1" None None (Some "trialing") None day;
   Workspace.mk "W2" "Two" "two" "u2" None None (Some "trialing") None day].

Definition members : list WorkspaceMember.t :=
  [WorkspaceMember.mk "m1" "W1" "u1" "owner" day;
   WorkspaceMember.mk "m2" "W2" "u2" "owner" day].

Definition projects : list Project.t :=
  [Project.mk "p1" "W1" "app" None day;
   Project.mk "p2" "W2" "app" None day].

Definition logs : list TelemetryLog.t :=
  [Scenario.record "r1" "W1"; Scenario.record "r2" "W2"].

Definition required (input : json) : option (string * string) :=
  match get_prop input "workspaceId", get_prop input "model" with
  | Ok (Some (JStr w)), Ok (Some (JStr m)) => Some (w, m)
  | _, _ => None
  end.

#[global] Instance backend : Backend := {|
  getApiKeyByKey := fun k =>
    Ok (List.find (fun a => String.eqb (ApiKey.key a) k) apiKeys);
  updateApiKeyLastUsed := fun _ => Ok tt;
  getWorkspace := fun id =>
    Ok (List.find (fun w => String.eqb (Workspace.id w) id) workspaces);
  getWorkspaceMember := fun w u =>
    Ok (List.find (fun m => strict_eq_string (Some w) (WorkspaceMember.workspaceId m)
                            && String.eqb (WorkspaceMember.userId m) u) members);
  getProject := fun p =>
    Ok (List.find (fun x => strict_eq_string (Some p) (Project.id x)) projects);
  getTelemetryLogs := fun w _ =>
    Ok (List.filter (fun l => strict_eq_string (Some w) (TelemetryLog.workspaceId l)) logs);
  insertTelemetryLogSchema_parse := fun input =>
    match required input with
    | Some _ => Ok input
    | None => Throw (mkError "ZodError" "Required")
    end;
  createTelemetryLog := fun data =>
    match required data with
    | Some (w, m) =>
        Ok (TelemetryLog.mk "r3" w None "production" m "ping" "pong"
              120 3 5 8 "0.000240" "success" None day)
    | None => Throw (mkError "Error" "null value violates not-null constraint")
    end
|}.

(** The host prints every date the same way. *)
Definition Date_toString (iso : string) : string :=
  "Wed Jan 01 2025 00:00:00 GMT+0000 (Coordinated Universal Time)".

End Memory.

(** ** Vocabulary of the properties of the routes *)

(** A reader of CSV text (RFC 4180): fields separated by commas, records
    ended by CRLF, a field either bare or enclosed in quotes, in which a
    quote is written twice. *)
Module CsvReader.

Inductive mode : Type := FieldStart | Bare | InQuotes | AfterQuote | AfterCR | Malformed.

Record state : Type := mk {
  rows : list (list string);
  cells : list string;
  cell : string;
  at_mode : mode
}.

Definition start : state := mk [] [] EmptyString FieldStart.

Definition snoc (s : string) (c : ascii) : string := s +:+ String c EmptyString.

Definition step (st : state) (c : ascii) : state :=
  let '(mk rows cells cell m) := st in
  match m with
  | FieldStart =>
      if Ascii.eqb c Csv.quote then mk rows cells EmptyString InQuotes
      else if Ascii.eqb c Csv.comma then mk rows (cells ++ [EmptyString]) EmptyString FieldStart
      else if Ascii.eqb c Csv.CR then mk rows cells EmptyString AfterCR
      else if Ascii.eqb c Csv.LF then mk rows cells cell Malformed
      else mk rows cells (String c EmptyString) Bare
  | Bare =>
      if Ascii.eqb c Csv.comma then mk rows (cells ++ [cell]) EmptyString FieldStart
      else if Ascii.eqb c Csv.CR then mk rows cells cell AfterCR
      else if Ascii.eqb c Csv.quote || Ascii.eqb c Csv.LF then mk rows cells cell Malformed
      else mk rows cells (snoc cell c) Bare
  | InQuotes =>
      if Ascii.eqb c Csv.quote then mk rows cells cell AfterQuote
      else mk rows cells (snoc cell c) InQuotes
  | AfterQuote =>
      if Ascii.eqb c Csv.quote then mk rows cells (snoc cell c) InQuotes
      else if Ascii.eqb c Csv.comma then mk rows (cells ++ [cell]) EmptyString FieldStart
      else if Ascii.eqb c Csv.CR then mk rows cells cell AfterCR
      else mk rows cells cell Malformed
  | AfterCR =>
      if Ascii.eqb c Csv.LF then mk (rows ++ [cells ++ [cell]]) [] EmptyString FieldStart
      else mk rows cells cell Malformed
  | Malformed => st
  end.

Fixpoint read_from (st : state) (s : string) : state :=
  match s with
  | EmptyString => st
  | String c rest => read_from (step st c) rest
  end.

(** The records of a text; the line break of the last record may be left
    out. *)
Definition read (s : string) : option (list (list string)) :=
  let '(mk rows cells cell m) := read_from start s in
  match m with
  | FieldStart =>
      match cells with
      | [] => Some rows
      | _ => Some (rows ++ [cells ++ [EmptyString]])
      end
  | Bare | AfterQuote => Some (rows ++ [cells ++ [cell]])
  | _ => None
  end.

(** The text holds complete records only: the reader ends where a record
    starts, that is, right after the CRLF of the last record. *)
Definition complete (s : string) : bool :=
  let '(mk rows cells cell m) := read_from start s in
  match m, cells with
  | FieldStart, [] => true
  | _, _ => false
  end.

End CsvReader.

(** The lines of a text: it is cut at every line break, where a CR
    followed by a LF is one break and a CR or a LF on its own is one
    too.  A text with [n] breaks has [n + 1] lines. *)
Fixpoint text_lines (s : string) : list string :=
  match s with
  | EmptyString => [EmptyString]
  | String c rest =>
      if Ascii.eqb c Csv.CR
      then match rest with
           | String c' rest' =>
               if Ascii.eqb c' Csv.LF
               then EmptyString :: text_lines rest'
               else EmptyString :: text_lines rest
           | EmptyString => [EmptyString; EmptyString]
           end
      else if Ascii.eqb c Csv.LF
      then EmptyString :: text_lines rest
      else match text_lines rest with
           | line :: lines => String c line :: lines
           | [] => [String c EmptyString]
           end
  end.

(** Text whose line breaks are all CRLF: no CR without the LF after it,
    no LF without the CR before it. *)
Fixpoint crlf_only (s : string) : bool :=
  match s with
  | EmptyString => true
  | String c rest =>
      if Ascii.eqb c Csv.CR
      then match rest with
           | String c' rest' => Ascii.eqb c' Csv.LF && crlf_only rest'
           | EmptyString => false
           end
      else negb (Ascii.eqb c Csv.LF) && crlf_only rest
  end.

(** Text without a CR. *)
Fixpoint cr_free (s : string) : bool :=
  match s with
  | EmptyString => true
  | String c rest => negb (Ascii.eqb c Csv.CR) && cr_free rest
  end.

(** Text without line breaks. *)
Fixpoint one_line (s : string) : bool :=
  match s with
  | EmptyString => true
  | String c rest =>
      negb (Ascii.eqb c Csv.CR) && negb (Ascii.eqb c Csv.LF) && one_line rest
  end.

(** What a reader finds in the cell of a field: the text of the value with
    its line breaks normalized, nothing for [null]. *)
Definition cell_of (Date_toString : string -> string) (f : Csv.field) : string :=
  match f with
  | Csv.Nothing => EmptyString
  | _ => Csv.normalize (Csv.to_String Date_toString f)
  end.

Section RouteVocabulary.
Context `{Platform} `{Backend}.

(** The holder of [apiKey] passes [validateApiKey] for the workspace: the
    key is stored for it, and marking it as used succeeds. *)
Definition key_of_workspace (apiKey workspaceId : string) : Prop :=
  apiKey <> EmptyString
  /\ exists key : ApiKey.t,
       getApiKeyByKey apiKey = Ok (Some key)
       /\ updateApiKeyLastUsed (ApiKey.id key) = Ok tt
       /\ ApiKey.workspaceId key = workspaceId.

(** The request of [fetchSocketToken] as the route answers it at time
    [now]; a request the server leaves unanswered ends as a rejection of
    [fetch]. *)
Definition fetch_from_route (workspaceId : string) (now : Z) (apiKey : string)
  : result Agent.response :=
  match socket_token_endpoint (Some apiKey) workspaceId now with
  | Ok (Json code body) => Ok (code, body)
  | _ => Throw (TypeError "Failed to fetch")
  end.

(** The filters the telemetry routes build from a query. *)
Definition filters_of (q : telemetry_query) : filters :=
  mkFilters (when_truthy (query_projectId q)) (when_truthy (query_environment q))
            (when_truthy (query_startDate q)) (when_truthy (query_endDate q)).

(** The logs a request is entitled to: its user is a member of the
    workspace it names, the project it filters by, if any, is of that
    workspace, and the storage layer answers the query with [logs]. *)
Definition entitled (req : membership_request) (q : telemetry_query)
    (logs : list TelemetryLog.t) : Prop :=
  exists (userId : string) (member : WorkspaceMember.t) (w : json),
    req_userId req = Some userId
    /\ userId <> EmptyString
    /\ requested_workspace req = Ok (Some w)
    /\ truthy (Some w) = true
    /\ getWorkspaceMember w userId = Ok (Some member)
    /\ (forall projectId, when_truthy (query_projectId q) = Some projectId ->
          exists project, getProject projectId = Ok (Some project)
                          /\ w = JStr (Project.workspaceId project))
    /\ getTelemetryLogs w (filters_of q) = Ok logs.

End RouteVocabulary.

(** The text of the frame that announces a record. *)
Definition frame_text `{Platform} (log : TelemetryLog.t) : string :=
  JSON_stringify (new_log_message log).

(** The frames a list of outputs hands to a socket. *)
Definition frames_to (ws : WebSocket) (o : list output) : list string :=
  omap (fun x => match x with
                 | Sent ws' payload => if Nat.eqb ws' ws then Some payload else None
                 | _ => None
                 end) o.

(** The registry entries of a socket for a workspace. *)
Definition entries_of (s : server) (ws : WebSocket) (workspace : string)
  : list WebSocketClient :=
  List.filter (fun c => Nat.eqb (socket c) ws
                        && strict_eq_string (Some (workspaceId c)) workspace)
              (wsClients s).

(** The query data of an agent as a list. *)
Definition cached (a : Agent.t) : list json := default [] (Agent.cache a).

(** * Properties *)

(** ** Induction on JSON values *)

Lemma json_ind (P : json -> Prop) :
  P JNull ->
  (forall b, P (JBool b)) ->
  (forall n, P (JNum n)) ->
  (forall s, P (JStr s)) ->
  (forall items, Forall P items -> P (JArr items)) ->
  (forall fields, Forall (fun kv => P kv.2) fields -> P (JObj fields)) ->
  forall v, P v.
Proof.
  intros Hnull Hbool Hnum Hstr Harr Hobj.
  fix IH 1. intros [ | b | n | s | items | fields ].
  - exact Hnull.
  - apply Hbool.
  - apply Hnum.
  - apply Hstr.
  - apply Harr. induction items as [ | v items IHitems ]; constructor.
    + apply IH.
    + exact IHitems.
  - apply Hobj. induction fields as [ | [k v] fields IHfields ]; constructor.
    + apply IH.
    + exact IHfields.
Qed.

(** ** The reference runtime satisfies the laws *)

#[local] Arguments String.append !_ _ / : simpl nomatch.

Lemma append_assoc (a b c : string) : (a +:+ b) +:+ c = a +:+ (b +:+ c).
Proof. induction a as [ | x a IH ]; simpl; [ reflexivity | ]. rewrite IH. reflexivity. Qed.

Lemma append_empty_r (a : string) : a +:+ EmptyString = a.
Proof. induction a as [ | x a IH ]; simpl; [ reflexivity | ]. rewrite IH. reflexivity. Qed.

Lemma length_append (a b : string) :
  String.length (a +:+ b) = (String.length a + String.length b)%nat.
Proof. induction a as [ | x a IH ]; simpl; [ reflexivity | ]. rewrite IH. reflexivity. Qed.

Lemma length_String (a : ascii) (s : string) :
  String.length (String a s) = S (String.length s).
Proof. reflexivity. Qed.

Lemma read_string_escape (s rest : string) :
  Reference.read_string (Reference.escape s +:+ String Reference.quote rest)
  = Some (s, rest).
Proof.
  induction s as [ | c s IH ]; [ reflexivity | ].
  simpl. destruct (Ascii.eqb c Reference.quote) eqn:Hq; simpl.
  - rewrite IH. reflexivity.
  - destruct (Ascii.eqb c Reference.backslash) eqn:Hb; simpl.
    + rewrite IH. reflexivity.
    + rewrite Hq, Hb, IH. reflexivity.
Qed.

Lemma print_string_append (s rest : string) :
  Reference.print_string s +:+ rest
  = String Reference.quote (Reference.escape s +:+ String Reference.quote rest).
Proof. unfold Reference.print_string. simpl. rewrite append_assoc. reflexivity. Qed.

Lemma read_digits_print (u : Decimal.uint) (rest : string) :
  Reference.no_digit rest ->
  Reference.read_digits (NilEmpty.string_of_uint u +:+ rest) = (u, rest).
Proof.
  intros Hrest. induction u as [ | u IH | u IH | u IH | u IH | u IH | u IH | u IH
                                 | u IH | u IH | u IH ];
    simpl; try (rewrite IH; reflexivity).
  destruct rest as [ | c rest ]; [ reflexivity | ].
  simpl in *. rewrite Hrest. reflexivity.
Qed.

(** A character a number can start with. *)
Lemma read_value_number (fuel : nat) (c : ascii) (r : string) :
  Ascii.eqb c "-" = true \/ Reference.digit_of c <> None ->
  Reference.read_value (S fuel) (String c r)
  = match Reference.read_number (String c r) with
    | Some (n, after) => Some (JNum n, after)
    | None => None
    end.
Proof.
  intros Hc.
  destruct c as [ [] [] [] [] [] [] [] [] ];
    try reflexivity; exfalso; destruct Hc as [ Hc | Hc ];
    solve [ discriminate Hc | apply Hc; reflexivity ].
Qed.

Lemma print_number_head (n : Z) :
  exists c r, Reference.print_number n = String c r
              /\ (Ascii.eqb c "-" = true \/ Reference.digit_of c <> None).
Proof.
  unfold Reference.print_number.
  destruct n as [ | p | p ]; simpl.
  - exists "0"%char, EmptyString. split; [ reflexivity | right; discriminate ].
  - pose proof (Unsigned.to_uint_nonnil p) as Hnil.
    destruct (Pos.to_uint p); try (destruct (Hnil eq_refl));
      simpl; eexists _, _; (split; [ reflexivity | right; discriminate ]).
  - eexists _, _. split; [ reflexivity | left; reflexivity ].
Qed.

Lemma read_number_unsigned (s : string) :
  s <> EmptyString ->
  (forall r, s <> String "-" r) ->
  Reference.read_number s
  = match Reference.read_digits s with
    | (Decimal.Nil, _) => None
    | (u, after) => Some (Z.of_int (Decimal.Pos u), after)
    end.
Proof.
  intros Hne Hminus. destruct s as [ | c r ]; [ destruct (Hne eq_refl) | ].
  unfold Reference.read_number.
  destruct (Ascii.eqb c "-") eqn:Hc; [ | reflexivity ].
  apply Ascii.eqb_eq in Hc. subst c. destruct (Hminus r eq_refl).
Qed.

Lemma read_number_print (n : Z) (rest : string) :
  Reference.no_digit rest ->
  Reference.read_number (Reference.print_number n +:+ rest) = Some (n, rest).
Proof.
  intros Hrest. unfold Reference.print_number.
  destruct n as [ | p | p ].
  - simpl. destruct rest as [ | c rest ]; [ reflexivity | ].
    simpl in *. rewrite Hrest. reflexivity.
  - pose proof (Unsigned.to_uint_nonnil p) as Hnil.
    pose proof (DecimalZ.of_to (Z.pos p)) as Hp. simpl in Hp.
    simpl. revert Hnil Hp.
    generalize (Pos.to_uint p) as u. intros u Hnil Hp.
    assert (NilZero.string_of_uint u = NilEmpty.string_of_uint u) as ->
      by (destruct u; [ destruct (Hnil eq_refl) | reflexivity .. ]).
    rewrite read_number_unsigned.
    + rewrite (read_digits_print u rest Hrest).
      destruct u; try (destruct (Hnil eq_refl)); rewrite <- Hp; reflexivity.
    + destruct u; try (destruct (Hnil eq_refl)); discriminate.
    + intros r. destruct u; try (destruct (Hnil eq_refl)); discriminate.
  - pose proof (Unsigned.to_uint_nonnil p) as Hnil.
    pose proof (DecimalZ.of_to (Z.neg p)) as Hp. simpl in Hp.
    simpl. revert Hnil Hp.
    generalize (Pos.to_uint p) as u. intros u Hnil Hp.
    assert (NilZero.string_of_uint u = NilEmpty.string_of_uint u) as ->
      by (destruct u; [ destruct (Hnil eq_refl) | reflexivity .. ]).
    rewrite (read_digits_print u rest Hrest).
    destruct u; try (destruct (Hnil eq_refl)); rewrite <- Hp; reflexivity.
Qed.

Lemma number_head_not_closing (c : ascii) :
  Ascii.eqb c "-" = true \/ Reference.digit_of c <> None ->
  Ascii.eqb c "]" = false /\ Ascii.eqb c "}" = false.
Proof.
  intros Hc.
  destruct c as [ [] [] [] [] [] [] [] [] ];
    try (split; reflexivity); exfalso; destruct Hc as [ Hc | Hc ];
    solve [ discriminate Hc | apply Hc; reflexivity ].
Qed.

(** No printed value starts with a closing bracket. *)
Lemma print_head (v : json) :
  exists c r, Reference.print v = String c r
              /\ Ascii.eqb c "]" = false /\ Ascii.eqb c "}" = false.
Proof.
  destruct v as [ | [] | n | s | items | fields ];
    try (eexists _, _; split; [ reflexivity | split; reflexivity ]).
  destruct (print_number_head n) as (c & r & Hpr & Hc).
  exists c, r. split; [ exact Hpr | apply number_head_not_closing; exact Hc ].
Qed.

Lemma read_value_quote (fuel : nat) (r : string) :
  Reference.read_value (S fuel) (String Reference.quote r)
  = match Reference.read_string r with
    | Some (body, after) => Some (JStr body, after)
    | None => None
    end.
Proof. reflexivity. Qed.

Lemma read_value_bracket (fuel : nat) (c : ascii) (r : string) :
  Ascii.eqb c "]" = false ->
  Reference.read_value (S fuel) (String "[" (String c r))
  = match Reference.read_items fuel (String c r) with
    | Some (items, after) => Some (JArr items, after)
    | None => None
    end.
Proof. intros Hc. simpl. rewrite Hc. reflexivity. Qed.

Lemma read_value_brace (fuel : nat) (c : ascii) (r : string) :
  Ascii.eqb c "}" = false ->
  Reference.read_value (S fuel) (String "{" (String c r))
  = match Reference.read_fields fuel (String c r) with
    | Some (fields, after) => Some (JObj fields, after)
    | None => None
    end.
Proof. intros Hc. simpl. rewrite Hc. reflexivity. Qed.

Lemma read_items_step (fuel : nat) (s : string) :
  Reference.read_items (S fuel) s
  = match Reference.read_value fuel s with
    | Some (x, String c after) =>
        if Ascii.eqb c ","
        then match Reference.read_items fuel after with
             | Some (items, after') => Some (x :: items, after')
             | None => None
             end
        else if Ascii.eqb c "]" then Some ([x], after)
        else None
    | _ => None
    end.
Proof. reflexivity. Qed.

Lemma read_fields_step (fuel : nat) (r : string) :
  Reference.read_fields (S fuel) (String Reference.quote r)
  = match Reference.read_string r with
    | Some (k, String colon rest') =>
        if Ascii.eqb colon ":"
        then match Reference.read_value fuel rest' with
             | Some (x, String c after) =>
                 if Ascii.eqb c ","
                 then match Reference.read_fields fuel after with
                      | Some (fields, after') => Some ((k, x) :: fields, after')
                      | None => None
                      end
                 else if Ascii.eqb c "}" then Some ([(k, x)], after)
                 else None
             | _ => None
             end
        else None
    | _ => None
    end.
Proof. reflexivity. Qed.

Lemma read_items_print (items : list json) :
  Forall Reference.reads_back items ->
  items <> [] ->
  forall (rest : string) (fuel : nat),
    (2 * String.length (Reference.print_items items +:+ rest) + 1 < fuel)%nat ->
    Reference.read_items fuel (Reference.print_items items +:+ rest)
    = Some (items, rest).
Proof.
  induction 1 as [ | x items Hx Hitems IH ]; intros Hne rest fuel Hfuel;
    [ destruct (Hne eq_refl) | ].
  destruct fuel as [ | fuel ]; [ lia | ].
  destruct (print_head x) as (c & r & Hhead & _).
  assert (1 <= String.length (Reference.print x))%nat as Hlen
    by (rewrite Hhead; simpl; lia).
  rewrite read_items_step.
  destruct items as [ | y items ].
  - change (Reference.print_items [x]) with (Reference.print x +:+ "]") in *.
    rewrite append_assoc in *.
    rewrite Hx; [ reflexivity | reflexivity | lia ].
  - change (Reference.print_items (x :: y :: items))
      with (Reference.print x +:+ String "," (Reference.print_items (y :: items))) in *.
    rewrite append_assoc in *. simpl String.append in *.
    rewrite Hx; [ | reflexivity | lia ].
    simpl. rewrite IH; [ reflexivity | discriminate | ].
    rewrite length_append in Hfuel. simpl in Hfuel. lia.
Qed.

Lemma read_fields_print (fields : list (string * json)) :
  Forall (fun kv => Reference.reads_back kv.2) fields ->
  fields <> [] ->
  forall (rest : string) (fuel : nat),
    (2 * String.length (Reference.print_fields fields +:+ rest) + 1 < fuel)%nat ->
    Reference.read_fields fuel (Reference.print_fields fields +:+ rest)
    = Some (fields, rest).
Proof.
  induction 1 as [ | [k x] fields Hx Hfields IH ]; intros Hne rest fuel Hfuel;
    [ destruct (Hne eq_refl) | ].
  simpl in Hx.
  destruct fuel as [ | fuel ]; [ lia | ].
  destruct (print_head x) as (c & r & Hhead & _).
  assert (1 <= String.length (Reference.print x))%nat as Hlen
    by (rewrite Hhead; simpl; lia).
  destruct fields as [ | y fields ].
  - change (Reference.print_fields [(k, x)])
      with (Reference.print_string k +:+ String ":" (Reference.print x +:+ "}")) in *.
    rewrite append_assoc in *. rewrite print_string_append in *.
    rewrite read_fields_step, read_string_escape.
    simpl String.append in *. rewrite append_assoc in *.
    simpl String.append in *.
    simpl in Hfuel. rewrite length_append in Hfuel. simpl in Hfuel.
    rewrite Ascii.eqb_refl.
    rewrite Hx; [ reflexivity | reflexivity | lia ].
  - change (Reference.print_fields ((k, x) :: y :: fields))
      with (Reference.print_string k +:+
            String ":" (Reference.print x +:+
                        String "," (Reference.print_fields (y :: fields)))) in *.
    rewrite append_assoc in *. rewrite print_string_append in *.
    rewrite read_fields_step, read_string_escape.
    simpl String.append in *. rewrite append_assoc in *.
    simpl String.append in *.
    simpl in Hfuel. rewrite length_append in Hfuel. simpl in Hfuel.
    rewrite Ascii.eqb_refl.
    rewrite Hx; [ | reflexivity | lia ].
    simpl. rewrite IH; [ reflexivity | discriminate | ].
    rewrite length_append in Hfuel. simpl in Hfuel. lia.
Qed.

Lemma read_value_print (v : json) : Reference.reads_back v.
Proof.
  induction v as [ | b | n | s | items IH | fields IH ] using json_ind;
    intros rest fuel Hrest Hfuel; (destruct fuel as [ | fuel ]; [ lia | ]).
  - reflexivity.
  - destruct b; reflexivity.
  - destruct (print_number_head n) as (c & r & Hpr & Hc).
    change (Reference.print (JNum n)) with (Reference.print_number n).
    pose proof (read_number_print n rest Hrest) as Hread.
    rewrite Hpr in *. simpl String.append in *.
    rewrite read_value_number by exact Hc. rewrite Hread. reflexivity.
  - change (Reference.print (JStr s)) with (Reference.print_string s).
    rewrite print_string_append, read_value_quote, read_string_escape.
    reflexivity.
  - change (Reference.print (JArr items))
      with (String "[" (Reference.print_items items)) in *.
    destruct items as [ | x items ]; [ reflexivity | ].
    assert (exists c r, Reference.print_items (x :: items) +:+ rest = String c r
                        /\ Ascii.eqb c "]" = false) as (c & r & Hhead & Hc).
    { destruct (print_head x) as (c & r & Hhead & Hc & _).
      exists c. eexists. split; [ | exact Hc ].
      change (Reference.print_items (x :: items))
        with (Reference.print x +:+
              match items with
              | [] => "]"
              | _ :: _ => String "," (Reference.print_items items)
              end).
      rewrite Hhead. reflexivity. }
    change (String "[" (Reference.print_items (x :: items)) +:+ rest)
      with (String "[" (Reference.print_items (x :: items) +:+ rest)) in *.
    rewrite Hhead, read_value_bracket by exact Hc.
    rewrite <- Hhead. rewrite read_items_print; [ reflexivity | exact IH | discriminate | ].
    rewrite length_String in Hfuel. lia.
  - change (Reference.print (JObj fields))
      with (String "{" (Reference.print_fields fields)) in *.
    destruct fields as [ | [k x] fields ]; [ reflexivity | ].
    assert (exists r, Reference.print_fields ((k, x) :: fields) +:+ rest
                      = String Reference.quote r) as (r & Hhead).
    { eexists.
      change (Reference.print_fields ((k, x) :: fields))
        with (Reference.print_string k +:+
              String ":" (Reference.print x +:+
              match fields with
              | [] => "}"
              | _ :: _ => String "," (Reference.print_fields fields)
              end)).
      rewrite print_string_append. reflexivity. }
    change (String "{" (Reference.print_fields ((k, x) :: fields)) +:+ rest)
      with (String "{" (Reference.print_fields ((k, x) :: fields) +:+ rest)) in *.
    rewrite Hhead, read_value_brace by reflexivity.
    rewrite <- Hhead. rewrite read_fields_print; [ reflexivity | exact IH | discriminate | ].
    rewrite length_String in Hfuel. lia.
Qed.

Lemma parse_text_print (v : json) : Reference.parse_text (Reference.print v) = Some v.
Proof.
  unfold Reference.parse_text.
  pose proof (read_value_print v EmptyString
                (2 * String.length (Reference.print v) + 1)%nat I) as Hread.
  rewrite append_empty_r in Hread. rewrite Hread; [ reflexivity | lia ].
Qed.

Lemma of_hex_hex_of (b0 b1 b2 b3 : bool) :
  Reference.of_hex (Reference.hex_of b0 b1 b2 b3) = Some (b0, b1, b2, b3).
Proof. destruct b0, b1, b2, b3; reflexivity. Qed.

Lemma decode16_encode16 (s : string) : Reference.decode16 (Reference.encode16 s) = s.
Proof.
  induction s as [ | [ b0 b1 b2 b3 b4 b5 b6 b7 ] s IH ]; [ reflexivity | ].
  simpl. rewrite !of_hex_hex_of, IH. reflexivity.
Qed.

Lemma reference_laws : PlatformLaws Reference.runtime.
Proof.
  split.
  - intros s. simpl. rewrite decode16_encode16. reflexivity.
  - intros v _. apply parse_text_print.
Qed.

(** ** The model at work *)

(** One connection on the reference runtime: it is greeted, subscribes with
    an issued token and is confirmed; then a text that is not JSON is logged
    and dropped; then a made-up token is refused and the socket closed. *)
Example one_connection :
  transcript [EConnection;
              EMessage 0 (Scenario.subscribe_text (Scenario.token_for "W1")) 1000;
              EMessage 0 "hello" 1000;
              EMessage 0 (Scenario.subscribe_text (JStr "abc")) 1000] initial
  = [(EConnection, [Sent 0 (JSON_stringify connected_message)]);
     (EMessage 0 (Scenario.subscribe_text (Scenario.token_for "W1")) 1000,
      [Sent 0 (JSON_stringify (subscribed_message (JStr "W1")))]);
     (EMessage 0 "hello" 1000,
      [ConsoleError (SyntaxError "Unexpected token in JSON")]);
     (EMessage 0 (Scenario.subscribe_text (JStr "abc")) 1000,
      [Sent 0 (JSON_stringify error_message_json); CloseCalled 0])].
Proof. vm_compute. reflexivity. Qed.

(** The registry of the scenario. *)
Example three_clients_registry :
  wsClients (exec Scenario.three_clients initial)
  = [mkClient 0 0 (JStr "W1"); mkClient 1 1 (JStr "W1"); mkClient 2 2 (JStr "W2")].
Proof. vm_compute. reflexivity. Qed.

(** A token is bound to its signature: with another signature in the
    envelope it is refused. *)
Example forged_signature_refused :
  let data := JSON_stringify (Token.token_payload "W1" 99999999999) in
  Token.validateSocketToken
    (Some (JStr (base64_encode
                   (JSON_stringify (Token.token_envelope data "0000"))))) 1000
  = Ok Token.invalid.
Proof. vm_compute. reflexivity. Qed.

(** A closed socket stays in neither the fan-out nor, after its [close]
    event, the registry. *)
Example closed_socket_leaves :
  let s := exec (Scenario.three_clients ++ [EClose 1]) initial in
  wsClients s = [mkClient 0 0 (JStr "W1"); mkClient 2 2 (JStr "W2")]
  /\ (step (EIngest (Ok Scenario.r1)) s).2
     = [Sent 0 (JSON_stringify (new_log_message Scenario.r1));
        Response 201 (TelemetryLog.toJSON Scenario.r1)].
Proof. vm_compute. split; reflexivity. Qed.

(** ** The token codec *)

Section TokenProperties.
Context {P : Platform}.

Lemma strict_eq_string_true (v : jsval) (s : string) :
  strict_eq_string v s = true <-> v = Some (JStr s).
Proof.
  unfold strict_eq_string. split.
  - destruct v as [ [ | | | s' | | ] | ]; try discriminate.
    intros E. apply String.eqb_eq in E. subst. reflexivity.
  - intros ->. apply String.eqb_refl.
Qed.

Lemma validateSocketToken_returns (token : jsval) (now : Z) :
  exists r, Token.validateSocketToken token now = Ok r.
Proof.
  unfold Token.validateSocketToken, try_catch.
  destruct (Token.validate_body token now) as [ r | e ]; eauto.
Qed.

(** The [try] block returns [valid: true] exactly on accepted tokens. *)
Lemma validate_body_accepts (token : jsval) (now : Z) (w : jsval) :
  Token.validate_body token now = Ok (Token.mkValidation true w)
  <-> accepted token now w.
Proof.
  unfold Token.validate_body, accepted. split.
  - destruct token as [ t | ]; [ | discriminate ].
    destruct (buffer_from_base64 t) as [ text | ] eqn:Htext; [ | discriminate ].
    simpl. unfold parse.
    destruct (JSON_parse text) as [ decoded | ] eqn:Hdecoded; [ | discriminate ].
    simpl.
    destruct (get_prop decoded "data") as [ data | ] eqn:Hdata; [ | discriminate ].
    simpl.
    destruct (get_prop decoded "signature") as [ signature | ] eqn:Hsig;
      [ | discriminate ].
    simpl.
    destruct data as [ [ | | | d | | ] | ]; try discriminate.
    simpl.
    destruct (strict_eq_string signature _) eqn:Heq; [ | discriminate ].
    apply strict_eq_string_true in Heq. subst signature.
    simpl. unfold parse.
    destruct (JSON_parse d) as [ payload | ] eqn:Hpayload; [ | discriminate ].
    simpl.
    destruct (get_prop payload "exp") as [ exp | ] eqn:Hexp; [ | discriminate ].
    simpl.
    destruct (lt_number exp now) eqn:Hlt; [ discriminate | ].
    destruct (get_prop payload "workspaceId") as [ w' | ] eqn:Hw; [ | discriminate ].
    simpl. intros [= <-].
    exists t, text, decoded, d, payload, exp. tauto.
  - intros (t & text & decoded & d & payload & exp & -> & Htext & Hdecoded
            & Hdata & Hsig & Hpayload & Hexp & Hlt & Hw).
    rewrite Htext. simpl. unfold parse. rewrite Hdecoded. simpl.
    rewrite Hdata. simpl. rewrite Hsig. simpl.
    rewrite String.eqb_refl. simpl.
    unfold parse. rewrite Hpayload. simpl. rewrite Hexp. simpl.
    rewrite Hlt. rewrite Hw. reflexivity.
Qed.

(** Whatever the [try] block returns is either an acceptance or [invalid]. *)
Lemma validate_body_result (token : jsval) (now : Z) (r : Token.validation) :
  Token.validate_body token now = Ok r ->
  r = Token.invalid \/ exists w, r = Token.mkValidation true w.
Proof.
  unfold Token.validate_body.
  destruct token as [ t | ]; [ | discriminate ].
  destruct (buffer_from_base64 t) as [ text | ]; [ | discriminate ].
  simpl. destruct (parse text) as [ decoded | ]; [ | discriminate ].
  simpl. destruct (get_prop decoded "data") as [ data | ]; [ | discriminate ].
  simpl. destruct (get_prop decoded "signature") as [ signature | ]; [ | discriminate ].
  simpl. destruct (createHmac_digest _ data) as [ expected | ]; [ | discriminate ].
  simpl. destruct (strict_eq_string signature expected); simpl.
  - destruct (parse_value data) as [ payload | ]; [ | discriminate ].
    simpl. destruct (get_prop payload "exp") as [ exp | ]; [ | discriminate ].
    simpl. destruct (lt_number exp now).
    + intros [= <-]. left. reflexivity.
    + destruct (get_prop payload "workspaceId") as [ w | ]; [ | discriminate ].
      simpl. intros [= <-]. right. eauto.
  - intros [= <-]. left. reflexivity.
Qed.

Lemma validateSocketToken_accepts (token : jsval) (now : Z) (w : jsval) :
  Token.validateSocketToken token now = Ok (Token.mkValidation true w)
  <-> accepted token now w.
Proof.
  rewrite <- validate_body_accepts.
  unfold Token.validateSocketToken, try_catch.
  destruct (Token.validate_body token now) as [ r | e ]; [ tauto | ].
  split; discriminate.
Qed.

Lemma validateSocketToken_rejects (token : jsval) (now : Z) :
  (forall w, ~ accepted token now w) ->
  Token.validateSocketToken token now = Ok Token.invalid.
Proof.
  intros Hno. unfold Token.validateSocketToken, try_catch.
  destruct (Token.validate_body token now) as [ r | e ] eqn:Hbody; [ | reflexivity ].
  destruct (validate_body_result _ _ _ Hbody) as [ -> | [ w -> ] ]; [ reflexivity | ].
  apply validate_body_accepts in Hbody. destruct (Hno _ Hbody).
Qed.

Lemma validate_body_signed `{!PlatformLaws P} (payload : json) (now : Z) :
  well_formed payload = true ->
  Token.validate_body (Some (JStr (Token.signed_token payload))) now
  = after_signature payload now.
Proof.
  intros Hwf. unfold Token.validate_body, Token.signed_token.
  rewrite base64_roundtrip. simpl. unfold parse.
  rewrite JSON_roundtrip by reflexivity. simpl.
  rewrite String.eqb_refl. simpl. unfold parse.
  rewrite JSON_roundtrip by exact Hwf. reflexivity.
Qed.

Lemma generateSocketToken_signed (workspaceId : string) (now : Z) :
  Token.generateSocketToken workspaceId now
  = Token.signed_token (Token.token_payload workspaceId (now + Token.TOKEN_EXPIRY)).
Proof. reflexivity. Qed.

(** Validation of an issued token: only the clock decides. *)
Lemma validate_generated `{!PlatformLaws P} (X : string) (issued now : Z) :
  Token.validateSocketToken (Some (JStr (Token.generateSocketToken X issued))) now
  = Ok (if (issued + Token.TOKEN_EXPIRY <? now)%Z then Token.invalid
        else Token.mkValidation true (Some (JStr X))).
Proof.
  unfold Token.validateSocketToken. rewrite generateSocketToken_signed.
  rewrite validate_body_signed by reflexivity.
  unfold after_signature. simpl. unfold lt_number. simpl.
  destruct (issued + Token.TOKEN_EXPIRY <? now)%Z; reflexivity.
Qed.

(** C2, as the code has it.  A token issued for workspace [X] validates and
    yields [X] at every time up to and including its expiry time
    [issued + TOKEN_EXPIRY]; at every later time validation fails.  (The
    code rejects when [exp < Date.now()], so the expiry instant itself is
    still accepted.) *)
Theorem token_valid_until_expiry `{!PlatformLaws P} (X : string) (issued now : Z) :
  (now <= issued + Token.TOKEN_EXPIRY ->
   Token.validateSocketToken (Some (JStr (Token.generateSocketToken X issued))) now
   = Ok (Token.mkValidation true (Some (JStr X))))
  /\
  (issued + Token.TOKEN_EXPIRY < now ->
   Token.validateSocketToken (Some (JStr (Token.generateSocketToken X issued))) now
   = Ok Token.invalid).
Proof.
  rewrite validate_generated. split; intros Hnow.
  - destruct (Z.ltb_spec (issued + Token.TOKEN_EXPIRY) now); [ lia | reflexivity ].
  - destruct (Z.ltb_spec (issued + Token.TOKEN_EXPIRY) now); [ reflexivity | lia ].
Qed.

(** C3, as the code has it.  [validateSocketToken] returns a result for
    every input and never throws.  It answers invalid when decoding the
    token throws, when the decoded text is not JSON, when the signature of
    the envelope is not the HMAC of its [data] (missing fields included),
    and when [data] is not JSON.  It answers valid exactly on the accepted
    tokens, for which the fields of the payload are not required: a missing
    [exp] passes the expiry test, a missing [workspaceId] is reported as
    [undefined]. *)
Theorem validateSocketToken_total (token : jsval) (now : Z) :
  (exists r, Token.validateSocketToken token now = Ok r)
  /\
  (forall t e, token = Some t -> buffer_from_base64 t = Throw e ->
     Token.validateSocketToken token now = Ok Token.invalid)
  /\
  (forall t text, token = Some t -> buffer_from_base64 t = Ok text ->
     JSON_parse text = None ->
     Token.validateSocketToken token now = Ok Token.invalid)
  /\
  (forall t text decoded data, token = Some t -> buffer_from_base64 t = Ok text ->
     JSON_parse text = Some decoded ->
     get_prop decoded "data" = Ok (Some (JStr data)) ->
     get_prop decoded "signature"
       <> Ok (Some (JStr (hmac_sha256_hex Token.SOCKET_SECRET data))) ->
     Token.validateSocketToken token now = Ok Token.invalid)
  /\
  (forall t text decoded, token = Some t -> buffer_from_base64 t = Ok text ->
     JSON_parse text = Some decoded ->
     (forall data, get_prop decoded "data" <> Ok (Some (JStr data))) ->
     Token.validateSocketToken token now = Ok Token.invalid)
  /\
  (forall t text decoded data, token = Some t -> buffer_from_base64 t = Ok text ->
     JSON_parse text = Some decoded ->
     get_prop decoded "data" = Ok (Some (JStr data)) ->
     JSON_parse data = None ->
     Token.validateSocketToken token now = Ok Token.invalid)
  /\
  (forall w, Token.validateSocketToken token now = Ok (Token.mkValidation true w)
             <-> accepted token now w)
  /\
  ((forall w, ~ accepted token now w) ->
   Token.validateSocketToken token now = Ok Token.invalid).
Proof.
  split; [ apply validateSocketToken_returns | ].
  repeat split.
  - intros t e -> Ht. apply validateSocketToken_rejects.
    intros w (t' & text & decoded & d & payload & exp & [= <-] & Htext & _).
    congruence.
  - intros t text -> Ht Hparse. apply validateSocketToken_rejects.
    intros w (t' & text' & decoded & d & payload & exp & [= <-] & Htext & Hdec & _).
    congruence.
  - intros t text decoded data -> Ht Hparse Hdata Hsig.
    apply validateSocketToken_rejects.
    intros w (t' & text' & decoded' & d & payload & exp & [= <-] & Htext & Hdec
              & Hd & Hs & _).
    assert (text' = text) by congruence. subst text'.
    assert (decoded' = decoded) by congruence. subst decoded'.
    assert (d = data) by congruence. subst d. contradiction.
  - intros t text decoded -> Ht Hparse Hdata.
    apply validateSocketToken_rejects.
    intros w (t' & text' & decoded' & d & payload & exp & [= <-] & Htext & Hdec
              & Hd & _).
    assert (text' = text) by congruence. subst text'.
    assert (decoded' = decoded) by congruence. subst decoded'.
    exact (Hdata _ Hd).
  - intros t text decoded data -> Ht Hparse Hdata Hpayload.
    apply validateSocketToken_rejects.
    intros w (t' & text' & decoded' & d & payload & exp & [= <-] & Htext & Hdec
              & Hd & _ & Hp & _).
    assert (text' = text) by congruence. subst text'.
    assert (decoded' = decoded) by congruence. subst decoded'.
    assert (d = data) by congruence. subst d. congruence.
  - apply validateSocketToken_accepts.
  - apply validateSocketToken_accepts.
  - apply validateSocketToken_rejects.
Qed.

End TokenProperties.

Lemma token_valid_until_expiry_witness :
  PlatformLaws Reference.runtime /\
  (5 <= 0 + Token.TOKEN_EXPIRY)%Z /\
  Token.validateSocketToken (Some (JStr (Token.generateSocketToken "W1" 0))) 5
  = Ok (Token.mkValidation true (Some (JStr "W1"))).
Proof.
  split; [ exact reference_laws | ].
  split; [ unfold Token.TOKEN_EXPIRY; lia | ].
  apply (@token_valid_until_expiry Reference.runtime reference_laws "W1" 0 5).
  unfold Token.TOKEN_EXPIRY. lia.
Defined.

(** At the very instant a token expires the code still accepts it. *)
Lemma token_valid_at_expiry_instant :
  Token.validateSocketToken
    (Some (JStr (Token.generateSocketToken "W1" 1000))) (1000 + Token.TOKEN_EXPIRY)
  = Ok (Token.mkValidation true (Some (JStr "W1"))).
Proof.
  rewrite (@validate_generated Reference.runtime reference_laws).
  reflexivity.
Qed.

(** A payload without [exp], signed with the secret, is accepted at any
    time; one without [workspaceId] is answered valid, with no workspace. *)
Lemma payload_fields_not_required :
  let no_exp := JObj [("workspaceId", JStr "W1")] in
  let no_workspace := JObj [("exp", JNum 1000)] in
  get_prop no_exp "exp" = Ok None /\
  get_prop no_workspace "workspaceId" = Ok None /\
  Token.validateSocketToken (Some (JStr (Token.signed_token no_exp))) 99999999999
  = Ok (Token.mkValidation true (Some (JStr "W1"))) /\
  Token.validateSocketToken (Some (JStr (Token.signed_token no_workspace))) 1000
  = Ok (Token.mkValidation true None).
Proof.
  intros no_exp no_workspace.
  split; [ reflexivity | ]. split; [ reflexivity | ].
  unfold Token.validateSocketToken.
  rewrite !(@validate_body_signed Reference.runtime reference_laws) by reflexivity.
  split; reflexivity.
Qed.

(** ** The fan-out of the ingestion route *)

Section IngestProperties.
Context {P : Platform}.

Lemma deliver_run (log : TelemetryLog.t) (message : string) (c : WebSocketClient)
    (s : server) :
  deliver log message c s
  = if recipient s log c
    then match send_fault_of s (socket c) with
         | Some e => (Throw e, s, [])
         | None => (Ok tt, s, [frame message c])
         end
    else (Ok tt, s, []).
Proof.
  unfold deliver, recipient, send_fault_of, frame, get_server, ws_send, is_open.
  unfold mbind, M_bind. cbv beta iota.
  destruct (strict_eq_string (Some (workspaceId c)) (TelemetryLog.workspaceId log));
    [ | reflexivity ].
  destruct (connections s !! socket c) as [ conn | ] eqn:Hconn;
    [ | reflexivity ].
  destruct (bool_decide (readyState conn = OPEN)) eqn:Hopen; [ | reflexivity ].
  simpl. rewrite Hconn, Hopen. simpl.
  destruct (send_fault conn); reflexivity.
Qed.

Lemma forEach_deliver (log : TelemetryLog.t) (message : string)
    (l : list WebSocketClient) (s : server) :
  let addressed := filter (fun c => recipient s log c = true) l in
  forEach l (deliver log message) s
  = (match first_fault s addressed with
     | Some e => Throw e
     | None => Ok tt
     end, s, map (frame message) (served s addressed)).
Proof.
  induction l as [ | c l IH ]; simpl; [ reflexivity | ].
  unfold mbind, M_bind. rewrite deliver_run, filter_cons.
  destruct (recipient s log c) eqn:Hc.
  - rewrite decide_True by reflexivity. simpl.
    destruct (send_fault_of s (socket c)) as [ e | ]; [ reflexivity | ].
    simpl in IH. rewrite IH. reflexivity.
  - rewrite decide_False by discriminate. simpl in IH. rewrite IH. reflexivity.
Qed.

(** The whole route on a stored record. *)
Lemma step_ingest_stored (log : TelemetryLog.t) (s : server) :
  step (EIngest (Ok log)) s
  = (s, map (frame (JSON_stringify (new_log_message log))) (served s (recipients s log))
        ++ [match first_fault s (recipients s log) with
            | Some e => Response 400 (JObj [("error", JStr (error_message e))])
            | None => Response 201 (TelemetryLog.toJSON log)
            end]).
Proof.
  unfold step, run_handler, on_ingest, try_catch_M, recipients.
  unfold mbind, M_bind, lift, get_server. simpl.
  rewrite forEach_deliver. simpl.
  destruct (first_fault s _); reflexivity.
Qed.

Lemma step_ingest_failed (e : error) (s : server) :
  step (EIngest (Throw e)) s
  = (s, [Response 400 (JObj [("error", JStr (error_message e))])]).
Proof. reflexivity. Qed.

Lemma served_healthy (s : server) (l : list WebSocketClient) :
  (forall c, In c l -> send_fault_of s (socket c) = None) ->
  served s l = l /\ first_fault s l = None.
Proof.
  induction l as [ | c l IH ]; simpl; intros Hl; [ split; reflexivity | ].
  rewrite (Hl c) by (left; reflexivity).
  destruct IH as [ -> -> ]; [ | split; reflexivity ].
  intros c' Hc'. apply Hl. right. exact Hc'.
Qed.

Lemma served_until_fault (s : server) (before after : list WebSocketClient)
    (c : WebSocketClient) (e : error) :
  (forall c', In c' before -> send_fault_of s (socket c') = None) ->
  send_fault_of s (socket c) = Some e ->
  served s (before ++ c :: after) = before
  /\ first_fault s (before ++ c :: after) = Some e.
Proof.
  induction before as [ | b before IH ]; simpl; intros Hbefore Hc.
  - rewrite Hc. split; reflexivity.
  - rewrite (Hbefore b) by (left; reflexivity).
    destruct IH as [ -> -> ]; [ | exact Hc | split; reflexivity ].
    intros c' Hc'. apply Hbefore. right. exact Hc'.
Qed.

Lemma served_sublist (s : server) (l : list WebSocketClient) (c : WebSocketClient) :
  In c (served s l) -> In c l.
Proof.
  induction l as [ | c' l IH ]; simpl; [ tauto | ].
  destruct (send_fault_of s (socket c')); simpl; [ tauto | ].
  intros [ -> | Hc ]; [ left; reflexivity | right; exact (IH Hc) ].
Qed.

Lemma recipients_spec (s : server) (log : TelemetryLog.t) (c : WebSocketClient) :
  In c (recipients s log)
  <-> In c (wsClients s)
      /\ workspaceId c = JStr (TelemetryLog.workspaceId log)
      /\ is_open s (socket c) = true.
Proof.
  unfold recipients. rewrite <- list_elem_of_In, list_elem_of_filter, list_elem_of_In.
  unfold recipient. rewrite andb_true_iff, strict_eq_string_true.
  split.
  - intros [ [ [= Hw] Hopen ] Hin ]. tauto.
  - intros (Hin & -> & Hopen). tauto.
Qed.

Lemma toJSON_well_formed (log : TelemetryLog.t) :
  well_formed (TelemetryLog.nullable (TelemetryLog.metadata log)) = true ->
  well_formed (new_log_message log) = true.
Proof.
  intros Hmeta. unfold new_log_message, TelemetryLog.toJSON.
  cbn -[TelemetryLog.nullable]. rewrite Hmeta.
  destruct (TelemetryLog.projectId log); reflexivity.
Qed.



End IngestProperties.





(** Socket 0 raises on send: socket 1, registered for the same workspace and
    open, is sent nothing, and the ingestion call is answered 400 although the
    record was stored. *)
Lemma broadcast_aborted_by_raising_send :
  let s := exec (Scenario.three_clients ++ [ESendFault 0 Scenario.broken_pipe]) initial in
  In (mkClient 1 1 (JStr "W1")) (recipients s Scenario.r1)
  /\ send_fault_of s 1 = None
  /\ step (EIngest (Ok Scenario.r1)) s
     = (s, [Response 400 (JObj [("error", JStr "write EPIPE")])]).
Proof.
  vm_compute. split; [ right; left; reflexivity | split; reflexivity ].
Qed.

(** ** The message handler *)

Section MessageProperties.
Context {P : Platform}.

Lemma lookup_update_connection (ws ws' : WebSocket) (f : connection -> connection)
    (s : server) :
  connections (update_connection ws f s) !! ws'
  = if decide (ws = ws') then f <$> connections s !! ws' else connections s !! ws'.
Proof.
  unfold update_connection. simpl.
  destruct (decide (ws = ws')) as [ -> | Hne ].
  - apply list_lookup_alter_eq.
  - apply list_lookup_alter_ne. exact Hne.
Qed.

Lemma send_fault_of_set_client (ws ws' : WebSocket) (cl : option WebSocketClient)
    (s s' : server) :
  connections s' = alter (set_client cl) ws (connections s) ->
  send_fault_of s' ws' = send_fault_of s ws'.
Proof.
  intros Hs'. unfold send_fault_of. rewrite Hs'.
  destruct (decide (ws = ws')) as [ -> | Hne ].
  - rewrite list_lookup_alter_eq. destruct (connections s !! ws'); reflexivity.
  - rewrite list_lookup_alter_ne by exact Hne. reflexivity.
Qed.

Lemma is_open_set_client (ws ws' : WebSocket) (cl : option WebSocketClient)
    (s s' : server) :
  connections s' = alter (set_client cl) ws (connections s) ->
  is_open s' ws' = is_open s ws'.
Proof.
  intros Hs'. unfold is_open. rewrite Hs'.
  destruct (decide (ws = ws')) as [ -> | Hne ].
  - rewrite list_lookup_alter_eq. destruct (connections s !! ws'); reflexivity.
  - rewrite list_lookup_alter_ne by exact Hne. reflexivity.
Qed.

(** [ws.send] by cases. *)
Lemma ws_send_run (ws : WebSocket) (payload : string) (s : server) :
  ws_send ws payload s
  = match send_fault_of s ws with
    | Some e => (Throw e, s, [])
    | None => (Ok tt, s, if is_open s ws then [Sent ws payload] else [])
    end.
Proof.
  unfold ws_send, send_fault_of, is_open.
  destruct (connections s !! ws) as [ conn | ]; simpl; [ | reflexivity ].
  destruct (send_fault conn); [ reflexivity | ].
  destruct (bool_decide (readyState conn = OPEN)); reflexivity.
Qed.

Lemma subscribe_refused (ws : WebSocket) (token : jsval) (now : Z) (s : server) :
  refused token now -> subscribe ws token now s = reject_run ws s.
Proof.
  intros (r & Hr & Hguard). unfold subscribe, reject_run.
  unfold mbind at 1. unfold M_bind, lift. rewrite Hr. cbv beta iota.
  assert (negb (Token.valid r) || negb (truthy (Token.workspaceId r)) = true) as ->.
  { destruct Hguard as [ -> | -> ]; [ reflexivity | apply orb_true_r ]. }
  unfold mbind, M_bind. rewrite ws_send_run.
  destruct (send_fault_of s ws); [ reflexivity | ].
  unfold ws_close. destruct (is_open s ws); reflexivity.
Qed.

Lemma subscribe_accepted (ws : WebSocket) (token : jsval) (now : Z) (w : json)
    (s : server) :
  Token.validateSocketToken token now = Ok (Token.mkValidation true (Some w)) ->
  truthy (Some w) = true ->
  subscribe ws token now s = register_run ws w s.
Proof.
  intros Hvalid Hw. unfold subscribe, register_run.
  unfold mbind at 1. unfold M_bind, lift. rewrite Hvalid. cbv beta iota.
  cbn [Token.valid Token.workspaceId]. rewrite Hw. cbn [negb orb].
  unfold mbind, M_bind, new_client, assign_client, wsClients_add.
  cbv beta iota. rewrite ws_send_run.
  cbn [connections wsClients next_ref update_connection].
  set (c := mkClient (next_ref s) ws w).
  rewrite (send_fault_of_set_client ws ws (Some c) s) by reflexivity.
  rewrite (is_open_set_client ws ws (Some c) s) by reflexivity.
  destruct (send_fault_of s ws); reflexivity.
Qed.

Lemma on_message_run (ws : WebSocket) (data : string) (now : Z) (s : server) :
  on_message ws data now s
  = match JSON_parse data with
    | None => (Ok tt, s, [ConsoleError (SyntaxError "Unexpected token in JSON")])
    | Some message =>
        match get_prop message "type" with
        | Throw e => (Ok tt, s, [ConsoleError e])
        | Ok type =>
            if strict_eq_string type "subscribe"
            then match get_prop message "token" with
                 | Throw e => (Ok tt, s, [ConsoleError e])
                 | Ok token =>
                     if truthy token then caught (subscribe ws token now s)
                     else (Ok tt, s, [])
                 end
            else (Ok tt, s, [])
        end
    end.
Proof.
  unfold on_message, try_catch_M, caught, parse, lift, emit.
  unfold mbind at 1. unfold M_bind.
  destruct (JSON_parse data) as [ message | ]; [ | reflexivity ].
  unfold mbind at 1. unfold M_bind.
  destruct (get_prop message "type") as [ type | e ]; [ | reflexivity ].
  cbv beta iota.
  destruct (strict_eq_string type "subscribe"); [ | reflexivity ].
  unfold mbind at 1. unfold M_bind.
  destruct (get_prop message "token") as [ token | e ]; [ | reflexivity ].
  cbv beta iota.
  destruct (truthy token); [ | reflexivity ].
  destruct (subscribe ws token now s) as [ [ [ [] | e ] s' ] o ]; simpl;
    rewrite ?app_nil_r; reflexivity.
Qed.

Lemma on_message_subscribe (ws : WebSocket) (data : string) (token : jsval)
    (now : Z) (s : server) :
  subscribe_request data token ->
  on_message ws data now s
  = if truthy token then caught (subscribe ws token now s) else (Ok tt, s, []).
Proof.
  intros (message & Hparse & Htype & Htoken).
  rewrite on_message_run, Hparse, Htype, Htoken. reflexivity.
Qed.

(** A subscribe message whose token the handler refuses. *)
Lemma step_message_refused (ws : WebSocket) (data : string) (token : jsval)
    (now : Z) (s : server) :
  alive s ws = true ->
  subscribe_request data token ->
  truthy token = true ->
  refused token now ->
  step (EMessage ws data now) s
  = match send_fault_of s ws with
    | Some e => (s, [ConsoleError e])
    | None =>
        if is_open s ws
        then (update_connection ws (set_readyState CLOSING) s,
              [Sent ws (JSON_stringify error_message_json); CloseCalled ws])
        else (s, [])
    end.
Proof.
  intros Halive Hreq Htruthy Hrefused. unfold step, run_handler.
  rewrite Halive, (on_message_subscribe _ _ _ _ _ Hreq), Htruthy.
  rewrite (subscribe_refused _ _ _ _ Hrefused). unfold reject_run.
  destruct (send_fault_of s ws); [ reflexivity | ].
  destruct (is_open s ws); reflexivity.
Qed.

(** A subscribe message whose token validates to the workspace [w]. *)
Lemma step_message_accepted (ws : WebSocket) (data : string) (token : jsval)
    (now : Z) (w : json) (s : server) :
  alive s ws = true ->
  subscribe_request data token ->
  truthy token = true ->
  Token.validateSocketToken token now = Ok (Token.mkValidation true (Some w)) ->
  truthy (Some w) = true ->
  let c := mkClient (next_ref s) ws w in
  step (EMessage ws data now) s
  = (mkServer (Set_add c (wsClients s))
              (alter (set_client (Some c)) ws (connections s))
              (S (next_ref s)),
     match send_fault_of s ws with
     | Some e => [ConsoleError e]
     | None =>
         if is_open s ws then [Sent ws (JSON_stringify (subscribed_message w))] else []
     end).
Proof.
  intros Halive Hreq Htruthy Hvalid Hw c. unfold step, run_handler.
  rewrite Halive, (on_message_subscribe _ _ _ _ _ Hreq), Htruthy.
  rewrite (subscribe_accepted _ _ _ _ _ Hvalid Hw). unfold register_run.
  destruct (send_fault_of s ws); reflexivity.
Qed.

(** A subscribe message without a truthy token does nothing at all. *)
Lemma step_message_no_token (ws : WebSocket) (data : string) (token : jsval)
    (now : Z) (s : server) :
  subscribe_request data token ->
  truthy token = false ->
  step (EMessage ws data now) s = (s, []).
Proof.
  intros Hreq Hfalsy. unfold step, run_handler.
  rewrite (on_message_subscribe _ _ _ _ _ Hreq), Hfalsy.
  destruct (alive s ws); reflexivity.
Qed.

(** A message that is not a subscribe request changes nothing and only
    writes to the console. *)
Lemma step_message_other (ws : WebSocket) (data : string) (now : Z) (s : server) :
  (forall token, ~ subscribe_request data token) ->
  exists o, step (EMessage ws data now) s = (s, o)
            /\ forall x, In x o -> exists e, x = ConsoleError e.
Proof.
  intros Hno. unfold step, run_handler.
  destruct (alive s ws); [ | exists []; split; [ reflexivity | intros x [] ] ].
  rewrite on_message_run.
  destruct (JSON_parse data) as [ message | ] eqn:Hparse.
  - destruct (get_prop message "type") as [ type | e ] eqn:Htype.
    + destruct (strict_eq_string type "subscribe") eqn:Heq.
      * apply strict_eq_string_true in Heq. subst type.
        destruct (get_prop message "token") as [ token | e ] eqn:Htoken.
        -- destruct (Hno token). exists message. tauto.
        -- destruct message; discriminate.
      * exists []. split; [ reflexivity | intros x [] ].
    + exists [ConsoleError e]. split; [ reflexivity | ].
      intros x [ <- | [] ]. eauto.
  - eexists. split; [ reflexivity | ]. intros x [ <- | [] ]. eauto.
Qed.

Lemma is_open_alive (s : server) (ws : WebSocket) :
  is_open s ws = true -> alive s ws = true.
Proof.
  unfold is_open, alive. destruct (connections s !! ws) as [ conn | ]; [ | discriminate ].
  intros Hopen. apply bool_decide_eq_true in Hopen. rewrite Hopen. reflexivity.
Qed.

End MessageProperties.

(** ** Steps and runs *)

Section RunProperties.
Context {P : Platform}.

Lemma Set_add_In (c c' : WebSocketClient) (l : list WebSocketClient) :
  In c' (Set_add c l) -> In c' l \/ c' = c.
Proof.
  unfold Set_add. destruct (existsb _ l); [ tauto | ].
  rewrite in_app_iff. simpl. intros [ H | [ H | [] ] ]; auto.
Qed.

Lemma Set_add_fresh (c : WebSocketClient) (l : list WebSocketClient) :
  (forall c', In c' l -> client_ref c' <> client_ref c) ->
  Set_add c l = l ++ [c].
Proof.
  intros Hfresh. unfold Set_add.
  destruct (existsb _ l) eqn:Hex; [ | reflexivity ].
  apply existsb_exists in Hex. destruct Hex as (c' & Hin & Heq).
  apply Nat.eqb_eq in Heq. destruct (Hfresh c' Hin Heq).
Qed.

Lemma Set_delete_In (c c' : WebSocketClient) (l : list WebSocketClient) :
  In c' (Set_delete c l) <-> In c' l /\ client_ref c' <> client_ref c.
Proof.
  unfold Set_delete. rewrite <- !list_elem_of_In, list_elem_of_filter. tauto.
Qed.

Lemma Set_delete_fresh (c : WebSocketClient) (l : list WebSocketClient) :
  (forall c', In c' l -> client_ref c' <> client_ref c) ->
  Set_delete c (l ++ [c]) = l.
Proof.
  intros Hfresh. unfold Set_delete. rewrite list.filter_app.
  rewrite filter_cons, decide_False by (intros Hne; apply Hne; reflexivity).
  rewrite filter_nil, app_nil_r.
  induction l as [ | c' l IH ]; [ reflexivity | ].
  rewrite filter_cons, decide_True by (apply Hfresh; left; reflexivity).
  rewrite IH; [ reflexivity | ].
  intros c'' Hc''. apply Hfresh. right. exact Hc''.
Qed.

Lemma delete_client_run (ws : WebSocket) (s : server) :
  delete_client ws s
  = (Ok tt,
     match connections s !! ws ≫= client with
     | Some cl => mkServer (Set_delete cl (wsClients s)) (connections s) (next_ref s)
     | None => s
     end, []).
Proof.
  unfold delete_client, read_client, wsClients_delete. unfold mbind at 1.
  unfold M_bind. destruct (connections s !! ws ≫= client); reflexivity.
Qed.

Lemma step_connection (s : server) :
  step EConnection s
  = (mkServer (wsClients s) (connections s ++ [mkConnection OPEN None None]) (next_ref s),
     [Sent (length (connections s)) (JSON_stringify connected_message)]).
Proof.
  unfold step, accept, run_handler, on_connection. rewrite ws_send_run.
  unfold send_fault_of, is_open. simpl.
  rewrite lookup_app_r by reflexivity. rewrite Nat.sub_diag. reflexivity.
Qed.

Lemma step_close (ws : WebSocket) (s : server) :
  alive s ws = true ->
  step (EClose ws) s
  = (match connections s !! ws ≫= client with
     | Some cl => mkServer (Set_delete cl (wsClients s))
                           (alter (set_readyState CLOSED) ws (connections s))
                           (next_ref s)
     | None => update_connection ws (set_readyState CLOSED) s
     end, []).
Proof.
  intros Halive. unfold step, run_handler, on_close. rewrite Halive.
  rewrite delete_client_run. rewrite lookup_update_connection.
  rewrite decide_True by reflexivity.
  destruct (connections s !! ws) as [ conn | ]; reflexivity.
Qed.

Lemma step_error (ws : WebSocket) (e : error) (s : server) :
  alive s ws = true ->
  step (EError ws e) s
  = (match connections s !! ws ≫= client with
     | Some cl => mkServer (Set_delete cl (wsClients s))
                           (alter (set_readyState CLOSING) ws (connections s))
                           (next_ref s)
     | None => update_connection ws (set_readyState CLOSING) s
     end, [ConsoleError e]).
Proof.
  intros Halive. unfold step, run_handler, on_error. rewrite Halive.
  unfold mbind, M_bind, emit. rewrite delete_client_run.
  rewrite lookup_update_connection. rewrite decide_True by reflexivity.
  destruct (connections s !! ws) as [ conn | ]; reflexivity.
Qed.

(** No handler lets an exception escape: the message handler and the
    ingestion route catch what their bodies throw, the others throw nothing. *)
Lemma on_message_returns (ws : WebSocket) (data : string) (now : Z) (s : server) :
  exists s' o, on_message ws data now s = (Ok tt, s', o).
Proof.
  rewrite on_message_run.
  destruct (JSON_parse data) as [ message | ]; [ | eauto ].
  destruct (get_prop message "type") as [ type | e ]; [ | eauto ].
  destruct (strict_eq_string type "subscribe"); [ | eauto ].
  destruct (get_prop message "token") as [ token | e ]; [ | eauto ].
  destruct (truthy token); [ | eauto ].
  unfold caught. destruct (subscribe ws token now s) as [ [ [ [] | e ] s' ] o ]; eauto.
Qed.

Lemma on_ingest_returns (stored : result TelemetryLog.t) (s : server) :
  exists o, on_ingest stored s = (Ok tt, s, o).
Proof.
  unfold on_ingest, try_catch_M, lift, emit, get_server.
  destruct stored as [ log | e ]; [ | eexists; reflexivity ].
  unfold mbind, M_bind. cbv beta iota.
  rewrite forEach_deliver. cbv beta iota zeta.
  destruct (first_fault s _); eexists; reflexivity.
Qed.

Lemma on_connection_returns (s : server) :
  exists o, on_connection (accept s).1 (accept s).2 = (Ok tt, (accept s).2, o).
Proof.
  unfold on_connection. rewrite ws_send_run.
  unfold accept, send_fault_of. cbn [fst snd connections].
  rewrite lookup_app_r by reflexivity. rewrite Nat.sub_diag.
  eexists. reflexivity.
Qed.

Lemma subscribe_request_dec (data : string) :
  (exists token, subscribe_request data token)
  \/ (forall token, ~ subscribe_request data token).
Proof.
  unfold subscribe_request.
  destruct (JSON_parse data) as [ message | ] eqn:Hparse.
  - destruct (get_prop message "type") as [ type | e ] eqn:Htype.
    + destruct (strict_eq_string type "subscribe") eqn:Heq.
      * apply strict_eq_string_true in Heq. subst type.
        destruct (get_prop message "token") as [ token | e ] eqn:Htoken.
        -- left. exists token, message. tauto.
        -- destruct message; discriminate.
      * right. intros token (m & [= <-] & Ht & _).
        rewrite Htype in Ht. injection Ht as Ht. subst type.
        vm_compute in Heq. discriminate.
    + right. intros token (m & [= <-] & Ht & _). congruence.
  - right. intros token (m & Hm & _). discriminate.
Qed.

Lemma refused_or_accepted (token : jsval) (now : Z) :
  refused token now
  \/ exists w, Token.validateSocketToken token now
               = Ok (Token.mkValidation true (Some w))
               /\ truthy (Some w) = true.
Proof.
  destruct (validateSocketToken_returns token now) as [ [ v w ] Hr ].
  destruct v.
  - destruct (truthy w) eqn:Hw.
    + destruct w as [ w | ]; [ | discriminate ]. right. eauto.
    + left. exists (Token.mkValidation true w). auto.
  - left. exists (Token.mkValidation false w). auto.
Qed.

(** What a message can do to the server: nothing, start closing its socket,
    or register a client for the workspace its token validated to. *)
Lemma step_message_cases (ws : WebSocket) (data : string) (now : Z) (s : server) :
  (exists o, step (EMessage ws data now) s = (s, o)
             /\ forall x, In x o -> exists e, x = ConsoleError e)
  \/ (exists token,
        subscribe_request data token /\ truthy token = true /\ refused token now /\
        step (EMessage ws data now) s
        = (update_connection ws (set_readyState CLOSING) s,
           [Sent ws (JSON_stringify error_message_json); CloseCalled ws]))
  \/ (exists token w,
        subscribe_request data token /\ truthy token = true /\
        alive s ws = true /\
        Token.validateSocketToken token now = Ok (Token.mkValidation true (Some w)) /\
        truthy (Some w) = true /\
        step (EMessage ws data now) s
        = (mkServer (Set_add (mkClient (next_ref s) ws w) (wsClients s))
                    (alter (set_client (Some (mkClient (next_ref s) ws w))) ws
                           (connections s))
                    (S (next_ref s)),
           match send_fault_of s ws with
           | Some e => [ConsoleError e]
           | None =>
               if is_open s ws
               then [Sent ws (JSON_stringify (subscribed_message w))] else []
           end)).
Proof.
  destruct (subscribe_request_dec data) as [ [ token Hreq ] | Hno ];
    [ | left; apply step_message_other; exact Hno ].
  destruct (alive s ws) eqn:Halive.
  2:{ left. exists []. unfold step. rewrite Halive. split; [ reflexivity | intros x [] ]. }
  destruct (truthy token) eqn:Htruthy.
  2:{ left. exists []. rewrite (step_message_no_token _ _ _ _ _ Hreq Htruthy).
      split; [ reflexivity | intros x [] ]. }
  destruct (refused_or_accepted token now) as [ Hrefused | (w & Hvalid & Hw) ].
  - rewrite (step_message_refused _ _ _ _ _ Halive Hreq Htruthy Hrefused).
    destruct (send_fault_of s ws) as [ e | ].
    + left. exists [ConsoleError e]. split; [ reflexivity | ].
      intros x [ <- | [] ]. eauto.
    + destruct (is_open s ws).
      * right. left. exists token. tauto.
      * left. exists []. split; [ reflexivity | intros x [] ].
  - right. right. exists token, w.
    rewrite (step_message_accepted _ _ _ _ _ _ Halive Hreq Htruthy Hvalid Hw).
    tauto.
Qed.

(** Where a registry entry comes from: it was there before the step, or the
    step is the handshake of the entry. *)
Lemma step_origin (e : event) (s : server) (c : WebSocketClient) :
  In c (wsClients (step e s).1) ->
  In c (wsClients s)
  \/ (client_ref c = next_ref s /\ handshake [e] c
      /\ truthy (Some (workspaceId c)) = true).
Proof.
  destruct e as [ | ws data now | ws | ws e | ws e | stored ].
  - rewrite step_connection. simpl. tauto.
  - destruct (step_message_cases ws data now s)
      as [ (o & -> & _) | [ (token & _ & _ & _ & ->) | (token & w & Hreq & Htruthy & _ & Hvalid & Hw & ->) ] ];
      simpl; try tauto.
    intros Hin. apply Set_add_In in Hin. destruct Hin as [ Hin | -> ]; [ tauto | ].
    right. simpl. split; [ reflexivity | ]. split; [ | exact Hw ].
    exists data, now, token. simpl. tauto.
  - destruct (alive s ws) eqn:Halive.
    + rewrite (step_close _ _ Halive). simpl.
      destruct (connections s !! ws ≫= client); simpl; [ | tauto ].
      rewrite Set_delete_In. tauto.
    + unfold step. rewrite Halive. simpl. tauto.
  - destruct (alive s ws) eqn:Halive.
    + rewrite (step_error _ _ _ Halive). simpl.
      destruct (connections s !! ws ≫= client); simpl; [ | tauto ].
      rewrite Set_delete_In. tauto.
    + unfold step. rewrite Halive. simpl. tauto.
  - simpl. tauto.
  - destruct stored as [ log | e ].
    + rewrite step_ingest_stored. simpl. tauto.
    + rewrite step_ingest_failed. simpl. tauto.
Qed.

Lemma step_next_ref (e : event) (s : server) :
  (next_ref s <= next_ref (step e s).1)%nat.
Proof.
  destruct e as [ | ws data now | ws | ws e | ws e | stored ].
  - rewrite step_connection. simpl. lia.
  - destruct (step_message_cases ws data now s)
      as [ (o & -> & _) | [ (token & _ & _ & _ & ->) | (token & w & _ & _ & _ & _ & _ & ->) ] ];
      simpl; lia.
  - destruct (alive s ws) eqn:Halive.
    + rewrite (step_close _ _ Halive). simpl.
      destruct (connections s !! ws ≫= client); simpl; lia.
    + unfold step. rewrite Halive. simpl. lia.
  - destruct (alive s ws) eqn:Halive.
    + rewrite (step_error _ _ _ Halive). simpl.
      destruct (connections s !! ws ≫= client); simpl; lia.
    + unfold step. rewrite Halive. simpl. lia.
  - simpl. lia.
  - destruct stored as [ log | e ].
    + rewrite step_ingest_stored. simpl. lia.
    + rewrite step_ingest_failed. simpl. lia.
Qed.

Lemma step_fresh_refs (e : event) (s : server) :
  fresh_refs s -> fresh_refs (step e s).1.
Proof.
  intros Hs c Hc. pose proof (step_next_ref e s) as Hle.
  destruct e as [ | ws data now | ws | ws e | ws e | stored ];
    try (destruct (step_origin _ _ _ Hc) as [ Hold | (_ & (d & n & t & [ [=] | [] ] & _) & _) ];
         specialize (Hs _ Hold); lia).
  destruct (step_message_cases ws data now s)
    as [ (o & Hstep & _) | [ (token & _ & _ & _ & Hstep) | (token & w & _ & _ & _ & _ & _ & Hstep) ] ];
    rewrite Hstep in *; simpl in *.
  - specialize (Hs _ Hc). lia.
  - specialize (Hs _ Hc). lia.
  - apply Set_add_In in Hc. destruct Hc as [ Hc | -> ].
    + specialize (Hs _ Hc). lia.
    + simpl. lia.
Qed.

Lemma exec_snoc (evs : list event) (e : event) (s : server) :
  exec (evs ++ [e]) s = (step e (exec evs s)).1.
Proof.
  revert s. induction evs as [ | e' evs IH ]; intros s; simpl; [ reflexivity | ].
  apply IH.
Qed.

Lemma transcript_In (evs : list event) (s : server) (e : event) (o : list output) :
  In (e, o) (transcript evs s) ->
  exists before after,
    evs = before ++ e :: after /\ o = (step e (exec before s)).2.
Proof.
  revert s. induction evs as [ | e' evs IH ]; intros s; simpl; [ tauto | ].
  intros [ [= <- <-] | Hin ].
  - exists [], evs. split; reflexivity.
  - destruct (IH _ Hin) as (before & after & -> & ->).
    exists (e' :: before), after. split; reflexivity.
Qed.

Lemma reachable_fresh_refs (evs : list event) : fresh_refs (exec evs initial).
Proof.
  induction evs as [ | e evs IH ] using rev_ind.
  - intros c [].
  - rewrite exec_snoc. apply step_fresh_refs. exact IH.
Qed.

Lemma handshake_snoc (evs : list event) (e : event) (c : WebSocketClient) :
  handshake evs c \/ handshake [e] c -> handshake (evs ++ [e]) c.
Proof.
  intros [ (data & now & token & Hin & Hrest) | (data & now & token & Hin & Hrest) ];
    exists data, now, token; (split; [ | exact Hrest ]); apply in_or_app; tauto.
Qed.

Lemma registry_origin (evs : list event) (c : WebSocketClient) :
  In c (wsClients (exec evs initial)) ->
  handshake evs c /\ truthy (Some (workspaceId c)) = true.
Proof.
  induction evs as [ | e evs IH ] using rev_ind; [ intros [] | ].
  rewrite exec_snoc. intros Hc.
  destruct (step_origin _ _ _ Hc) as [ Hold | (_ & Hnew & Hw) ].
  - destruct (IH Hold) as [ Hhs Hw ]. split; [ | exact Hw ].
    apply handshake_snoc. left. exact Hhs.
  - split; [ | exact Hw ]. apply handshake_snoc. right. exact Hnew.
Qed.

(** Who a step sends frames to: the socket it accepted, the socket whose
    subscribe request it handled, or the socket of a registry entry. *)
Lemma step_sent (e : event) (s : server) (ws : WebSocket) (payload : string) :
  In (Sent ws payload) (step e s).2 ->
  (e = EConnection /\ payload = JSON_stringify connected_message)
  \/ (exists data now token, e = EMessage ws data now /\ subscribe_request data token)
  \/ (exists log c, e = EIngest (Ok log) /\ In c (wsClients s) /\ socket c = ws
                    /\ payload = JSON_stringify (new_log_message log)).
Proof.
  destruct e as [ | ws' data now | ws' | ws' e | ws' e | stored ].
  - rewrite step_connection. cbn [snd]. intros [ [= <- <-] | [] ]. left. tauto.
  - destruct (step_message_cases ws' data now s)
      as [ (o & -> & Ho) | [ (token & Hreq & _ & _ & ->) | (token & w & Hreq & _ & _ & _ & _ & ->) ] ];
      cbn [snd]; intros Hsent.
    + destruct (Ho _ Hsent) as (e & [=]).
    + destruct Hsent as [ [= <- _] | [ [=] | [] ] ]. right. left. eauto.
    + destruct (send_fault_of s ws'); [ destruct Hsent as [ [=] | [] ] | ].
      destruct (is_open s ws'); [ | destruct Hsent ].
      destruct Hsent as [ [= <- _] | [] ]. right. left. eauto.
  - destruct (alive s ws') eqn:Halive.
    + rewrite (step_close _ _ Halive). intros [].
    + unfold step. rewrite Halive. intros [].
  - destruct (alive s ws') eqn:Halive.
    + rewrite (step_error _ _ _ Halive). intros [ [=] | [] ].
    + unfold step. rewrite Halive. intros [].
  - intros [].
  - destruct stored as [ log | e ].
    + rewrite step_ingest_stored. cbn [snd]. intros Hsent.
      apply in_app_or in Hsent. destruct Hsent as [ Hsent | [ Hsent | [] ] ].
      * apply in_map_iff in Hsent. destruct Hsent as (c & [= <- <-] & Hc).
        apply served_sublist, recipients_spec in Hc. right. right.
        exists log, c. tauto.
      * destruct (first_fault s (recipients s log)); discriminate Hsent.
    + rewrite step_ingest_failed. intros [ [=] | [] ].
Qed.

(** C5.  In every state the server can reach, every registry entry has its
    handshake in the past: a subscribe message on the entry's socket whose
    token validated to the entry's workspace, which is a truthy value.  So a
    socket without a completed handshake has no entry. *)
Theorem registry_entries_authenticated (evs : list event) :
  (forall c, In c (wsClients (exec evs initial)) ->
     handshake evs c /\ truthy (Some (workspaceId c)) = true)
  /\
  (forall ws, (forall c, socket c = ws -> ~ handshake evs c) ->
     forall c, In c (wsClients (exec evs initial)) -> socket c <> ws).
Proof.
  split.
  - intros c Hc. apply registry_origin. exact Hc.
  - intros ws Hnone c Hc Hws. apply (Hnone c Hws). apply registry_origin. exact Hc.
Qed.

(** C6, as the code has it.  When no send raises, every recipient is handed
    the message and the response is 201 with the record.  A send that raises
    leaves the loop: the recipients after it are not attempted, and the
    exception reaches the [catch] of the route, which answers 400 with the
    message of the error.  The server state is the same in both cases.  A
    failure the transport reports afterwards, through the [error] event of
    one socket, removes at most the entry that socket's [client] variable
    holds and answers nobody. *)
Theorem broadcast_failure_handling (s : server) (log : TelemetryLog.t) :
  let message := JSON_stringify (new_log_message log) in
  ((forall c, In c (recipients s log) -> send_fault_of s (socket c) = None) ->
   step (EIngest (Ok log)) s
   = (s, map (frame message) (recipients s log)
         ++ [Response 201 (TelemetryLog.toJSON log)]))
  /\
  (forall before c after e,
     recipients s log = before ++ c :: after ->
     (forall c', In c' before -> send_fault_of s (socket c') = None) ->
     send_fault_of s (socket c) = Some e ->
     step (EIngest (Ok log)) s
     = (s, map (frame message) before
           ++ [Response 400 (JObj [("error", JStr (error_message e))])]))
  /\
  (forall ws e c,
     In c (wsClients s) ->
     (forall cl, connections s !! ws ≫= client = Some cl ->
                 client_ref cl <> client_ref c) ->
     In c (wsClients (step (EError ws e) s).1)
     /\ forall status body, ~ In (Response status body) (step (EError ws e) s).2).
Proof.
  intros message. split; [ | split ].
  - intros Hhealthy. rewrite step_ingest_stored.
    destruct (served_healthy s (recipients s log) Hhealthy) as [ -> -> ].
    reflexivity.
  - intros before c after e Hsplit Hbefore Hc. rewrite step_ingest_stored.
    rewrite Hsplit.
    destruct (served_until_fault s before after c e Hbefore Hc) as [ -> -> ].
    reflexivity.
  - intros ws e c Hc Hother. destruct (alive s ws) eqn:Halive.
    + rewrite (step_error _ _ _ Halive). cbn [fst snd]. split.
      * destruct (connections s !! ws ≫= client) as [ cl | ]; [ | exact Hc ].
        cbn [wsClients]. apply Set_delete_In. split; [ exact Hc | ].
        intros Href. exact (Hother cl eq_refl (eq_sym Href)).
      * intros status body [ [=] | [] ].
    + unfold step. rewrite Halive. cbn [fst snd]. split; [ exact Hc | intros ? ? [] ].
Qed.

(** C7.  A connection that never sends a subscribe message is never sent a
    frame by a fan-out, however many records are ingested; the only frame it
    is ever sent is the greeting of its own [connection] event. *)
Theorem no_broadcast_without_subscribe (evs : list event) (ws : WebSocket) :
  (forall data now token,
     In (EMessage ws data now) evs -> ~ subscribe_request data token) ->
  (forall stored o, In (EIngest stored, o) (transcript evs initial) ->
     forall payload, ~ In (Sent ws payload) o)
  /\
  (forall e o payload, In (e, o) (transcript evs initial) ->
     In (Sent ws payload) o ->
     e = EConnection /\ payload = JSON_stringify connected_message).
Proof.
  intros Hnever.
  assert (forall e o payload, In (e, o) (transcript evs initial) ->
            In (Sent ws payload) o ->
            e = EConnection /\ payload = JSON_stringify connected_message) as Hall.
  { intros e o payload Hin Hsent.
    destruct (transcript_In _ _ _ _ Hin) as (before & after & -> & ->).
    destruct (step_sent _ _ _ _ Hsent)
      as [ Hconn | [ (data & now & token & -> & Hreq) | (log & c & -> & Hc & Hws & _) ] ].
    - exact Hconn.
    - destruct (Hnever data now token); [ | exact Hreq ].
      apply in_or_app. right. left. reflexivity.
    - destruct (registry_origin _ _ Hc) as [ (data & now & token & Hmsg & Hreq & _) _ ].
      rewrite Hws in Hmsg. destruct (Hnever data now token); [ | exact Hreq ].
      apply in_or_app. left. exact Hmsg. }
  split; [ | exact Hall ].
  intros stored o Hin payload Hsent.
  destruct (Hall _ _ _ Hin Hsent) as [ [=] _ ].
Qed.


(** C10.  A connection that already has a registry entry and sends another
    valid subscribe message gets a second entry, appended to the registry,
    while the first one stays; its [client] variable now holds the second.
    When the socket then closes, or reports an error, only the second entry
    is deleted: the registry is again what it was before the second
    subscribe, first entry included. *)
Theorem second_subscribe_adds_entry (evs : list event) (ws : WebSocket)
    (c1 : WebSocketClient) (data : string) (token : jsval) (now : Z) (w : json)
    (e : error) :
  let s := exec evs initial in
  alive s ws = true ->
  connections s !! ws ≫= client = Some c1 ->
  In c1 (wsClients s) ->
  subscribe_request data token ->
  truthy token = true ->
  Token.validateSocketToken token now = Ok (Token.mkValidation true (Some w)) ->
  truthy (Some w) = true ->
  let c2 := mkClient (next_ref s) ws w in
  let s' := (step (EMessage ws data now) s).1 in
  wsClients s' = wsClients s ++ [c2]
  /\ In c1 (wsClients s') /\ In c2 (wsClients s')
  /\ client_ref c2 <> client_ref c1
  /\ connections s' !! ws ≫= client = Some c2
  /\ wsClients (step (EClose ws) s').1 = wsClients s
  /\ wsClients (step (EError ws e) s').1 = wsClients s
  /\ In c1 (wsClients (step (EClose ws) s').1)
  /\ ~ In c2 (wsClients (step (EClose ws) s').1).
Proof.
  intros s Halive Hclient Hc1 Hreq Htruthy Hvalid Hw c2 s'.
  pose proof (reachable_fresh_refs evs) as Hfresh. fold s in Hfresh.
  assert (forall c, In c (wsClients s) -> client_ref c <> client_ref c2) as Hnew.
  { intros c Hc. specialize (Hfresh c Hc). simpl. lia. }
  assert (s' = mkServer (wsClients s ++ [c2])
                        (alter (set_client (Some c2)) ws (connections s))
                        (S (next_ref s))) as Hs'.
  { subst s'. rewrite (step_message_accepted _ _ _ _ _ _ Halive Hreq Htruthy Hvalid Hw).
    cbn [fst]. fold c2. rewrite (Set_add_fresh _ _ Hnew). reflexivity. }
  assert (alive s' ws = true) as Halive'.
  { rewrite Hs'. unfold alive in *. cbn [connections].
    rewrite list_lookup_alter_eq. destruct (connections s !! ws); [ exact Halive | discriminate ]. }
  assert (connections s' !! ws ≫= client = Some c2) as Hclient'.
  { rewrite Hs'. cbn [connections]. rewrite list_lookup_alter_eq.
    destruct (connections s !! ws); [ reflexivity | discriminate ]. }
  assert (wsClients (step (EClose ws) s').1 = wsClients s) as Hclose.
  { rewrite (step_close _ _ Halive'), Hclient'. cbn [fst wsClients].
    rewrite Hs'. cbn [wsClients]. apply Set_delete_fresh. exact Hnew. }
  assert (wsClients (step (EError ws e) s').1 = wsClients s) as Herror.
  { rewrite (step_error _ _ _ Halive'), Hclient'. cbn [fst wsClients].
    rewrite Hs'. cbn [wsClients]. apply Set_delete_fresh. exact Hnew. }
  rewrite Hclose, Herror. rewrite Hs' at 1 2 3. cbn [wsClients].
  repeat split; try assumption; try reflexivity.
  - apply in_or_app. left. exact Hc1.
  - apply in_or_app. right. left. reflexivity.
  - intros Href. exact (Hnew c1 Hc1 (eq_sym Href)).
  - intros Hc2. exact (Hnew c2 Hc2 eq_refl).
Qed.

End RunProperties.

(** ** The theorems on the scenario *)

Lemma no_broadcast_without_subscribe_witness :
  let evs := [EConnection; EConnection;
              EMessage 1 (Scenario.subscribe_text (Scenario.token_for "W1")) 1000;
              EMessage 0 "hello" 1000;
              EIngest (Ok Scenario.r1); EIngest (Ok Scenario.r1)] in
  (forall stored o, In (EIngest stored, o) (transcript evs initial) ->
     forall payload, ~ In (Sent 0 payload) o)
  /\
  (forall e o payload, In (e, o) (transcript evs initial) ->
     In (Sent 0 payload) o ->
     e = EConnection /\ payload = JSON_stringify connected_message).
Proof.
  intros evs. apply (no_broadcast_without_subscribe evs 0).
  intros data now token Hin (message & Hparse & _).
  destruct Hin as [ H | [ H | [ H | [ H | [ H | [ H | [] ] ] ] ] ] ];
    try discriminate H.
  injection H as <- <-. vm_compute in Hparse. discriminate Hparse.
Defined.


(** One socket, subscribed for W1 and then for W2: two entries; closing the
    socket removes the second and leaves the first. *)
Lemma second_subscribe_adds_entry_witness :
  let evs := [EConnection;
              EMessage 0 (Scenario.subscribe_text (Scenario.token_for "W1")) 1000] in
  let s := exec evs initial in
  let c1 := mkClient 0 0 (JStr "W1") in
  let c2 := mkClient 1 0 (JStr "W2") in
  let s' := (step (EMessage 0 (Scenario.subscribe_text (Scenario.token_for "W2")) 2000) s).1 in
  wsClients s = [c1]
  /\ wsClients s' = [c1; c2]
  /\ wsClients (step (EClose 0) s').1 = [c1].
Proof.
  intros evs s c1 c2 s'.
  destruct (second_subscribe_adds_entry evs 0 c1
              (Scenario.subscribe_text (Scenario.token_for "W2"))
              (Some (Scenario.token_for "W2")) 2000 (JStr "W2") Scenario.broken_pipe)
    as (Hadd & _ & _ & _ & _ & Hclose & _).
  - reflexivity.
  - reflexivity.
  - left. reflexivity.
  - exists (JObj [("type", JStr "subscribe"); ("token", Scenario.token_for "W2")]).
    repeat split; vm_compute; reflexivity.
  - reflexivity.
  - vm_compute. reflexivity.
  - reflexivity.
  - fold s s' in Hadd, Hclose. rewrite Hclose, Hadd.
    repeat split; reflexivity.
Defined.

(** * Properties of the routes and of the agent *)

(** ** The CSV export *)

Lemma crlf_to_lf_other (c : ascii) (r : string) :
  Ascii.eqb c Csv.CR = false ->
  Csv.crlf_to_lf (String c r) = String c (Csv.crlf_to_lf r).
Proof.
  intros Hc. destruct r as [ | c' r ]; [ reflexivity | ].
  cbn [Csv.crlf_to_lf]. rewrite Hc. reflexivity.
Qed.

Lemma cr_free_cr_to_lf (s : string) : cr_free (Csv.cr_to_lf s) = true.
Proof.
  induction s as [ | c s IH ]; [ reflexivity | ].
  cbn [Csv.cr_to_lf cr_free]. rewrite IH.
  destruct (Ascii.eqb c Csv.CR) eqn:Hc; [ reflexivity | rewrite Hc; reflexivity ].
Qed.

Lemma cr_to_lf_cr_free (s : string) : cr_free s = true -> Csv.cr_to_lf s = s.
Proof.
  induction s as [ | c s IH ]; [ reflexivity | ].
  cbn [Csv.cr_to_lf cr_free]. intros Hs. apply andb_true_iff in Hs.
  destruct Hs as [ Hc Hs ]. apply negb_true_iff in Hc.
  rewrite Hc, IH by exact Hs. reflexivity.
Qed.

Lemma crlf_to_lf_cr_free (s : string) : cr_free s = true -> Csv.crlf_to_lf s = s.
Proof.
  induction s as [ | c s IH ]; [ reflexivity | ].
  cbn [cr_free]. intros Hs. apply andb_true_iff in Hs.
  destruct Hs as [ Hc Hs ]. apply negb_true_iff in Hc.
  rewrite crlf_to_lf_other, IH by assumption. reflexivity.
Qed.

Lemma crlf_only_lf_to_crlf (s : string) :
  cr_free s = true -> crlf_only (Csv.lf_to_crlf s) = true.
Proof.
  induction s as [ | c s IH ]; [ reflexivity | ].
  cbn [cr_free Csv.lf_to_crlf]. intros Hs. apply andb_true_iff in Hs.
  destruct Hs as [ Hc Hs ]. apply negb_true_iff in Hc.
  destruct (Ascii.eqb c Csv.LF) eqn:Hlf.
  - cbn [crlf_only]. rewrite IH by exact Hs. reflexivity.
  - cbn [crlf_only]. rewrite Hc, Hlf, IH by exact Hs. reflexivity.
Qed.

Lemma crlf_to_lf_lf_to_crlf (s : string) :
  cr_free s = true -> Csv.crlf_to_lf (Csv.lf_to_crlf s) = s.
Proof.
  induction s as [ | c s IH ]; [ reflexivity | ].
  cbn [cr_free Csv.lf_to_crlf]. intros Hs. apply andb_true_iff in Hs.
  destruct Hs as [ Hc Hs ]. apply negb_true_iff in Hc.
  destruct (Ascii.eqb c Csv.LF) eqn:Hlf.
  - apply Ascii.eqb_eq in Hlf. subst c.
    cbn [Csv.crlf_to_lf]. rewrite !Ascii.eqb_refl. cbn [andb].
    rewrite IH by exact Hs. reflexivity.
  - rewrite crlf_to_lf_other, IH by assumption. reflexivity.
Qed.

Lemma lf_to_crlf_one_line (s : string) : one_line s = true -> Csv.lf_to_crlf s = s.
Proof.
  induction s as [ | c s IH ]; [ reflexivity | ].
  cbn [one_line Csv.lf_to_crlf]. intros Hs.
  apply andb_true_iff in Hs. destruct Hs as [ Hc Hs ].
  apply andb_true_iff in Hc. destruct Hc as [ _ Hlf ]. apply negb_true_iff in Hlf.
  rewrite Hlf, IH by exact Hs. reflexivity.
Qed.

Lemma one_line_cr_free (s : string) : one_line s = true -> cr_free s = true.
Proof.
  induction s as [ | c s IH ]; [ reflexivity | ].
  cbn [one_line cr_free]. intros Hs.
  apply andb_true_iff in Hs. destruct Hs as [ Hc Hs ].
  apply andb_true_iff in Hc. destruct Hc as [ Hcr _ ].
  rewrite Hcr, IH by exact Hs. reflexivity.
Qed.

Lemma string_pair_ind (Q : string -> Prop) :
  Q EmptyString ->
  (forall c, Q (String c EmptyString)) ->
  (forall c c' s, Q s -> Q (String c' s) -> Q (String c (String c' s))) ->
  forall s, Q s.
Proof.
  intros Hnil Hone Hstep s.
  assert (Q s /\ forall c, Q (String c s)) as [ Hs _ ]; [ | exact Hs ].
  induction s as [ | c' s [ IHs IHc ] ].
  - split; [ exact Hnil | exact Hone ].
  - split; [ apply IHc | ]. intros c. apply Hstep; [ exact IHs | apply IHc ].
Qed.

Lemma text_lines_cons (s : string) : exists line lines, text_lines s = line :: lines.
Proof.
  destruct s as [ | c rest ]; [ eauto | ]. cbn [text_lines].
  destruct (Ascii.eqb c Csv.CR).
  - destruct rest as [ | c' rest' ]; [ eauto | ]. destruct (Ascii.eqb c' Csv.LF); eauto.
  - destruct (Ascii.eqb c Csv.LF); [ eauto | ]. destruct (text_lines rest); eauto.
Qed.

Lemma text_lines_break (s : string) :
  text_lines (Csv.CRLF +:+ s) = EmptyString :: text_lines s.
Proof. reflexivity. Qed.

Lemma text_lines_CRLF (s : string) :
  text_lines (String Csv.CR (String Csv.LF s)) = EmptyString :: text_lines s.
Proof. reflexivity. Qed.

Lemma text_lines_CR (s : string) :
  match s with
  | String c' _ => Ascii.eqb c' Csv.LF = false
  | EmptyString => True
  end ->
  text_lines (String Csv.CR s) = EmptyString :: text_lines s.
Proof.
  destruct s as [ | c' s ]; [ reflexivity | ]. intros Hc'.
  change (text_lines (String Csv.CR (String c' s)))
    with (if Ascii.eqb c' Csv.LF then EmptyString :: text_lines s
          else EmptyString :: text_lines (String c' s)).
  rewrite Hc'. reflexivity.
Qed.

Lemma text_lines_LF (s : string) :
  text_lines (String Csv.LF s) = EmptyString :: text_lines s.
Proof. reflexivity. Qed.

Lemma text_lines_other (c : ascii) (s : string) :
  Ascii.eqb c Csv.CR = false -> Ascii.eqb c Csv.LF = false ->
  text_lines (String c s)
  = match text_lines s with
    | line :: lines => String c line :: lines
    | [] => [String c EmptyString]
    end.
Proof. intros Hcr Hlf. cbn [text_lines]. rewrite Hcr, Hlf. reflexivity. Qed.

(** The text of the lines of [s] joined by CRLF. *)
Lemma joined_break (s : string) :
  String.concat Csv.CRLF (EmptyString :: text_lines s)
  = Csv.CRLF +:+ String.concat Csv.CRLF (text_lines s).
Proof.
  destruct (text_lines_cons s) as (line & lines & ->). reflexivity.
Qed.

Lemma joined_other (c : ascii) (s : string) :
  String.concat Csv.CRLF
    (match text_lines s with
     | line :: lines => String c line :: lines
     | [] => [String c EmptyString]
     end)
  = String c (String.concat Csv.CRLF (text_lines s)).
Proof.
  destruct (text_lines_cons s) as (line & lines & ->).
  destruct lines; reflexivity.
Qed.

Lemma normalize_break (s : string) :
  Csv.normalize (String Csv.LF s) = Csv.CRLF +:+ Csv.normalize s.
Proof.
  unfold Csv.normalize. rewrite crlf_to_lf_other by reflexivity. reflexivity.
Qed.

Lemma normalize_CRLF (s : string) :
  Csv.normalize (String Csv.CR (String Csv.LF s)) = Csv.CRLF +:+ Csv.normalize s.
Proof. reflexivity. Qed.

Lemma normalize_CR (s : string) :
  match s with
  | String c' _ => Ascii.eqb c' Csv.LF = false
  | EmptyString => True
  end ->
  Csv.normalize (String Csv.CR s) = Csv.CRLF +:+ Csv.normalize s.
Proof.
  destruct s as [ | c' s ]; [ reflexivity | ]. intros Hc'.
  unfold Csv.normalize. cbn [Csv.crlf_to_lf]. rewrite Hc'. reflexivity.
Qed.

Lemma normalize_other (c : ascii) (s : string) :
  Ascii.eqb c Csv.CR = false -> Ascii.eqb c Csv.LF = false ->
  Csv.normalize (String c s) = String c (Csv.normalize s).
Proof.
  intros Hcr Hlf. unfold Csv.normalize. rewrite crlf_to_lf_other by exact Hcr.
  cbn [Csv.cr_to_lf Csv.lf_to_crlf]. rewrite Hcr, Hlf. reflexivity.
Qed.

Lemma normalize_lines (s : string) :
  Csv.normalize s = String.concat Csv.CRLF (text_lines s).
Proof.
  induction s as [ | c | c c' s IHs IHc ] using string_pair_ind.
  - reflexivity.
  - destruct (Ascii.eqb c Csv.CR) eqn:Hcr.
    + apply Ascii.eqb_eq in Hcr. subst c. reflexivity.
    + destruct (Ascii.eqb c Csv.LF) eqn:Hlf.
      * apply Ascii.eqb_eq in Hlf. subst c. reflexivity.
      * rewrite normalize_other, text_lines_other by assumption. reflexivity.
  - destruct (Ascii.eqb c Csv.CR) eqn:Hcr.
    + apply Ascii.eqb_eq in Hcr. subst c.
      destruct (Ascii.eqb c' Csv.LF) eqn:Hlf.
      * apply Ascii.eqb_eq in Hlf. subst c'.
        rewrite normalize_CRLF, text_lines_CRLF, joined_break, IHs. reflexivity.
      * rewrite normalize_CR, text_lines_CR by exact Hlf.
        rewrite joined_break, IHc. reflexivity.
    + destruct (Ascii.eqb c Csv.LF) eqn:Hlf.
      * apply Ascii.eqb_eq in Hlf. subst c.
        rewrite normalize_break, text_lines_LF, joined_break, IHc. reflexivity.
      * rewrite normalize_other, text_lines_other by assumption.
        rewrite joined_other, IHc. reflexivity.
Qed.

Lemma text_lines_one_line (s : string) :
  Forall (fun line => one_line line = true) (text_lines s).
Proof.
  induction s as [ | c | c c' s IHs IHc ] using string_pair_ind.
  - repeat constructor.
  - destruct (Ascii.eqb c Csv.CR) eqn:Hcr.
    + apply Ascii.eqb_eq in Hcr. subst c. repeat constructor.
    + destruct (Ascii.eqb c Csv.LF) eqn:Hlf.
      * apply Ascii.eqb_eq in Hlf. subst c. repeat constructor.
      * rewrite text_lines_other by assumption. repeat constructor.
        cbn [one_line]. rewrite Hcr, Hlf. reflexivity.
  - destruct (Ascii.eqb c Csv.CR) eqn:Hcr.
    + apply Ascii.eqb_eq in Hcr. subst c.
      destruct (Ascii.eqb c' Csv.LF) eqn:Hlf.
      * apply Ascii.eqb_eq in Hlf. subst c'.
        rewrite text_lines_CRLF. constructor; [ reflexivity | exact IHs ].
      * rewrite text_lines_CR by exact Hlf. constructor; [ reflexivity | exact IHc ].
    + destruct (Ascii.eqb c Csv.LF) eqn:Hlf.
      * apply Ascii.eqb_eq in Hlf. subst c. rewrite text_lines_LF.
        constructor; [ reflexivity | exact IHc ].
      * rewrite text_lines_other by assumption.
        destruct (text_lines_cons (String c' s)) as (line & lines & Hlines).
        rewrite Hlines in *. inversion IHc as [ | ? ? Hline Hrest ]; subst.
        constructor; [ | exact Hrest ].
        cbn [one_line]. rewrite Hcr, Hlf, Hline. reflexivity.
Qed.

Lemma text_lines_normalize (s : string) : text_lines (Csv.normalize s) = text_lines s.
Proof.
  induction s as [ | c | c c' s IHs IHc ] using string_pair_ind.
  - reflexivity.
  - destruct (Ascii.eqb c Csv.CR) eqn:Hcr.
    + apply Ascii.eqb_eq in Hcr. subst c. reflexivity.
    + destruct (Ascii.eqb c Csv.LF) eqn:Hlf.
      * apply Ascii.eqb_eq in Hlf. subst c. reflexivity.
      * rewrite normalize_other by assumption. reflexivity.
  - destruct (Ascii.eqb c Csv.CR) eqn:Hcr.
    + apply Ascii.eqb_eq in Hcr. subst c.
      destruct (Ascii.eqb c' Csv.LF) eqn:Hlf.
      * apply Ascii.eqb_eq in Hlf. subst c'.
        rewrite normalize_CRLF, text_lines_break, text_lines_CRLF, IHs. reflexivity.
      * rewrite normalize_CR, (text_lines_CR (String c' s)) by exact Hlf.
        rewrite text_lines_break, IHc. reflexivity.
    + destruct (Ascii.eqb c Csv.LF) eqn:Hlf.
      * apply Ascii.eqb_eq in Hlf. subst c.
        rewrite normalize_break, text_lines_break, text_lines_LF, IHc. reflexivity.
      * rewrite normalize_other by assumption.
        rewrite !text_lines_other by assumption. rewrite IHc. reflexivity.
Qed.

(** X1.  Line endings of an exported field.  The three replacements of
    [escapeCSVField] keep the lines of a value and end each of them, but
    the last, with CRLF: the result is the lines of the value, cut at every
    CRLF, lone CR and lone LF, joined by CRLF.  So it has the same lines as
    the value, all its line breaks are CRLF, the replacements change
    nothing when applied again, and nothing at all in a value without line
    breaks. *)
Theorem csv_line_endings_normalized (s : string) :
  Csv.normalize s = String.concat Csv.CRLF (text_lines s)
  /\ Forall (fun line => one_line line = true) (text_lines s)
  /\ text_lines (Csv.normalize s) = text_lines s
  /\ crlf_only (Csv.normalize s) = true
  /\ Csv.normalize (Csv.normalize s) = Csv.normalize s
  /\ (one_line s = true -> Csv.normalize s = s).
Proof.
  split; [ apply normalize_lines | ].
  split; [ apply text_lines_one_line | ].
  split; [ apply text_lines_normalize | ].
  unfold Csv.normalize. split; [ | split ].
  - apply crlf_only_lf_to_crlf, cr_free_cr_to_lf.
  - rewrite crlf_to_lf_lf_to_crlf by apply cr_free_cr_to_lf.
    rewrite (cr_to_lf_cr_free (Csv.cr_to_lf _)) by apply cr_free_cr_to_lf.
    reflexivity.
  - intros Hs. pose proof (one_line_cr_free s Hs) as Hcr.
    rewrite crlf_to_lf_cr_free, cr_to_lf_cr_free by assumption.
    apply lf_to_crlf_one_line, Hs.
Qed.

(** *** Reading the export back *)

Lemma read_from_app (a b : string) (st : CsvReader.state) :
  CsvReader.read_from st (a +:+ b) = CsvReader.read_from (CsvReader.read_from st a) b.
Proof.
  revert st. induction a as [ | c a IH ]; intros st; [ reflexivity | ].
  simpl. apply IH.
Qed.

Lemma read_from_double_quotes (body acc : string) (rows : list (list string))
    (cells : list string) :
  CsvReader.read_from (CsvReader.mk rows cells acc CsvReader.InQuotes)
                      (Csv.double_quotes body)
  = CsvReader.mk rows cells (acc +:+ body) CsvReader.InQuotes.
Proof.
  revert acc. induction body as [ | c body IH ]; intros acc.
  - simpl. rewrite append_empty_r. reflexivity.
  - cbn [Csv.double_quotes]. destruct (Ascii.eqb c Csv.quote) eqn:Hc.
    + apply Ascii.eqb_eq in Hc. subst c.
      cbn [CsvReader.read_from CsvReader.step]. rewrite !Ascii.eqb_refl.
      cbn [CsvReader.step]. rewrite !Ascii.eqb_refl. rewrite IH.
      unfold CsvReader.snoc. rewrite append_assoc. reflexivity.
    + cbn [CsvReader.read_from CsvReader.step]. rewrite Hc, IH.
      unfold CsvReader.snoc. rewrite append_assoc. reflexivity.
Qed.

Section CsvProperties.
Variable Date_toString : string -> string.

Lemma read_from_field (f : Csv.field) (rows : list (list string)) (cells : list string) :
  CsvReader.read_from (CsvReader.mk rows cells EmptyString CsvReader.FieldStart)
                      (Csv.escapeCSVField Date_toString f)
  = CsvReader.mk rows cells (cell_of Date_toString f) CsvReader.AfterQuote.
Proof.
  assert (forall body,
    CsvReader.read_from (CsvReader.mk rows cells EmptyString CsvReader.FieldStart)
      (String Csv.quote (Csv.double_quotes body +:+ String Csv.quote EmptyString))
    = CsvReader.mk rows cells body CsvReader.AfterQuote) as Hbody.
  { intros body. cbn [CsvReader.read_from]. unfold CsvReader.step at 1.
    rewrite Ascii.eqb_refl, read_from_app, read_from_double_quotes.
    reflexivity. }
  destruct f; try apply Hbody. reflexivity.
Qed.

Lemma read_from_fields (f : Csv.field) (fs : list Csv.field)
    (rows : list (list string)) (cells : list string) :
  CsvReader.read_from (CsvReader.mk rows cells EmptyString CsvReader.FieldStart)
    (String.concat "," (map (Csv.escapeCSVField Date_toString) (f :: fs)) +:+ Csv.CRLF)
  = CsvReader.mk (rows ++ [cells ++ map (cell_of Date_toString) (f :: fs)]) []
                 EmptyString CsvReader.FieldStart.
Proof.
  revert f cells. induction fs as [ | g fs IH ]; intros f cells.
  - cbn [map String.concat]. rewrite read_from_app, read_from_field. reflexivity.
  - change (map (Csv.escapeCSVField Date_toString) (f :: g :: fs))
      with (Csv.escapeCSVField Date_toString f
            :: map (Csv.escapeCSVField Date_toString) (g :: fs)).
    cbn [String.concat].
    change (map (Csv.escapeCSVField Date_toString) (g :: fs))
      with (Csv.escapeCSVField Date_toString g
            :: map (Csv.escapeCSVField Date_toString) fs) at 1.
    cbv beta iota.
    rewrite !append_assoc, read_from_app, read_from_field.
    change ("," +:+ ?x) with (String Csv.comma x).
    cbn [CsvReader.read_from]. unfold CsvReader.step at 1.
    change (Ascii.eqb Csv.comma Csv.quote) with false.
    change (Ascii.eqb Csv.comma Csv.comma) with true. cbv iota.
    rewrite IH. rewrite <- app_assoc. reflexivity.
Qed.

Lemma read_from_lines (r : list Csv.field) (rs : list (list Csv.field))
    (rows : list (list string)) :
  Forall (fun r => r <> []) (r :: rs) ->
  CsvReader.read_from (CsvReader.mk rows [] EmptyString CsvReader.FieldStart)
    (String.concat Csv.CRLF
       (map (fun r => String.concat "," (map (Csv.escapeCSVField Date_toString) r))
            (r :: rs))
     +:+ Csv.CRLF)
  = CsvReader.mk (rows ++ map (map (cell_of Date_toString)) (r :: rs)) []
                 EmptyString CsvReader.FieldStart.
Proof.
  revert r rows. induction rs as [ | r' rs IH ]; intros r rows Hne.
  - destruct r as [ | f fs ]; [ inversion Hne; congruence | ].
    change (String.concat Csv.CRLF (map ?line [f :: fs])) with (line (f :: fs)).
    cbv beta. rewrite read_from_fields. reflexivity.
  - destruct r as [ | f fs ]; [ inversion Hne; congruence | ].
    inversion Hne as [ | ? ? _ Hrest ]; subst.
    set (line := fun r => String.concat "," (map (Csv.escapeCSVField Date_toString) r)) in *.
    change (map line ((f :: fs) :: r' :: rs)) with (line (f :: fs) :: map line (r' :: rs)).
    cbn [String.concat].
    change (map line (r' :: rs)) with (line r' :: map line rs) at 1. cbv beta iota.
    rewrite !append_assoc. rewrite <- (append_assoc (line (f :: fs)) Csv.CRLF).
    rewrite read_from_app. unfold line at 1. rewrite read_from_fields.
    rewrite (IH r' _ Hrest). rewrite <- app_assoc. reflexivity.
Qed.

(** Where the reader stands at the end of the export. *)
Lemma read_from_export (logs : list TelemetryLog.t) :
  CsvReader.read_from CsvReader.start (Csv.export Date_toString logs)
  = CsvReader.mk
      (Csv.headers :: map (fun log => map (cell_of Date_toString) (Csv.row log)) logs)
      [] EmptyString CsvReader.FieldStart.
Proof.
  unfold Csv.export, Csv.csvRows, CsvReader.start.
  change (String.concat ","
            (map (fun h => String Csv.quote (h +:+ String Csv.quote EmptyString))
                 Csv.headers))
    with (String.concat ","
            (map (Csv.escapeCSVField Date_toString) (map Csv.Text Csv.headers))).
  rewrite <- (map_map Csv.row
                (fun r => String.concat "," (map (Csv.escapeCSVField Date_toString) r))).
  change (?h :: map ?line (map Csv.row logs))
    with (map line (map Csv.Text Csv.headers :: map Csv.row logs)).
  rewrite read_from_lines.
  - cbn [app].
    change (map (map (cell_of Date_toString)) (?a :: ?b))
      with (map (cell_of Date_toString) a :: map (map (cell_of Date_toString)) b).
    rewrite (map_map Csv.row). reflexivity.
  - constructor; [ discriminate | ].
    apply List.Forall_forall. intros r Hr. apply in_map_iff in Hr.
    destruct Hr as (log & <- & _). discriminate.
Qed.

(** X2.  The export reads back.  A reader of CSV finds in the text of the
    export the record of the ten column names and then, for each log in
    order, one record of ten fields: the id, the date as the host prints
    it, the project (empty when there is none), the environment, the
    model, the prompt, the response, the total of tokens, the cost (0 for
    an empty cost) and the latency, each with its line breaks normalized.
    No comma, quote or line break inside a value moves a field or a
    record.  The text holds complete records only: it ends with the CRLF
    of the last one. *)
Theorem csv_export_reads_back (logs : list TelemetryLog.t) :
  CsvReader.read (Csv.export Date_toString logs)
  = Some (["ID"; "Timestamp"; "Project ID"; "Environment"; "Model"; "Prompt";
           "Response"; "Tokens"; "Cost"; "Latency"]
          :: map (fun log =>
                    [Csv.normalize (TelemetryLog.id log);
                     Csv.normalize (Date_toString (TelemetryLog.timestamp log));
                     Csv.normalize (default EmptyString (TelemetryLog.projectId log));
                     Csv.normalize (TelemetryLog.environment log);
                     Csv.normalize (TelemetryLog.model log);
                     Csv.normalize (TelemetryLog.prompt log);
                     Csv.normalize (TelemetryLog.response log);
                     Csv.normalize (Number_toString (TelemetryLog.totalTokens log));
                     Csv.normalize (if String.eqb (TelemetryLog.cost log) EmptyString
                                    then "0" else TelemetryLog.cost log);
                     Csv.normalize (Number_toString (TelemetryLog.latencyMs log))])
                 logs)
  /\ CsvReader.complete (Csv.export Date_toString logs) = true
  /\ exists records, Csv.export Date_toString logs = records +:+ Csv.CRLF.
Proof.
  split; [ | split ].
  - unfold CsvReader.read. rewrite read_from_export. f_equal. f_equal.
    apply map_ext. intros log. unfold Csv.row, cell_of. cbn [map Csv.to_String].
    destruct (String.eqb (TelemetryLog.cost log) EmptyString); reflexivity.
  - unfold CsvReader.complete. rewrite read_from_export. reflexivity.
  - eexists. reflexivity.
Qed.

End CsvProperties.

(** ** The first workspace of a new user *)

Section RegisterProperties.
Variable createWorkspace : nat -> insertion.

Lemma unique_violation_true (code : option string) :
  unique_violation code = true -> code = Some "23505".
Proof.
  destruct code as [ c | ]; [ | discriminate ].
  simpl. intros Hc. apply String.eqb_eq in Hc. congruence.
Qed.

Lemma create_workspace_loop_spec (fuel attempts : nat) :
  (attempts < maxAttempts)%nat ->
  (maxAttempts - attempts <= fuel)%nat ->
  exists r n,
    create_workspace_loop createWorkspace fuel attempts = Some (r, n)
    /\ (attempts <= n < maxAttempts)%nat
    /\ r <> Ok None
    /\ (forall m, (attempts <= m < n)%nat ->
          exists e, createWorkspace m = Failed (Some "23505") e)
    /\ match createWorkspace n with
       | Inserted w => r = Ok (Some w)
       | Failed code e =>
           r = Throw unable_to_create
           /\ (unique_violation code = false \/ n = (maxAttempts - 1)%nat)
       end.
Proof.
  revert attempts. induction fuel as [ | fuel IH ]; intros attempts Hlt Hfuel.
  - lia.
  - cbn [create_workspace_loop].
    destruct (Nat.ltb_spec attempts maxAttempts) as [ _ | ]; [ | lia ].
    destruct (createWorkspace attempts) as [ w | code e ] eqn:Hcall.
    + exists (Ok (Some w)), attempts. rewrite Hcall.
      split; [ reflexivity | ]. split; [ lia | ]. split; [ discriminate | ].
      split; [ intros m Hm; lia | reflexivity ].
    + destruct (unique_violation code) eqn:Hcode; cbn [andb].
      * destruct (Nat.ltb_spec attempts (maxAttempts - 1)) as [ Hmore | Hlast ].
        -- destruct (IH (S attempts)) as (r & n & Hrun & Hn & Hr & Hbefore & Hat);
             [ lia | lia | ].
           exists r, n. rewrite Hrun.
           split; [ reflexivity | ]. split; [ lia | ]. split; [ exact Hr | ].
           split; [ | exact Hat ].
           intros m Hm. destruct (Nat.eq_dec m attempts) as [ -> | Hne ].
           ++ apply unique_violation_true in Hcode. subst code. eauto.
           ++ apply Hbefore. lia.
        -- exists (Throw unable_to_create), attempts. rewrite Hcall.
           split; [ reflexivity | ]. split; [ lia | ]. split; [ discriminate | ].
           split; [ intros m Hm; lia | ]. split; [ reflexivity | right; lia ].
      * exists (Throw unable_to_create), attempts. rewrite Hcall.
        split; [ reflexivity | ]. split; [ lia | ]. split; [ discriminate | ].
        split; [ intros m Hm; lia | ]. split; [ reflexivity | left; exact Hcode ].
Qed.

(** X3.  The workspace of a new user.  The loop of the registration route
    calls [storage.createWorkspace] at most five times, for any number of
    iterations allowed; it goes on to the next call only after a unique
    violation (code 23505), and it leaves either with the workspace of the
    first call that succeeded or by throwing.  It never leaves with no
    workspace, so the reply 500 after the loop is never sent. *)
Theorem workspace_creation_attempts :
  exists r n,
    (forall fuel, (maxAttempts <= fuel)%nat ->
       create_workspace_loop createWorkspace fuel 0 = Some (r, n))
    /\ (n < maxAttempts)%nat
    /\ r <> Ok None
    /\ (forall m, (m < n)%nat -> exists e, createWorkspace m = Failed (Some "23505") e)
    /\ match createWorkspace n with
       | Inserted w => r = Ok (Some w)
       | Failed code e =>
           r = Throw unable_to_create
           /\ (unique_violation code = false \/ n = 4%nat)
       end.
Proof.
  destruct (create_workspace_loop_spec maxAttempts 0)
    as (r & n & Hrun & Hn & Hr & Hbefore & Hat); [ unfold maxAttempts; lia | lia | ].
  exists r, n. split; [ | split; [ lia | split; [ exact Hr | split ] ] ].
  - intros fuel Hfuel.
    destruct (create_workspace_loop_spec fuel 0)
      as (r' & n' & Hrun' & Hn' & Hr' & Hbefore' & Hat');
      [ unfold maxAttempts; lia | lia | ].
    rewrite Hrun'.
    assert (n' = n) as ->.
    { destruct (Nat.lt_trichotomy n' n) as [ Hlt | [ Heq | Hgt ] ]; [ | exact Heq | ].
      - destruct (Hbefore n') as (e & He); [ lia | ]. rewrite He in Hat'.
        destruct Hat' as [ _ [ Hcode | Hlast ] ]; [ discriminate Hcode | ].
        unfold maxAttempts in *. lia.
      - destruct (Hbefore' n) as (e & He); [ lia | ]. rewrite He in Hat.
        destruct Hat as [ _ [ Hcode | Hlast ] ]; [ discriminate Hcode | ].
        unfold maxAttempts in *. lia. }
    destruct (createWorkspace n); [ congruence | ].
    destruct Hat as [ -> _ ], Hat' as [ -> _ ]. reflexivity.
  - intros m Hm. apply Hbefore. lia.
  - exact Hat.
Qed.

End RegisterProperties.

(** ** The routes behind an API key *)

Section ApiKeyProperties.
Context {P : Platform} {B : Backend}.

Lemma validateApiKey_next (x_api_key : option string) (w : string) :
  validateApiKey x_api_key = Ok (Next w)
  <-> exists apiKey, x_api_key = Some apiKey /\ key_of_workspace apiKey w.
Proof.
  unfold validateApiKey, key_of_workspace. split.
  - destruct x_api_key as [ apiKey | ]; [ | discriminate ].
    destruct (String.eqb_spec apiKey "") as [ | Hne ]; [ discriminate | ].
    destruct (getApiKeyByKey apiKey) as [ [ key | ] | e ] eqn:Hkey; try discriminate.
    simpl. destruct (updateApiKeyLastUsed (ApiKey.id key)) as [ [] | e ] eqn:Hused;
      [ | discriminate ].
    simpl. intros [= <-]. exists apiKey. split; [ reflexivity | ].
    split; [ exact Hne | ]. exists key. tauto.
  - intros (apiKey & -> & Hne & key & Hkey & Hused & <-).
    destruct (String.eqb_spec apiKey "") as [ | _ ]; [ contradiction | ].
    rewrite Hkey. simpl. rewrite Hused. reflexivity.
Qed.

Lemma validateApiKey_throws (x_api_key : option string) (e : error) :
  validateApiKey x_api_key = Throw e
  <-> exists apiKey,
        x_api_key = Some apiKey /\ apiKey <> EmptyString
        /\ (getApiKeyByKey apiKey = Throw e
            \/ exists key, getApiKeyByKey apiKey = Ok (Some key)
                           /\ updateApiKeyLastUsed (ApiKey.id key) = Throw e).
Proof.
  unfold validateApiKey. split.
  - destruct x_api_key as [ apiKey | ]; [ | discriminate ].
    destruct (String.eqb_spec apiKey "") as [ | Hne ]; [ discriminate | ].
    destruct (getApiKeyByKey apiKey) as [ [ key | ] | e' ] eqn:Hkey; try discriminate.
    + simpl. destruct (updateApiKeyLastUsed (ApiKey.id key)) as [ [] | e' ] eqn:Hused;
        [ discriminate | ].
      simpl. intros [= <-]. exists apiKey. split; [ reflexivity | ].
      split; [ exact Hne | ]. right. exists key. tauto.
    + simpl. intros [= <-]. exists apiKey. tauto.
  - intros (apiKey & -> & Hne & [ Hkey | (key & Hkey & Hused) ]);
      (destruct (String.eqb_spec apiKey "") as [ | _ ]; [ contradiction | ]);
      rewrite Hkey; simpl; [ reflexivity | ].
    rewrite Hused. reflexivity.
Qed.

Lemma validateApiKey_replies (x_api_key : option string) (code : Z) (body : json) :
  validateApiKey x_api_key = Ok (Replied code body) -> code = 401.
Proof.
  unfold validateApiKey.
  destruct x_api_key as [ apiKey | ]; [ | intros [= <- _]; reflexivity ].
  destruct (String.eqb apiKey ""); [ intros [= <- _]; reflexivity | ].
  destruct (getApiKeyByKey apiKey) as [ [ key | ] | e ]; try discriminate.
  - simpl. destruct (updateApiKeyLastUsed (ApiKey.id key)) as [ [] | e ]; discriminate.
  - simpl. intros [= <- _]. reflexivity.
Qed.

Lemma socket_token_route_200 (workspaceId authenticated : string) (now : Z) (body : json) :
  socket_token_route workspaceId authenticated now = Json 200 body
  <-> authenticated = workspaceId
      /\ (exists workspace, getWorkspace workspaceId = Ok (Some workspace))
      /\ body = JObj [("token", JStr (Token.generateSocketToken workspaceId now))].
Proof.
  unfold socket_token_route, catch_reply. split.
  - destruct (String.eqb_spec workspaceId authenticated) as [ <- | ]; [ | discriminate ].
    cbn [negb].
    destruct (getWorkspace workspaceId) as [ [ workspace | ] | e ]; try discriminate.
    simpl. intros [= <-]. eauto.
  - intros (-> & (workspace & Hworkspace) & ->).
    rewrite String.eqb_refl, Hworkspace. reflexivity.
Qed.

(** X4.  Who is handed a socket token.  The route answers 200 exactly when
    the header carries a stored API key of the very workspace the URL
    names (one that could be marked as used) and this workspace exists;
    the reply then holds the token [generateSocketToken] makes for that
    workspace.  The request is left
    without an answer exactly when a call of the storage layer fails
    inside [validateApiKey], which has no [try]. *)
Theorem socket_token_issued_iff (x_api_key : option string) (workspaceId : string)
    (now : Z) :
  (forall body,
     socket_token_endpoint x_api_key workspaceId now = Ok (Json 200 body)
     <-> (exists apiKey workspace,
            x_api_key = Some apiKey
            /\ key_of_workspace apiKey workspaceId
            /\ getWorkspace workspaceId = Ok (Some workspace))
         /\ body = JObj [("token", JStr (Token.generateSocketToken workspaceId now))])
  /\
  (forall e,
     socket_token_endpoint x_api_key workspaceId now = Throw e
     <-> exists apiKey,
           x_api_key = Some apiKey /\ apiKey <> EmptyString
           /\ (getApiKeyByKey apiKey = Throw e
               \/ exists key, getApiKeyByKey apiKey = Ok (Some key)
                              /\ updateApiKeyLastUsed (ApiKey.id key) = Throw e)).
Proof.
  unfold socket_token_endpoint, behind. split.
  - intros body. split.
    + destruct (validateApiKey x_api_key) as [ [ code answer | w ] | e ] eqn:Hkey;
        simpl; [ | | discriminate ].
      * intros [= -> _]. apply validateApiKey_replies in Hkey. discriminate Hkey.
      * intros [= Hroute]. apply socket_token_route_200 in Hroute.
        destruct Hroute as (-> & (workspace & Hworkspace) & ->).
        apply validateApiKey_next in Hkey. destruct Hkey as (apiKey & -> & Hkey).
        split; [ | reflexivity ]. exists apiKey, workspace. tauto.
    + intros [ (apiKey & workspace & -> & Hkey & Hworkspace) -> ].
      rewrite (proj2 (validateApiKey_next (Some apiKey) workspaceId)) by eauto.
      simpl. f_equal. apply socket_token_route_200. eauto.
  - intros e. rewrite <- validateApiKey_throws.
    destruct (validateApiKey x_api_key) as [ [ code answer | w ] | e' ]; simpl;
      split; intros Heq; try discriminate Heq; congruence.
Qed.

Lemma assoc_app_last (k : string) (v : json) (fields : list (string * json)) :
  assoc k (fields ++ [(k, v)]) = Some v.
Proof.
  induction fields as [ | [ k' v' ] fields IH ]; simpl.
  - rewrite String.eqb_refl. reflexivity.
  - rewrite IH. reflexivity.
Qed.

Lemma assoc_overwritten (k : string) (v : json) (fields : list (string * json)) :
  assoc k (map (fun kv => if String.eqb k kv.1 then (kv.1, v) else kv) fields)
  = match assoc k fields with
    | Some _ => Some v
    | None => None
    end.
Proof.
  induction fields as [ | [ k' v' ] fields IH ]; [ reflexivity | ].
  cbn [map fst]. destruct (String.eqb k k') eqn:Hk; cbn [assoc]; rewrite IH, Hk;
    destruct (assoc k fields); reflexivity.
Qed.

Lemma assoc_present (k : string) (fields : list (string * json)) :
  existsb (fun kv => String.eqb k kv.1) fields = true ->
  exists v, assoc k fields = Some v.
Proof.
  induction fields as [ | [ k' v' ] fields IH ]; [ discriminate | ].
  cbn [existsb assoc fst]. intros Hk. apply orb_true_iff in Hk.
  destruct (assoc k fields) as [ x | ]; [ eauto | ].
  destruct Hk as [ -> | Hrest ]; [ eauto | ].
  destruct (IH Hrest) as (x & [=]).
Qed.

(** The object the schema parses carries the workspace of the API key,
    whatever the body of the request holds. *)
Lemma ingest_input_workspaceId (body : json) (workspaceId : string) :
  get_prop (ingest_input body workspaceId) "workspaceId" = Ok (Some (JStr workspaceId)).
Proof.
  unfold ingest_input, set_prop. cbn [get_prop]. f_equal.
  destruct (existsb _ (own_properties body)) eqn:Hk.
  - rewrite assoc_overwritten.
    destruct (assoc_present _ _ Hk) as (x & ->). reflexivity.
  - apply assoc_app_last.
Qed.

Lemma ingest_stored_workspace `{!BackendLaws B} (body : json) (workspaceId : string)
    (log : TelemetryLog.t) :
  ingest_stored body workspaceId = Ok log ->
  TelemetryLog.workspaceId log = workspaceId.
Proof.
  unfold ingest_stored.
  destruct (insertTelemetryLogSchema_parse _) as [ data | e ] eqn:Hparse;
    [ | discriminate ].
  simpl. intros Hcreate.
  apply parse_keeps_workspaceId in Hparse. apply created_in_workspace in Hcreate.
  rewrite ingest_input_workspaceId, Hcreate in Hparse. congruence.
Qed.

Lemma on_ingest_step (stored : result TelemetryLog.t) (s : server) :
  on_ingest stored s = (Ok tt, s, (step (EIngest stored) s).2).
Proof.
  unfold step, run_handler.
  destruct (on_ingest_returns stored s) as (o & ->). reflexivity.
Qed.

Lemma ingest_endpoint_run (x_api_key : option string) (body : json) (s : server) :
  ingest_endpoint x_api_key body s
  = match validateApiKey x_api_key with
    | Ok (Replied code answer) => (Ok tt, s, [Response code answer])
    | Ok (Next workspaceId) =>
        (Ok tt, s, (step (EIngest (ingest_stored body workspaceId)) s).2)
    | Throw e => (Throw e, s, [])
    end.
Proof.
  unfold ingest_endpoint, mbind, M_bind, lift, emit.
  destruct (validateApiKey x_api_key) as [ [ code answer | w ] | e ];
    try reflexivity.
  rewrite on_ingest_step. reflexivity.
Qed.

(** X5.  Ingestion is bound to the API key.  A request to the ingestion
    route leaves the registry as it is, and every frame it causes carries
    a record stored in the workspace of the API key of the header and goes
    to an open socket registered for that workspace, whatever workspace
    the body of the request names.  A request whose header passes for no
    workspace is answered 401, or left without an answer when the storage
    layer fails, and nothing is sent. *)
Theorem ingest_bound_to_api_key `{!BackendLaws B} (x_api_key : option string)
    (body : json) (s : server) :
  let run := ingest_endpoint x_api_key body s in
  run.1.2 = s
  /\ (forall ws payload, In (Sent ws payload) run.2 ->
        exists apiKey key log c,
          x_api_key = Some apiKey
          /\ getApiKeyByKey apiKey = Ok (Some key)
          /\ ingest_stored body (ApiKey.workspaceId key) = Ok log
          /\ TelemetryLog.workspaceId log = ApiKey.workspaceId key
          /\ payload = frame_text log
          /\ In c (wsClients s) /\ socket c = ws
          /\ workspaceId c = JStr (ApiKey.workspaceId key)
          /\ is_open s ws = true)
  /\ ((forall apiKey w, x_api_key = Some apiKey -> ~ key_of_workspace apiKey w) ->
      (exists answer, run = (Ok tt, s, [Response 401 answer]))
      \/ exists e, run = (Throw e, s, [])).
Proof.
  intros run. subst run. rewrite ingest_endpoint_run.
  destruct (validateApiKey x_api_key) as [ [ code answer | w ] | e ] eqn:Hkey;
    cbn [fst snd].
  - split; [ reflexivity | ]. split; [ intros ws payload [ [=] | [] ] | ].
    intros _. left. apply validateApiKey_replies in Hkey. subst code. eauto.
  - split; [ reflexivity | ].
    apply validateApiKey_next in Hkey.
    destruct Hkey as (apiKey & -> & Hne & key & Hkey & Hused & <-).
    split.
    + intros ws payload Hsent.
      destruct (ingest_stored body (ApiKey.workspaceId key)) as [ log | e ] eqn:Hstored.
      * pose proof (ingest_stored_workspace _ _ _ Hstored) as Hworkspace.
        rewrite step_ingest_stored in Hsent. cbn [snd] in Hsent.
        apply in_app_or in Hsent. destruct Hsent as [ Hsent | [ Hsent | [] ] ].
        -- apply in_map_iff in Hsent. destruct Hsent as (c & [= <- <-] & Hc).
           apply served_sublist, recipients_spec in Hc.
           destruct Hc as (Hin & Hw & Hopen). rewrite Hworkspace in Hw.
           exists apiKey, key, log, c. tauto.
        -- destruct (first_fault s (recipients s log)); discriminate Hsent.
      * rewrite step_ingest_failed in Hsent. destruct Hsent as [ [=] | [] ].
    + intros Hnone. destruct (Hnone apiKey (ApiKey.workspaceId key) eq_refl).
      split; [ exact Hne | ]. exists key. tauto.
  - split; [ reflexivity | ]. split; [ intros ws payload [] | ].
    intros _. right. eauto.
Qed.

End ApiKeyProperties.

Lemma memory_laws : BackendLaws Memory.backend.
Proof.
  split.
  - intros input data. cbn [insertTelemetryLogSchema_parse Memory.backend].
    destruct (Memory.required input); [ | discriminate ]. intros [= <-]. reflexivity.
  - intros data log. cbn [createTelemetryLog Memory.backend].
    unfold Memory.required.
    destruct (get_prop data "workspaceId") as [ [ [ | | | w | | ] | ] | ];
      try discriminate.
    destruct (get_prop data "model") as [ [ [ | | | m | | ] | ] | ];
      try discriminate.
    intros [= <-]. reflexivity.
Qed.

(** The key of W1 with a body that names W2: the record is stored in W1
    and reaches the two sockets of W1. *)
Lemma ingest_bound_to_api_key_witness :
  BackendLaws Memory.backend
  /\ let s := exec Scenario.three_clients initial in
     let body := JObj [("workspaceId", JStr "W2"); ("model", JStr "gpt-4")] in
     let run := ingest_endpoint (Some "ak_w1") body s in
     run.1.2 = s
     /\ length (frames_to 0 run.2) = 1%nat /\ frames_to 2 run.2 = []
     /\ (forall ws payload, In (Sent ws payload) run.2 ->
           exists apiKey key log c,
             Some "ak_w1" = Some apiKey
             /\ getApiKeyByKey apiKey = Ok (Some key)
             /\ ingest_stored body (ApiKey.workspaceId key) = Ok log
             /\ TelemetryLog.workspaceId log = ApiKey.workspaceId key
             /\ payload = frame_text log
             /\ In c (wsClients s) /\ socket c = ws
             /\ workspaceId c = JStr (ApiKey.workspaceId key)
             /\ is_open s ws = true).
Proof.
  split; [ exact memory_laws | ].
  intros s body run.
  destruct (@ingest_bound_to_api_key Reference.runtime Memory.backend memory_laws
              (Some "ak_w1") body s) as (Hstate & Hsent & _).
  split; [ exact Hstate | ].
  split; [ vm_compute; reflexivity | ].
  split; [ vm_compute; reflexivity | exact Hsent ].
Defined.

(** ** The routes behind a membership *)

Section MembershipProperties.
Context {P : Platform} {B : Backend}.

Lemma when_truthy_Some (v : jsval) (w : json) :
  when_truthy v = Some w <-> v = Some w /\ truthy (Some w) = true.
Proof.
  unfold when_truthy. split.
  - destruct (truthy v) eqn:Hv; [ | discriminate ]. intros ->. tauto.
  - intros [ -> -> ]. reflexivity.
Qed.

Lemma requireWorkspaceMembership_next (req : membership_request)
    (member : WorkspaceMember.t) (w : json) :
  requireWorkspaceMembership req = Next (member, w)
  <-> exists userId,
        req_userId req = Some userId
        /\ userId <> EmptyString
        /\ requested_workspace req = Ok (Some w)
        /\ truthy (Some w) = true
        /\ getWorkspaceMember w userId = Ok (Some member).
Proof.
  unfold requireWorkspaceMembership. split.
  - destruct (req_userId req) as [ userId | ]; [ | discriminate ].
    destruct (String.eqb_spec userId "") as [ | Hne ]; [ discriminate | ].
    destruct (requested_workspace req) as [ workspaceId | e ]; [ | discriminate ].
    simpl. destruct (when_truthy workspaceId) as [ w' | ] eqn:Hw; [ | discriminate ].
    apply when_truthy_Some in Hw. destruct Hw as [ -> Hw ].
    destruct (getWorkspaceMember w' userId) as [ [ m | ] | e ] eqn:Hmember;
      try discriminate.
    simpl. intros [= <- <-]. exists userId. tauto.
  - intros (userId & -> & Hne & -> & Hw & Hmember).
    destruct (String.eqb_spec userId "") as [ | _ ]; [ contradiction | ].
    simpl. rewrite (proj2 (when_truthy_Some (Some w) w)) by tauto.
    rewrite Hmember. reflexivity.
Qed.

Lemma requireWorkspaceMembership_codes (req : membership_request) (code : Z)
    (body : json) :
  requireWorkspaceMembership req = Replied code body ->
  code = 401 \/ code = 400 \/ code = 403 \/ code = 500.
Proof.
  unfold requireWorkspaceMembership.
  destruct (req_userId req) as [ userId | ]; [ | intros [= <- _]; tauto ].
  destruct (String.eqb userId ""); [ intros [= <- _]; tauto | ].
  destruct (requested_workspace req) as [ workspaceId | e ];
    [ | intros [= <- _]; tauto ].
  simpl. destruct (when_truthy workspaceId) as [ w | ]; [ | intros [= <- _]; tauto ].
  destruct (getWorkspaceMember w userId) as [ [ m | ] | e ]; simpl;
    [ discriminate | intros [= <- _]; tauto | intros [= <- _]; tauto ].
Qed.

(** X6.  Who passes [requireWorkspaceMembership].  The middleware calls
    [next] exactly for a request with a user who is a member of the
    workspace the request names, and attaches that member and that
    workspace; the workspace is the parameter of the path if there is one,
    else the one of the query, else the one of the body, which is not read
    when one of the others is given.  Every other request is answered by
    the middleware: it raises nothing. *)
Theorem membership_required (req : membership_request) :
  (forall member w,
     requireWorkspaceMembership req = Next (member, w)
     <-> exists userId,
           req_userId req = Some userId
           /\ userId <> EmptyString
           /\ requested_workspace req = Ok (Some w)
           /\ truthy (Some w) = true
           /\ getWorkspaceMember w userId = Ok (Some member))
  /\ (forall p, req_params_workspaceId req = Some p -> p <> EmptyString ->
        requested_workspace req = Ok (Some (JStr p)))
  /\ (truthy (JStr <$> req_params_workspaceId req) = false ->
      truthy (req_query_workspaceId req) = true ->
      requested_workspace req = Ok (req_query_workspaceId req))
  /\ (truthy (JStr <$> req_params_workspaceId req) = false ->
      truthy (req_query_workspaceId req) = false ->
      requested_workspace req = get_prop_of (req_body req) "workspaceId")
  /\ (forall code body,
        requireWorkspaceMembership req = Replied code body ->
        code = 401 \/ code = 400 \/ code = 403 \/ code = 500).
Proof.
  split; [ intros member w; apply requireWorkspaceMembership_next | ].
  split; [ | split; [ | split ] ].
  - unfold requested_workspace, or_else.
    intros p -> Hp. simpl. apply String.eqb_neq in Hp. rewrite Hp. reflexivity.
  - unfold requested_workspace, or_else. intros -> ->. reflexivity.
  - unfold requested_workspace, or_else. intros -> ->. reflexivity.
  - apply requireWorkspaceMembership_codes.
Qed.

Lemma telemetry_logs_inr (w : json) (q : telemetry_query) (logs : list TelemetryLog.t) :
  telemetry_logs w q = Ok (inr logs)
  <-> (forall projectId, when_truthy (query_projectId q) = Some projectId ->
         exists project, getProject projectId = Ok (Some project)
                         /\ w = JStr (Project.workspaceId project))
      /\ getTelemetryLogs w (filters_of q) = Ok logs.
Proof.
  unfold telemetry_logs, filters_of.
  set (f := mkFilters _ _ _ _).
  assert ((getTelemetryLogs w f ≫= fun logs => Ok (@inr reply _ logs))
          = Ok (@inr reply _ logs) <-> getTelemetryLogs w f = Ok logs) as Hquery.
  { destruct (getTelemetryLogs w f) as [ l | e ]; simpl; split; congruence. }
  destruct (when_truthy (query_projectId q)) as [ projectId | ].
  - destruct (getProject projectId) as [ [ project | ] | e ] eqn:Hproject; simpl.
    + unfold project_in_workspace.
      destruct (strict_eq_string (Some w) (Project.workspaceId project)) eqn:Hw.
      * apply strict_eq_string_true in Hw. injection Hw as ->.
        rewrite Hquery. split; [ | tauto ].
        intros Hlogs. split; [ | exact Hlogs ].
        intros ? [= <-]. rewrite Hproject. eauto.
      * split; [ discriminate | ].
        intros [ Hp _ ]. destruct (Hp _ eq_refl) as (project' & Hp' & ->).
        rewrite Hproject in Hp'. injection Hp' as <-.
        simpl in Hw. rewrite String.eqb_refl in Hw. discriminate Hw.
    + split; [ discriminate | ].
      intros [ Hp _ ]. destruct (Hp _ eq_refl) as (project' & Hp' & _).
      rewrite Hproject in Hp'. discriminate Hp'.
    + split; [ discriminate | ].
      intros [ Hp _ ]. destruct (Hp _ eq_refl) as (project' & Hp' & _).
      rewrite Hproject in Hp'. discriminate Hp'.
  - rewrite Hquery. split; [ | tauto ].
    intros Hlogs. split; [ discriminate | exact Hlogs ].
Qed.

Lemma entitled_iff (req : membership_request) (q : telemetry_query)
    (logs : list TelemetryLog.t) :
  entitled req q logs
  <-> exists member w, requireWorkspaceMembership req = Next (member, w)
                       /\ telemetry_logs w q = Ok (inr logs).
Proof.
  unfold entitled. split.
  - intros (userId & member & w & Huser & Hne & Hw & Htruthy & Hmember & Hproject & Hlogs).
    exists member, w. split.
    + apply requireWorkspaceMembership_next. exists userId. tauto.
    + apply telemetry_logs_inr. tauto.
  - intros (member & w & Hnext & Hlogs).
    apply requireWorkspaceMembership_next in Hnext.
    destruct Hnext as (userId & Huser & Hne & Hw & Htruthy & Hmember).
    apply telemetry_logs_inr in Hlogs. destruct Hlogs as [ Hproject Hlogs ].
    exists userId, member, w. tauto.
Qed.

Lemma requireWorkspaceMembership_replied (req : membership_request) (code : Z)
    (body : json) :
  requireWorkspaceMembership req = Replied code body -> code <> 200.
Proof.
  intros Hreplied.
  destruct (requireWorkspaceMembership_codes _ _ _ Hreplied)
    as [ -> | [ -> | [ -> | -> ] ] ]; discriminate.
Qed.

Lemma telemetry_logs_refusal (w : json) (q : telemetry_query) (r : reply) :
  telemetry_logs w q = Ok (inl r) ->
  r = Json 403 (error_body "Project does not belong to this workspace").
Proof.
  unfold telemetry_logs.
  assert (forall f, (getTelemetryLogs w f ≫= fun logs => Ok (@inr reply _ logs))
                    = Ok (inl r) -> False) as Hquery.
  { intros f. destruct (getTelemetryLogs w f); discriminate. }
  destruct (when_truthy (query_projectId q)) as [ projectId | ].
  - destruct (getProject projectId) as [ [ project | ] | e ]; simpl.
    + destruct (project_in_workspace project w).
      * intros Hq. destruct (Hquery _ Hq).
      * congruence.
    + congruence.
    + discriminate.
  - intros Hq. destruct (Hquery _ Hq).
Qed.

Section FileProperties.
Variable Date_toString : string -> string.

(** X7.  Whose logs the telemetry routes serve.  [GET /api/telemetry]
    answers 200, and the export route sends a file, exactly to a request
    entitled to the logs: its user is a member of the workspace it names,
    the project it filters by is of that workspace, and the logs are what
    the storage layer returns for that workspace under the filters of the
    query.  The export is the CSV text of these logs when the format is
    the string csv and their JSON otherwise. *)
Theorem telemetry_served_to_members (req : membership_request) (q : telemetry_query)
    (now : Z) :
  (forall body,
     telemetry_endpoint req q = Json 200 body
     <-> exists logs, entitled req q logs /\ body = logs_json logs)
  /\ (forall filename text,
        export_endpoint Date_toString req q now = CsvFile filename text
        <-> strict_eq_string (query_format q) "csv" = true
            /\ filename = "telemetry-logs-" +:+ Number_toString now +:+ ".csv"
            /\ exists logs, entitled req q logs
                            /\ text = Csv.export Date_toString logs)
  /\ (forall filename body,
        export_endpoint Date_toString req q now = JsonFile filename body
        <-> strict_eq_string (query_format q) "csv" = false
            /\ filename = "telemetry-logs-" +:+ Number_toString now +:+ ".json"
            /\ exists logs, entitled req q logs /\ body = logs_json logs).
Proof.
  unfold telemetry_endpoint, export_endpoint, telemetry_route, export_route, catch_reply.
  split; [ | split ].
  - intros body. split.
    + destruct (requireWorkspaceMembership req) as [ code answer | [ member w ] ] eqn:Hreq.
      * intros [= -> _]. apply requireWorkspaceMembership_replied in Hreq.
        contradiction.
      * destruct (telemetry_logs w q) as [ [ r | logs ] | e ] eqn:Hlogs; simpl.
        -- apply telemetry_logs_refusal in Hlogs. subst r. discriminate.
        -- intros [= <-]. exists logs. split; [ | reflexivity ].
           apply entitled_iff. eauto.
        -- discriminate.
    + intros (logs & Hentitled & ->). apply entitled_iff in Hentitled.
      destruct Hentitled as (member & w & -> & ->). reflexivity.
  - intros filename text. split.
    + destruct (requireWorkspaceMembership req) as [ code answer | [ member w ] ] eqn:Hreq;
        [ discriminate | ].
      destruct (telemetry_logs w q) as [ [ r | logs ] | e ] eqn:Hlogs; simpl.
      * apply telemetry_logs_refusal in Hlogs. subst r. discriminate.
      * destruct (strict_eq_string (query_format q) "csv"); [ | discriminate ].
        intros [= <- <-]. split; [ reflexivity | ]. split; [ reflexivity | ].
        exists logs. split; [ | reflexivity ]. apply entitled_iff. eauto.
      * discriminate.
    + intros (Hcsv & -> & logs & Hentitled & ->). apply entitled_iff in Hentitled.
      destruct Hentitled as (member & w & -> & ->). simpl. rewrite Hcsv. reflexivity.
  - intros filename body. split.
    + destruct (requireWorkspaceMembership req) as [ code answer | [ member w ] ] eqn:Hreq;
        [ discriminate | ].
      destruct (telemetry_logs w q) as [ [ r | logs ] | e ] eqn:Hlogs; simpl.
      * apply telemetry_logs_refusal in Hlogs. subst r. discriminate.
      * destruct (strict_eq_string (query_format q) "csv"); [ discriminate | ].
        intros [= <- <-]. split; [ reflexivity | ]. split; [ reflexivity | ].
        exists logs. split; [ | reflexivity ]. apply entitled_iff. eauto.
      * discriminate.
    + intros (Hcsv & -> & logs & Hentitled & ->). apply entitled_iff in Hentitled.
      destruct Hentitled as (member & w & -> & ->). simpl. rewrite Hcsv. reflexivity.
Qed.

End FileProperties.
End MembershipProperties.

(** ** The browser agent *)

Section AgentProperties.
Context {P : Platform}.

Lemma onmessage_parsed (data : string) (message : json) (type : jsval) (a : Agent.t) :
  JSON_parse data = Some message ->
  get_prop message "type" = Ok type ->
  Agent.onmessage data a
  = if strict_eq_string type "subscribed"
    then (Agent.setIsConnected_if_mounted true a, [])
    else if strict_eq_string type "error"
    then (a, [Agent.ConsoleError None; Agent.Close])
    else if strict_eq_string type "new_log"
    then match get_prop message "data" with
         | Ok (Some v) =>
             if truthy (Some v)
             then (Agent.setQueryData (Agent.updater v) a, []) else (a, [])
         | Ok None => (a, [])
         | Throw e => (a, [Agent.ConsoleError (Some e)])
         end
    else (a, []).
Proof.
  intros Hparse Htype. unfold Agent.onmessage, Agent.onmessage_body, parse.
  rewrite Hparse. cbn [mbind result_bind]. rewrite Htype. cbn [mbind result_bind].
  destruct (strict_eq_string type "subscribed"); [ reflexivity | ].
  destruct (strict_eq_string type "error"); [ reflexivity | ].
  destruct (strict_eq_string type "new_log"); [ | reflexivity ].
  destruct (get_prop message "data") as [ [ v | ] | e ]; try reflexivity.
  unfold mbind, result_bind. destruct (truthy (Some v)); reflexivity.
Qed.

Lemma updater_cached (v : json) (a : Agent.t) :
  Agent.setQueryData (Agent.updater v) a
  = Agent.mk (Agent.mounted a) (Agent.isConnected a) (Some (v :: cached a)).
Proof.
  unfold Agent.setQueryData, Agent.updater, cached.
  destruct (Agent.cache a); reflexivity.
Qed.

Lemma onmessage_new_log `{!PlatformLaws P} (log : TelemetryLog.t) (a : Agent.t) :
  well_formed (TelemetryLog.nullable (TelemetryLog.metadata log)) = true ->
  Agent.onmessage (frame_text log) a
  = (Agent.mk (Agent.mounted a) (Agent.isConnected a)
              (Some (TelemetryLog.toJSON log :: cached a)), []).
Proof.
  intros Hmeta. unfold frame_text.
  rewrite (onmessage_parsed _ (new_log_message log) (Some (JStr "new_log")));
    [ | apply JSON_roundtrip, toJSON_well_formed, Hmeta | reflexivity ].
  simpl. rewrite updater_cached. reflexivity.
Qed.

(** X8.  From the store to the screen.  Every frame the fan-out of a
    stored record sends, handed to [ws.onmessage] of an agent, puts the
    record, as persistence returned it, at the head of the cached list of
    the agent, and does nothing else: the connection flag stays, nothing
    is sent or closed. *)
Theorem record_reaches_cache `{!PlatformLaws P} (s : server) (log : TelemetryLog.t)
    (ws : WebSocket) (payload : string) (a : Agent.t) :
  well_formed (TelemetryLog.nullable (TelemetryLog.metadata log)) = true ->
  In (Sent ws payload) (step (EIngest (Ok log)) s).2 ->
  Agent.onmessage payload a
  = (Agent.mk (Agent.mounted a) (Agent.isConnected a)
              (Some (TelemetryLog.toJSON log :: cached a)), []).
Proof.
  intros Hmeta Hsent. rewrite step_ingest_stored in Hsent. cbn [snd] in Hsent.
  apply in_app_or in Hsent. destruct Hsent as [ Hsent | [ Hsent | [] ] ].
  - apply in_map_iff in Hsent. destruct Hsent as (c & [= _ <-] & _).
    apply (onmessage_new_log log a Hmeta).
  - destruct (first_fault s (recipients s log)); discriminate Hsent.
Qed.

(** X9.  Newest first.  An agent that receives the frames of a sequence of
    records holds them in its cache in the reverse order of arrival, the
    last one received first, before what the cache held; its connection
    flag is untouched. *)
Theorem cache_newest_first `{!PlatformLaws P} (logs : list TelemetryLog.t)
    (a : Agent.t) :
  Forall (fun log =>
            well_formed (TelemetryLog.nullable (TelemetryLog.metadata log)) = true)
         logs ->
  let after := Agent.run (map (fun log => Agent.Message (frame_text log)) logs) a in
  cached after = rev (map TelemetryLog.toJSON logs) ++ cached a
  /\ Agent.isConnected after = Agent.isConnected a
  /\ Agent.mounted after = Agent.mounted a.
Proof.
  intros Hlogs. revert a. induction Hlogs as [ | log logs Hlog _ IH ]; intros a.
  - cbn. tauto.
  - cbn [map Agent.run fold_left Agent.handle].
    rewrite (onmessage_new_log log a Hlog). cbn [fst].
    destruct (IH (Agent.mk (Agent.mounted a) (Agent.isConnected a)
                    (Some (TelemetryLog.toJSON log :: cached a))))
      as (Hcache & Hconnected & Hmounted).
    unfold Agent.run in *. cbv zeta in *.
    rewrite Hcache, Hconnected, Hmounted.
    cbn [rev cached Agent.cache default Agent.isConnected Agent.mounted].
    rewrite <- app_assoc. tauto.
Qed.






End AgentProperties.

(** The frame of [r1] sent to socket 0 in the scenario, received by a new
    agent. *)
Lemma record_reaches_cache_witness :
  PlatformLaws Reference.runtime
  /\ Agent.onmessage (frame_text Scenario.r1) Agent.initial
     = (Agent.mk true false (Some [TelemetryLog.toJSON Scenario.r1]), []).
Proof.
  split; [ exact reference_laws | ].
  apply (@record_reaches_cache Reference.runtime reference_laws
           (exec Scenario.three_clients initial) Scenario.r1 0).
  - reflexivity.
  - vm_compute. left. reflexivity.
Defined.

Lemma cache_newest_first_witness :
  let logs := [Scenario.record "r1" "W1"; Scenario.record "r2" "W1"] in
  let after := Agent.run (map (fun log => Agent.Message (frame_text log)) logs)
                         Agent.initial in
  cached after
  = [TelemetryLog.toJSON (Scenario.record "r2" "W1");
     TelemetryLog.toJSON (Scenario.record "r1" "W1")]
  /\ Agent.isConnected after = false
  /\ Agent.mounted after = true.
Proof.
  intros logs.
  apply (@cache_newest_first Reference.runtime reference_laws logs Agent.initial).
  repeat constructor.
Defined.

(** ** The handshake, from the API key to the connection flag *)

Section HandshakeProperties.
Context {P : Platform} {B : Backend}.

Lemma socket_token_endpoint_issues (apiKey W : string) (workspace : Workspace.t)
    (now : Z) :
  key_of_workspace apiKey W ->
  getWorkspace W = Ok (Some workspace) ->
  socket_token_endpoint (Some apiKey) W now
  = Ok (Json 200 (JObj [("token", JStr (Token.generateSocketToken W now))])).
Proof.
  intros Hkey Hworkspace. unfold socket_token_endpoint, behind.
  rewrite (proj2 (validateApiKey_next (Some apiKey) W)) by eauto.
  simpl. f_equal. apply socket_token_route_200. eauto.
Qed.

Lemma fetchSocketToken_issued (apiKey W : string) (workspace : Workspace.t) (now : Z) :
  key_of_workspace apiKey W ->
  getWorkspace W = Ok (Some workspace) ->
  Agent.fetchSocketToken (Some apiKey) (fetch_from_route W now)
  = Ok (Some (JStr (Token.generateSocketToken W now))).
Proof.
  intros Hkey Hworkspace. unfold Agent.fetchSocketToken, fetch_from_route.
  destruct (String.eqb_spec apiKey "") as [ Hempty | _ ];
    [ destruct Hkey as [ Hne _ ]; contradiction | ].
  rewrite (socket_token_endpoint_issues _ _ _ _ Hkey Hworkspace). reflexivity.
Qed.

Lemma subscribe_text_request `{!PlatformLaws P} (token : string) :
  subscribe_request (Agent.subscribe_text (Some (JStr token))) (Some (JStr token)).
Proof.
  exists (JObj [("type", JStr "subscribe"); ("token", JStr token)]).
  split; [ | split; reflexivity ].
  unfold Agent.subscribe_text. apply JSON_roundtrip. reflexivity.
Qed.

(** X11.  The handshake that succeeds.  The holder of an API key of an
    existing workspace [W] is handed a token by the route; the text the
    agent sends with it on an open socket, at any time up to the expiry of
    the token, makes the server register the socket for [W] and answer
    subscribed; and this answer is what sets the connection flag of a
    mounted agent. *)
Theorem handshake_succeeds `{!PlatformLaws P} (apiKey W : string)
    (workspace : Workspace.t) (issued now : Z) (s : server) (ws : WebSocket)
    (a : Agent.t) :
  key_of_workspace apiKey W ->
  getWorkspace W = Ok (Some workspace) ->
  W <> EmptyString ->
  Token.generateSocketToken W issued <> EmptyString ->
  now <= issued + Token.TOKEN_EXPIRY ->
  is_open s ws = true ->
  send_fault_of s ws = None ->
  let token := Some (JStr (Token.generateSocketToken W issued)) in
  let c := mkClient (next_ref s) ws (JStr W) in
  let answer := JSON_stringify (subscribed_message (JStr W)) in
  Agent.fetchSocketToken (Some apiKey) (fetch_from_route W issued) = Ok token
  /\ Agent.onopen token a = (a, [Agent.Send (Agent.subscribe_text token)])
  /\ step (EMessage ws (Agent.subscribe_text token) now) s
     = (mkServer (Set_add c (wsClients s))
                 (alter (set_client (Some c)) ws (connections s))
                 (S (next_ref s)),
        [Sent ws answer])
  /\ Agent.onmessage answer a = (Agent.setIsConnected_if_mounted true a, []).
Proof.
  intros Hkey Hworkspace HW Htoken Hnow Hopen Hfault token c answer.
  split; [ exact (fetchSocketToken_issued _ _ _ _ Hkey Hworkspace) | ].
  split; [ reflexivity | ].
  split.
  - rewrite (step_message_accepted ws _ token now (JStr W) s).
    + rewrite Hfault, Hopen. reflexivity.
    + apply is_open_alive, Hopen.
    + apply subscribe_text_request.
    + simpl. apply String.eqb_neq in Htoken. rewrite Htoken. reflexivity.
    + subst token. rewrite validate_generated.
      destruct (Z.ltb_spec (issued + Token.TOKEN_EXPIRY) now); [ lia | reflexivity ].
    + simpl. apply String.eqb_neq in HW. rewrite HW. reflexivity.
  - subst answer.
    rewrite (onmessage_parsed _ (subscribed_message (JStr W)) (Some (JStr "subscribed")));
      [ reflexivity | apply JSON_roundtrip; reflexivity | reflexivity ].
Qed.

(** X12.  The handshake that comes too late.  The same token sent after its
    expiry time is refused: the server registers nothing, sends the error
    message and closes the socket; on this message the agent closes its
    side and its connection flag stays as it was. *)
Theorem handshake_expired `{!PlatformLaws P} (W : string) (issued now : Z)
    (s : server) (ws : WebSocket) (a : Agent.t) :
  Token.generateSocketToken W issued <> EmptyString ->
  issued + Token.TOKEN_EXPIRY < now ->
  is_open s ws = true ->
  send_fault_of s ws = None ->
  let token := Some (JStr (Token.generateSocketToken W issued)) in
  let answer := JSON_stringify error_message_json in
  step (EMessage ws (Agent.subscribe_text token) now) s
  = (update_connection ws (set_readyState CLOSING) s, [Sent ws answer; CloseCalled ws])
  /\ wsClients (step (EMessage ws (Agent.subscribe_text token) now) s).1 = wsClients s
  /\ Agent.onmessage answer a = (a, [Agent.ConsoleError None; Agent.Close]).
Proof.
  intros Htoken Hnow Hopen Hfault token answer.
  assert (step (EMessage ws (Agent.subscribe_text token) now) s
          = (update_connection ws (set_readyState CLOSING) s,
             [Sent ws answer; CloseCalled ws])) as Hstep.
  { rewrite (step_message_refused ws _ token now s).
    - rewrite Hfault, Hopen. reflexivity.
    - apply is_open_alive, Hopen.
    - apply subscribe_text_request.
    - simpl. apply String.eqb_neq in Htoken. rewrite Htoken. reflexivity.
    - exists Token.invalid. split; [ | left; reflexivity ].
      subst token. rewrite validate_generated.
      destruct (Z.ltb_spec (issued + Token.TOKEN_EXPIRY) now); [ reflexivity | lia ]. }
  split; [ exact Hstep | ]. split; [ rewrite Hstep; reflexivity | ].
  subst answer.
  rewrite (onmessage_parsed _ error_message_json (Some (JStr "error")));
    [ reflexivity | apply JSON_roundtrip; reflexivity | reflexivity ].
Qed.

End HandshakeProperties.

Lemma handshake_succeeds_witness :
  let s := exec [EConnection] initial in
  let token := Some (JStr (Token.generateSocketToken "W1" 0)) in
  let c := mkClient 0 0 (JStr "W1") in
  let answer := JSON_stringify (subscribed_message (JStr "W1")) in
  Agent.fetchSocketToken (Some "ak_w1") (fetch_from_route "W1" 0) = Ok token
  /\ Agent.onopen token Agent.initial
     = (Agent.initial, [Agent.Send (Agent.subscribe_text token)])
  /\ step (EMessage 0 (Agent.subscribe_text token) 1000) s
     = (mkServer (Set_add c (wsClients s))
                 (alter (set_client (Some c)) 0%nat (connections s))
                 (S (next_ref s)),
        [Sent 0 answer])
  /\ Agent.onmessage answer Agent.initial
     = (Agent.setIsConnected_if_mounted true Agent.initial, []).
Proof.
  intros s.
  apply (@handshake_succeeds Reference.runtime Memory.backend reference_laws
           "ak_w1" "W1"
           (Workspace.mk "W1" "One" "one" "u1" None None (Some "trialing") None Memory.day)
           0 1000 s 0 Agent.initial).
  - split; [ discriminate | ].
    exists (ApiKey.mk "k1" "W1" "sdk" "ak_w1" None Memory.day).
    repeat split; reflexivity.
  - reflexivity.
  - discriminate.
  - vm_compute. discriminate.
  - vm_compute. discriminate.
  - reflexivity.
  - reflexivity.
Defined.

Lemma handshake_expired_witness :
  let s := exec [EConnection] initial in
  let token := Some (JStr (Token.generateSocketToken "W1" 0)) in
  let answer := JSON_stringify error_message_json in
  step (EMessage 0 (Agent.subscribe_text token) 86400001) s
  = (update_connection 0 (set_readyState CLOSING) s, [Sent 0 answer; CloseCalled 0])
  /\ wsClients (step (EMessage 0 (Agent.subscribe_text token) 86400001) s).1
     = wsClients s
  /\ Agent.onmessage answer Agent.initial
     = (Agent.initial, [Agent.ConsoleError None; Agent.Close]).
Proof.
  intros s.
  apply (@handshake_expired Reference.runtime reference_laws "W1" 0 86400001 s 0
           Agent.initial).
  - vm_compute. discriminate.
  - vm_compute. reflexivity.
  - reflexivity.
  - reflexivity.
Defined.

(** ** More on the gateway *)

Section GatewayProperties.
Context {P : Platform}.

(** A frame goes to a socket that is open when the event arrives, or to
    the socket the event creates. *)
Lemma step_sent_open (e : event) (s : server) (ws : WebSocket) (payload : string) :
  In (Sent ws payload) (step e s).2 ->
  is_open s ws = true \/ (e = EConnection /\ ws = length (connections s)).
Proof.
  destruct e as [ | ws' data now | ws' | ws' e | ws' e | stored ].
  - rewrite step_connection. cbn [snd]. intros [ [= <- _] | [] ]. right. tauto.
  - unfold step. destruct (alive s ws'); [ | intros [] ].
    unfold run_handler. rewrite on_message_run.
    destruct (JSON_parse data) as [ message | ]; [ | intros [ [=] | [] ] ].
    destruct (get_prop message "type") as [ type | e ]; [ | intros [ [=] | [] ] ].
    destruct (strict_eq_string type "subscribe"); [ | intros [] ].
    destruct (get_prop message "token") as [ token | e ]; [ | intros [ [=] | [] ] ].
    destruct (truthy token); [ | intros [] ].
    destruct (refused_or_accepted token now) as [ Hrefused | (w & Hvalid & Hw) ].
    + rewrite (subscribe_refused _ _ _ _ Hrefused). unfold reject_run.
      destruct (send_fault_of s ws'); [ intros [ [=] | [] ] | ].
      destruct (is_open s ws') eqn:Hopen; [ | intros [] ].
      intros [ [= <- _] | [ [=] | [] ] ]. left. exact Hopen.
    + rewrite (subscribe_accepted _ _ _ _ _ Hvalid Hw). unfold register_run.
      destruct (send_fault_of s ws'); [ intros [ [=] | [] ] | ].
      destruct (is_open s ws') eqn:Hopen; [ | intros [] ].
      intros [ [= <- _] | [] ]. left. exact Hopen.
  - destruct (alive s ws') eqn:Halive.
    + rewrite (step_close _ _ Halive). intros [].
    + unfold step. rewrite Halive. intros [].
  - destruct (alive s ws') eqn:Halive.
    + rewrite (step_error _ _ _ Halive). intros [ [=] | [] ].
    + unfold step. rewrite Halive. intros [].
  - intros [].
  - destruct stored as [ log | e ].
    + rewrite step_ingest_stored. cbn [snd]. intros Hsent.
      apply in_app_or in Hsent. destruct Hsent as [ Hsent | [ Hsent | [] ] ].
      * apply in_map_iff in Hsent. destruct Hsent as (c & [= <- _] & Hc).
        apply served_sublist, recipients_spec in Hc. left. tauto.
      * destruct (first_fault s (recipients s log)); discriminate Hsent.
    + rewrite step_ingest_failed. intros [ [=] | [] ].
Qed.

Lemma lookup_alter_readyState (f : connection -> connection) (ws ws' : WebSocket)
    (l : list connection) (c : connection) :
  (forall c, readyState (f c) = OPEN -> readyState c = OPEN) ->
  l !! ws = Some c ->
  exists c', alter f ws' l !! ws = Some c' /\ (readyState c' = OPEN -> readyState c = OPEN).
Proof.
  intros Hf Hc. destruct (decide (ws' = ws)) as [ -> | Hne ].
  - rewrite list_lookup_alter_eq, Hc. eexists. split; [ reflexivity | apply Hf ].
  - rewrite list_lookup_alter_ne by exact Hne. eauto.
Qed.

(** No event opens a socket again. *)
Lemma step_not_reopened (e : event) (s : server) (ws : WebSocket) (c : connection) :
  connections s !! ws = Some c ->
  exists c', connections (step e s).1 !! ws = Some c'
             /\ (readyState c' = OPEN -> readyState c = OPEN).
Proof.
  intros Hc.
  assert (forall r, r <> OPEN ->
            forall c, readyState (set_readyState r c) = OPEN -> readyState c = OPEN)
    as Hset by (intros r Hr c0 Hopen; destruct (Hr Hopen)).
  destruct e as [ | ws' data now | ws' | ws' e | ws' e | stored ].
  - rewrite step_connection. cbn [fst connections].
    rewrite lookup_app_l by (apply lookup_lt_Some in Hc; exact Hc). eauto.
  - destruct (step_message_cases ws' data now s)
      as [ (o & -> & _) | [ (token & _ & _ & _ & ->)
                          | (token & w & _ & _ & _ & _ & _ & ->) ] ];
      cbn [fst connections update_connection].
    + eauto.
    + apply lookup_alter_readyState; [ apply Hset; discriminate | exact Hc ].
    + apply lookup_alter_readyState; [ tauto | exact Hc ].
  - destruct (alive s ws') eqn:Halive.
    + rewrite (step_close _ _ Halive).
      destruct (connections s !! ws' ≫= client);
        cbn [fst connections update_connection];
        (apply lookup_alter_readyState; [ apply Hset; discriminate | exact Hc ]).
    + unfold step. rewrite Halive. eauto.
  - destruct (alive s ws') eqn:Halive.
    + rewrite (step_error _ _ _ Halive).
      destruct (connections s !! ws' ≫= client);
        cbn [fst connections update_connection];
        (apply lookup_alter_readyState; [ apply Hset; discriminate | exact Hc ]).
    + unfold step. rewrite Halive. eauto.
  - cbn [step fst connections update_connection].
    apply lookup_alter_readyState; [ tauto | exact Hc ].
  - unfold step, run_handler.
    destruct (on_ingest_returns stored s) as (o & ->). eauto.
Qed.

Lemma is_open_false (s : server) (ws : WebSocket) :
  (ws < length (connections s))%nat ->
  is_open s ws = false ->
  exists c, connections s !! ws = Some c /\ readyState c <> OPEN.
Proof.
  intros Hlt Hclosed. unfold is_open in Hclosed.
  destruct (lookup_lt_is_Some_2 _ _ Hlt) as [ c Hc ]. rewrite Hc in Hclosed.
  exists c. split; [ exact Hc | ]. apply bool_decide_eq_false in Hclosed. exact Hclosed.
Qed.

(** X13.  A socket that is no longer open stays silent.  Once an accepted
    socket has left the state OPEN (its connection closed, an error was
    reported on it, or the handler refused its token and closed it), no
    later event sends anything to it: no reply to a subscribe message, no
    record of any workspace. *)
Theorem closed_socket_stays_silent (evs : list event) (s : server) (ws : WebSocket) :
  (ws < length (connections s))%nat ->
  is_open s ws = false ->
  forall e o payload, In (e, o) (transcript evs s) -> ~ In (Sent ws payload) o.
Proof.
  intros Hlt Hclosed.
  destruct (is_open_false s ws Hlt Hclosed) as (c & Hc & Hstate). clear Hlt.
  revert s c Hc Hstate Hclosed.
  induction evs as [ | e evs IH ]; intros s c Hc Hstate Hclosed e' o payload Hin.
  - destruct Hin.
  - destruct Hin as [ Hhead | Hin ].
    + injection Hhead as <- <-.
      intros Hsent. apply (step_sent_open e s) in Hsent.
      destruct Hsent as [ Hopen | [ _ -> ] ]; [ congruence | ].
      apply lookup_lt_Some in Hc. lia.
    + destruct (step_not_reopened e s ws c Hc) as (c' & Hc' & Hstill).
      refine (IH (step e s).1 c' Hc' _ _ e' o payload Hin); [ tauto | ].
      unfold is_open. rewrite Hc'. apply bool_decide_eq_false. tauto.
Qed.

Lemma frames_to_app (ws : WebSocket) (a b : list output) :
  frames_to ws (a ++ b) = frames_to ws a ++ frames_to ws b.
Proof. apply omap_app. Qed.

Lemma frames_to_Sent (ws ws' : WebSocket) (payload : string) (o : list output) :
  frames_to ws (Sent ws' payload :: o)
  = if Nat.eqb ws' ws then payload :: frames_to ws o else frames_to ws o.
Proof. unfold frames_to. simpl. destruct (Nat.eqb ws' ws); reflexivity. Qed.

Lemma frames_to_recipients (s : server) (log : TelemetryLog.t) (ws : WebSocket)
    (message : string) (l : list WebSocketClient) :
  frames_to ws (map (frame message)
                    (filter (fun c => recipient s log c = true) l))
  = if is_open s ws
    then map (fun _ => message)
           (List.filter
              (fun c => Nat.eqb (socket c) ws
                        && strict_eq_string (Some (workspaceId c))
                                            (TelemetryLog.workspaceId log)) l)
    else [].
Proof.
  induction l as [ | c l IH ]; [ destruct (is_open s ws); reflexivity | ].
  rewrite filter_cons. cbn [List.filter].
  destruct (recipient s log c) eqn:Hrec.
  - rewrite decide_True by reflexivity.
    unfold recipient in Hrec. apply andb_true_iff in Hrec. destruct Hrec as [ Hw Hopen ].
    rewrite Hw, andb_true_r. cbn [map]. unfold frame at 1.
    rewrite frames_to_Sent, IH.
    destruct (Nat.eqb_spec (socket c) ws) as [ Hws | Hws ]; [ | reflexivity ].
    rewrite <- Hws, Hopen. reflexivity.
  - rewrite decide_False by discriminate. rewrite IH.
    unfold recipient in Hrec. apply andb_false_iff in Hrec.
    destruct (Nat.eqb_spec (socket c) ws) as [ Hws | Hws ]; [ | reflexivity ].
    destruct Hrec as [ -> | Hclosed ]; [ reflexivity | ].
    rewrite <- Hws, Hclosed. reflexivity.
Qed.

(** X14.  How often a record reaches a socket.  When no send of the fan-out
    raises, an open socket is handed the frame of a record once for each
    registry entry it has for the workspace of the record, and a socket
    that is not open is handed none: a connection that subscribed twice to
    the workspace receives every record twice. *)
Theorem delivery_multiplicity (s : server) (log : TelemetryLog.t) (ws : WebSocket) :
  (forall c, In c (recipients s log) -> send_fault_of s (socket c) = None) ->
  frames_to ws (step (EIngest (Ok log)) s).2
  = if is_open s ws
    then map (fun _ => frame_text log)
             (entries_of s ws (TelemetryLog.workspaceId log))
    else [].
Proof.
  intros Hhealthy. rewrite step_ingest_stored. cbn [snd].
  destruct (served_healthy s (recipients s log) Hhealthy) as [ -> -> ].
  rewrite frames_to_app. cbn [frames_to omap]. rewrite app_nil_r.
  unfold recipients. rewrite frames_to_recipients. reflexivity.
Qed.

(** X15.  Tokens under the default secret.  When [SESSION_SECRET] is not set
    (or is empty), the key of the signature is the constant of the source:
    a token made without the server, for any workspace and with any expiry
    time not yet passed, signed with that constant, is accepted for that
    workspace. *)
Theorem default_secret_mints_tokens `{!PlatformLaws P} (W : string) (exp now : Z) :
  SESSION_SECRET = None \/ SESSION_SECRET = Some EmptyString ->
  now <= exp ->
  let data := JSON_stringify (Token.token_payload W exp) in
  let signature := hmac_sha256_hex "default-socket-secret" data in
  Token.validateSocketToken
    (Some (JStr (base64_encode (JSON_stringify (Token.token_envelope data signature)))))
    now
  = Ok (Token.mkValidation true (Some (JStr W))).
Proof.
  intros Hsecret Hnow data signature.
  assert (Token.SOCKET_SECRET = "default-socket-secret") as Hkey.
  { unfold Token.SOCKET_SECRET. destruct Hsecret as [ -> | -> ]; reflexivity. }
  assert (base64_encode (JSON_stringify (Token.token_envelope data signature))
          = Token.signed_token (Token.token_payload W exp)) as ->.
  { unfold Token.signed_token. rewrite Hkey. reflexivity. }
  unfold Token.validateSocketToken.
  rewrite validate_body_signed by reflexivity.
  unfold after_signature. simpl. unfold lt_number. simpl.
  destruct (Z.ltb_spec exp now); [ lia | reflexivity ].
Qed.

End GatewayProperties.

Lemma closed_socket_stays_silent_witness :
  let s := exec [EConnection; EConnection;
                 EMessage 0 (Scenario.subscribe_text (Scenario.token_for "W1")) 1000;
                 EClose 0] initial in
  let evs := [EMessage 0 (Scenario.subscribe_text (Scenario.token_for "W1")) 2000;
              EIngest (Ok Scenario.r1)] in
  is_open s 0 = false
  /\ (forall e o payload, In (e, o) (transcript evs s) -> ~ In (Sent 0 payload) o).
Proof.
  intros s evs. split; [ reflexivity | ].
  apply (closed_socket_stays_silent evs s 0).
  - vm_compute. lia.
  - reflexivity.
Defined.

(** Socket 0 subscribed twice to W1: it is handed [r1] twice. *)
Lemma delivery_multiplicity_witness :
  let s := exec [EConnection;
                 EMessage 0 (Scenario.subscribe_text (Scenario.token_for "W1")) 1000;
                 EMessage 0 (Scenario.subscribe_text (Scenario.token_for "W1")) 2000]
                initial in
  frames_to 0 (step (EIngest (Ok Scenario.r1)) s).2
  = [frame_text Scenario.r1; frame_text Scenario.r1].
Proof.
  intros s. rewrite (delivery_multiplicity s Scenario.r1 0).
  - reflexivity.
  - intros c Hc. vm_compute in Hc.
    destruct Hc as [ <- | [ <- | [] ] ]; reflexivity.
Defined.

Lemma default_secret_mints_tokens_witness :
  let data := JSON_stringify (Token.token_payload "W2" 4102444800000) in
  let signature := hmac_sha256_hex "default-socket-secret" data in
  Token.validateSocketToken
    (Some (JStr (base64_encode (JSON_stringify (Token.token_envelope data signature)))))
    1735689600000
  = Ok (Token.mkValidation true (Some (JStr "W2"))).
Proof.
  apply (@default_secret_mints_tokens Reference.runtime reference_laws "W2").
  - left. reflexivity.
  - lia.
Defined.

(** ** Whole runs of the gateway *)

Section WholeRunProperties.
Context {P : Platform}.

(** X16.  Records reach authenticated sockets only.  In every run of the
    server from its initial state, a frame sent by the fan-out of a stored
    record goes to a socket on which, earlier in the run, a subscribe
    message arrived whose token validated to the workspace of that very
    record; the frame is the one text of the record. *)
Theorem record_only_after_handshake (evs : list event) (log : TelemetryLog.t)
    (o : list output) (ws : WebSocket) (payload : string) :
  In (EIngest (Ok log), o) (transcript evs initial) ->
  In (Sent ws payload) o ->
  exists before after data now token,
    evs = before ++ EIngest (Ok log) :: after
    /\ In (EMessage ws data now) before
    /\ subscribe_request data token
    /\ truthy token = true
    /\ Token.validateSocketToken token now
       = Ok (Token.mkValidation true (Some (JStr (TelemetryLog.workspaceId log))))
    /\ payload = frame_text log.
Proof.
  intros Hin Hsent.
  destruct (transcript_In _ _ _ _ Hin) as (before & after & -> & ->).
  rewrite step_ingest_stored in Hsent. cbn [snd] in Hsent.
  apply in_app_or in Hsent. destruct Hsent as [ Hsent | [ Hsent | [] ] ].
  - apply in_map_iff in Hsent. destruct Hsent as (c & [= <- <-] & Hc).
    apply served_sublist, recipients_spec in Hc. destruct Hc as (Hc & Hw & _).
    destruct (registry_origin _ _ Hc) as [ (data & now & token & Hmsg & Hreq & Htoken & Hvalid) _ ].
    rewrite Hw in Hvalid.
    exists before, after, data, now, token. tauto.
  - destruct (first_fault _ _); discriminate Hsent.
Qed.

Lemma step_client_variable (e : event) (s : server) (ws : WebSocket)
    (cl : WebSocketClient) :
  connections (step e s).1 !! ws ≫= client = Some cl ->
  connections s !! ws ≫= client = Some cl \/ client_ref cl = next_ref s.
Proof.
  assert (forall (f : connection -> connection) ws',
            (forall c, client (f c) = client c) ->
            alter f ws' (connections s) !! ws ≫= client = connections s !! ws ≫= client)
    as Hsame.
  { intros f ws' Hf. destruct (decide (ws' = ws)) as [ -> | Hne ].
    - rewrite list_lookup_alter_eq. destruct (connections s !! ws); simpl; [ | reflexivity ].
      rewrite Hf. reflexivity.
    - rewrite list_lookup_alter_ne by exact Hne. reflexivity. }
  destruct e as [ | ws' data now | ws' | ws' e | ws' e | stored ].
  - rewrite step_connection. cbn [fst connections].
    destruct (decide (ws < length (connections s))%nat) as [ Hlt | Hge ].
    + rewrite lookup_app_l by exact Hlt. tauto.
    + rewrite lookup_app_r by lia.
      destruct (ws - length (connections s))%nat as [ | n ]; [ discriminate | ].
      simpl. discriminate.
  - destruct (step_message_cases ws' data now s)
      as [ (o & -> & _) | [ (token & _ & _ & _ & ->)
                          | (token & w & _ & _ & _ & _ & _ & ->) ] ];
      cbn [fst connections update_connection].
    + tauto.
    + rewrite Hsame by reflexivity. tauto.
    + destruct (decide (ws' = ws)) as [ -> | Hne ].
      * rewrite list_lookup_alter_eq.
        destruct (connections s !! ws); simpl; [ | discriminate ].
        intros [= <-]. right. reflexivity.
      * rewrite list_lookup_alter_ne by exact Hne. tauto.
  - destruct (alive s ws') eqn:Halive.
    + rewrite (step_close _ _ Halive).
      destruct (connections s !! ws' ≫= client);
        cbn [fst connections update_connection]; rewrite Hsame by reflexivity; tauto.
    + unfold step. rewrite Halive. tauto.
  - destruct (alive s ws') eqn:Halive.
    + rewrite (step_error _ _ _ Halive).
      destruct (connections s !! ws' ≫= client);
        cbn [fst connections update_connection]; rewrite Hsame by reflexivity; tauto.
    + unfold step. rewrite Halive. tauto.
  - cbn [step fst connections update_connection]. rewrite Hsame by reflexivity. tauto.
  - unfold step, run_handler.
    destruct (on_ingest_returns stored s) as (o & ->). tauto.
Qed.

Lemma Set_add_keeps (c c' : WebSocketClient) (l : list WebSocketClient) :
  In c l -> In c (Set_add c' l).
Proof.
  unfold Set_add. destruct (existsb _ l); [ tauto | ].
  intros Hc. apply in_or_app. left. exact Hc.
Qed.

Lemma step_keeps_entry (e : event) (s : server) (c : WebSocketClient) :
  In c (wsClients s) ->
  (forall ws cl, connections s !! ws ≫= client = Some cl ->
                 client_ref cl <> client_ref c) ->
  In c (wsClients (step e s).1).
Proof.
  intros Hc Hstale.
  destruct e as [ | ws' data now | ws' | ws' e | ws' e | stored ].
  - rewrite step_connection. exact Hc.
  - destruct (step_message_cases ws' data now s)
      as [ (o & -> & _) | [ (token & _ & _ & _ & ->)
                          | (token & w & _ & _ & _ & _ & _ & ->) ] ];
      cbn [fst wsClients update_connection]; try exact Hc.
    apply Set_add_keeps, Hc.
  - destruct (alive s ws') eqn:Halive.
    + rewrite (step_close _ _ Halive).
      destruct (connections s !! ws' ≫= client) as [ cl | ] eqn:Hvar;
        cbn [fst wsClients update_connection]; [ | exact Hc ].
      apply Set_delete_In. split; [ exact Hc | ].
      intros Href. exact (Hstale _ _ Hvar (eq_sym Href)).
    + unfold step. rewrite Halive. exact Hc.
  - destruct (alive s ws') eqn:Halive.
    + rewrite (step_error _ _ _ Halive).
      destruct (connections s !! ws' ≫= client) as [ cl | ] eqn:Hvar;
        cbn [fst wsClients update_connection]; [ | exact Hc ].
      apply Set_delete_In. split; [ exact Hc | ].
      intros Href. exact (Hstale _ _ Hvar (eq_sym Href)).
    + unfold step. rewrite Halive. exact Hc.
  - exact Hc.
  - unfold step, run_handler.
    destruct (on_ingest_returns stored s) as (o & ->). exact Hc.
Qed.

(** X17.  An entry no connection holds is never removed.  A registry entry
    that is not the current client of any connection (as the first entry
    of a socket that subscribed twice) stays in the registry through every
    later event: the close and the error of its socket delete only the
    client the connection holds at that time. *)
Theorem orphan_entry_never_removed (evs : list event) (s : server)
    (c : WebSocketClient) :
  fresh_refs s ->
  In c (wsClients s) ->
  (forall ws cl, connections s !! ws ≫= client = Some cl ->
                 client_ref cl <> client_ref c) ->
  In c (wsClients (exec evs s)).
Proof.
  revert s. induction evs as [ | e evs IH ]; intros s Hfresh Hc Hstale.
  - exact Hc.
  - cbn [exec]. apply IH.
    + apply step_fresh_refs, Hfresh.
    + apply step_keeps_entry; assumption.
    + intros ws cl Hvar. apply step_client_variable in Hvar.
      destruct Hvar as [ Hold | Hnew ]; [ exact (Hstale _ _ Hold) | ].
      specialize (Hfresh c Hc). lia.
Qed.

End WholeRunProperties.

Lemma record_only_after_handshake_witness :
  let evs := Scenario.three_clients ++ [EIngest (Ok Scenario.r1)] in
  exists before after data now token,
    evs = before ++ EIngest (Ok Scenario.r1) :: after
    /\ In (EMessage 1 data now) before
    /\ subscribe_request data token
    /\ truthy token = true
    /\ Token.validateSocketToken token now
       = Ok (Token.mkValidation true (Some (JStr "W1")))
    /\ JSON_stringify (new_log_message Scenario.r1) = frame_text Scenario.r1.
Proof.
  intros evs.
  apply (record_only_after_handshake evs Scenario.r1
           [Sent 0 (frame_text Scenario.r1); Sent 1 (frame_text Scenario.r1);
            Response 201 (TelemetryLog.toJSON Scenario.r1)] 1
           (JSON_stringify (new_log_message Scenario.r1))).
  - vm_compute. do 6 right. left. reflexivity.
  - right. left. reflexivity.
Defined.

(** Socket 0 subscribed for W1 and then for W2: the entry for W1 outlives
    the close of the socket. *)
Lemma orphan_entry_never_removed_witness :
  let s := exec [EConnection;
                 EMessage 0 (Scenario.subscribe_text (Scenario.token_for "W1")) 1000;
                 EMessage 0 (Scenario.subscribe_text (Scenario.token_for "W2")) 2000]
                initial in
  In (mkClient 0 0 (JStr "W1"))
     (wsClients (exec [EClose 0; EIngest (Ok Scenario.r1); EConnection; EError 0 Scenario.broken_pipe] s)).
Proof.
  intros s. apply orphan_entry_never_removed.
  - intros c Hc. vm_compute in Hc. destruct Hc as [ <- | [ <- | [] ] ]; vm_compute; lia.
  - vm_compute. left. reflexivity.
  - intros ws cl Hvar. destruct ws as [ | ws ].
    + vm_compute in Hvar. injection Hvar as <-. discriminate.
    + vm_compute in Hvar. destruct ws; discriminate Hvar.
Defined.

(** ** A refused subscribe request, and after *)

Section RefusalProperties.
Context {P : Platform}.




End RefusalProperties.


